(** * Cerbos: the client model, the policy schemas and the decision core

  A shallow embedding of the parts of the repository that its specification
  talks about:

  - [client/model.go]: the response accessors and the policy builders;
  - [schema/jsonschema/cerbos/policy/v1/ResourceRule.schema.json]: the
    [Match] sum type and the pattern of a rule name;
  - the loader and the engine, which the repository's tests exercise
    ([policy_test], the engine test cases) and which are modelled from the
    specification where their code is not part of the sources at hand. *)

From Stdlib Require Import ZArith Lia Ascii String.
From stdpp Require Import gmap strings list fin_maps.

Local Open Scope string_scope.
#[local] Set Warnings "-register-all".

(** ** Go run-time outcomes

  A Go call either returns a value or panics at run time (a nil pointer
  dereference, an index out of range). *)
Inductive outcome (A : Type) : Type :=
| Returns (a : A)
| Panics.
Arguments Returns {A} a.
Arguments Panics {A}.

Definition obind {A B} (o : outcome A) (k : A -> outcome B) : outcome B :=
match o with
| Returns a => k a
| Panics => Panics
end.

(** [effectv1.Effect]: the protobuf enumeration the client compares with.
  Its zero value, what a Go map yields for a missing key, is
  [EFFECT_UNSPECIFIED]. *)
Inductive Effect : Type :=
| EFFECT_UNSPECIFIED
| EFFECT_ALLOW
| EFFECT_DENY
| EFFECT_NO_MATCH.

#[global] Instance Effect_eq_dec : EqDecision Effect.
Proof. solve_decision. Defined.

(** [effect == effectv1.Effect_EFFECT_ALLOW] *)
Definition is_allow (e : Effect) : bool := bool_decide (e = EFFECT_ALLOW).

(** ** [client.CheckResourceSetResponse] *)
Module CheckResourceSet.

(** [responsev1.CheckResourceSetResponse_ActionEffectMap] *)
Record ActionEffectMap := { Actions : gmap string Effect }.

(** [responsev1.CheckResourceSetResponse]: the values of the map are
    pointers, [None] is Go's nil. *)
Record Response := { ResourceInstances : gmap string (option ActionEffectMap) }.

(** The wrapper embeds a pointer to the message. *)
Record CheckResourceSetResponse := { embedded : option Response }.

(** What the client hands out: the wrapper around a message it received. *)
Definition wrap (m : Response) : CheckResourceSetResponse :=
  {| embedded := Some m |}.

Definition IsAllowed (crsr : CheckResourceSetResponse)
    (resourceID action : string) : outcome bool :=
  match embedded crsr with
  | None => Panics
  | Some m =>
      match ResourceInstances m !! resourceID with
      | None => Returns false
      | Some None => Panics
      | Some (Some res) =>
          match Actions res !! action with
          | None => Returns false
          | Some effect => Returns (is_allow effect)
          end
      end
  end.

(** A message as protobuf decoding yields it: no map value is nil. *)
Definition decoded (m : Response) : Prop :=
  forall id, ResourceInstances m !! id <> Some None.

(** The action is recorded with effect [e] for the resource. *)
Definition records (m : Response) (resourceID action : string) (e : Effect) : Prop :=
  exists res, ResourceInstances m !! resourceID = Some (Some res)
              /\ Actions res !! action = Some e.

(** The resource is not in the response, or the action is not among the
    actions of the resource. *)
Definition missing (m : Response) (resourceID action : string) : Prop :=
  forall e, ~ records m resourceID action e.

End CheckResourceSet.

(** ** [client.CheckResourceBatchResponse] *)
Module CheckResourceBatch.

(** [responsev1.CheckResourceBatchResponse_ActionEffectMap] *)
Record ActionEffectMap := {
  ResourceId : string;
  Actions : gmap string Effect
}.

(** [responsev1.CheckResourceBatchResponse]: a slice of pointers. *)
Record Response := { Results : list (option ActionEffectMap) }.

(** The wrapper: the embedded message, the lazily built index and the
    [sync.Once] that guards it ([once = true]: already run). *)
Record CheckResourceBatchResponse := {
  embedded : option Response;
  idx : gmap string (list nat);
  once : bool
}.

Definition wrap (m : Response) : CheckResourceBatchResponse :=
  {| embedded := Some m; idx := ∅; once := false |}.

(** The loop of [buildIdx]: [r.ResourceId] is a field access, so a nil
    entry panics. Reading a missing key yields the nil slice. *)
Fixpoint index_from (i : nat) (rs : list (option ActionEffectMap))
    (acc : gmap string (list nat)) : outcome (gmap string (list nat)) :=
  match rs with
  | [] => Returns acc
  | None :: _ => Panics
  | Some r :: rs' =>
      let v : list nat := default [] (acc !! ResourceId r) in
      index_from (S i) rs' (<[ResourceId r := (v ++ [i])%list]> acc)
  end.

Definition buildIdx (crbr : CheckResourceBatchResponse)
    : outcome CheckResourceBatchResponse :=
  if once crbr then Returns crbr
  else
    match embedded crbr with
    | None => Panics
    | Some m =>
        obind (index_from 0 (Results m) ∅) (fun ix =>
          Returns {| embedded := embedded crbr; idx := ix; once := true |})
    end.

(** The loop over the indexes of [IsAllowed]: [crbr.Results[i]] reads
    through the embedded pointer and panics when the index is out of range;
    a nil result is skipped. *)
Fixpoint scan (m : option Response) (indexes : list nat)
    (action : string) : outcome bool :=
  match indexes with
  | [] => Returns false
  | i :: rest =>
      match m with
      | None => Panics
      | Some m' =>
          match Results m' !! i with
          | None => Panics
          | Some None => scan m rest action
          | Some (Some r) =>
              match Actions r !! action with
              | Some effect => Returns (is_allow effect)
              | None => scan m rest action
              end
          end
      end
  end.

(** [IsAllowed] returns its answer and leaves the wrapper with its index
    built. *)
Definition IsAllowed (crbr : CheckResourceBatchResponse)
    (resourceID action : string) : outcome (bool * CheckResourceBatchResponse) :=
  obind (buildIdx crbr) (fun crbr' =>
    match idx crbr' !! resourceID with
    | None => Returns (false, crbr')
    | Some indexes =>
        obind (scan (embedded crbr') indexes action) (fun b => Returns (b, crbr'))
    end).

(** The wrapper after a sequence of earlier calls of [IsAllowed]. *)
Fixpoint after (qs : list (string * string)) (crbr : CheckResourceBatchResponse)
    : outcome CheckResourceBatchResponse :=
  match qs with
  | [] => Returns crbr
  | (id, a) :: qs' =>
      obind (IsAllowed crbr id a) (fun r => after qs' (snd r))
  end.

(** A message as protobuf decoding yields it: no element is nil. *)
Definition decoded (m : Response) : Prop := None ∉ Results m.

(** Some result of the resource records the action with effect [e]. *)
Definition records (m : Response) (resourceID action : string) (e : Effect) : Prop :=
  exists r, Some r ∈ Results m /\ ResourceId r = resourceID
            /\ Actions r !! action = Some e.

(** No result of the resource lists the action: the resource is not in the
    response, or the action is not among its actions. *)
Definition missing (m : Response) (resourceID action : string) : Prop :=
  forall e, ~ records m resourceID action e.

(** Every position the index lists under an id holds a result of that id. *)
Definition index_sound (results : list (option ActionEffectMap))
    (ix : gmap string (list nat)) : Prop :=
  forall id l j, ix !! id = Some l -> j ∈ l ->
    exists r, results !! j = Some (Some r) /\ ResourceId r = id.

(** The wrapper of message [m], with its index either not built yet or
    built from [m]. *)
Definition wraps (m : Response) (crbr : CheckResourceBatchResponse) : Prop :=
  embedded crbr = Some m
  /\ (once crbr = false \/ index_sound (Results m) (idx crbr)).

End CheckResourceBatch.

(** ** [client.ResourceResult] *)
Module ResourceResult.

(** [responsev1.CheckResourcesResponse_ResultEntry] *)
Record ResultEntry := { Actions : gmap string Effect }.

(** The embedded entry and the error; [None] is nil. *)
Record ResourceResult := {
  embedded : option ResultEntry;
  err : option string
}.

(** The receiver is a pointer and may be nil itself. *)
Definition IsAllowed (rr : option ResourceResult) (action : string) : outcome bool :=
  match rr with
  | Some r =>
      match err r with
      | None =>
          match embedded r with
          | None => Panics
          | Some e =>
              Returns (is_allow (default EFFECT_UNSPECIFIED (Actions e !! action)))
          end
      | Some _ => Returns false
      end
  | None => Returns false
  end.

(** The result carries a non-nil error. *)
Definition carries_error (rr : option ResourceResult) : Prop :=
  exists r msg, rr = Some r /\ err r = Some msg.

End ResourceResult.

(** ** Regular expressions of the schemas' [pattern] keywords

    The patterns of the schemas are anchored at both ends ([^...$]) and use
    only character classes, grouping, concatenation and [*]. A string matches
    such a pattern when the whole string is in the language of its body. All
    the classes are ranges of ASCII characters, so a string is read byte by
    byte: a byte of a character outside ASCII is in none of the classes. *)
Module Regex.

Inductive regex : Type :=
  | Void
  | Eps
  | Class (ranges : list (ascii * ascii))
  | Cat (r1 r2 : regex)
  | Alt (r1 r2 : regex)
  | Star (r : regex).

(** [lo-hi] inside a class; a single character [c] is the range [c-c]. *)
Definition in_range (c : ascii) (range : ascii * ascii) : bool :=
  (N_of_ascii (fst range) <=? N_of_ascii c)%N
  && (N_of_ascii c <=? N_of_ascii (snd range))%N.

Definition in_class (c : ascii) (ranges : list (ascii * ascii)) : bool :=
  existsb (in_range c) ranges.

Fixpoint nullable (r : regex) : bool :=
  match r with
  | Void => false
  | Eps => true
  | Class _ => false
  | Cat r1 r2 => nullable r1 && nullable r2
  | Alt r1 r2 => nullable r1 || nullable r2
  | Star _ => true
  end.

(** What is left to match once [c] has been read. *)
Fixpoint deriv (c : ascii) (r : regex) : regex :=
  match r with
  | Void => Void
  | Eps => Void
  | Class ranges => if in_class c ranges then Eps else Void
  | Cat r1 r2 =>
      if nullable r1 then Alt (Cat (deriv c r1) r2) (deriv c r2)
      else Cat (deriv c r1) r2
  | Alt r1 r2 => Alt (deriv c r1) (deriv c r2)
  | Star r1 => Cat (deriv c r1) (Star r1)
  end.

Fixpoint run (r : regex) (s : list ascii) : bool :=
  match s with
  | [] => nullable r
  | c :: s' => run (deriv c r) s'
  end.

(** [^r$] against the string [s]. *)
Definition full_match (r : regex) (s : string) : bool :=
  run r (list_ascii_of_string s).

(** The language of a regular expression. *)
Inductive lang : regex -> list ascii -> Prop :=
  | lang_eps : lang Eps []
  | lang_class c ranges : in_class c ranges = true -> lang (Class ranges) [c]
  | lang_cat r1 r2 s1 s2 :
      lang r1 s1 -> lang r2 s2 -> lang (Cat r1 r2) (s1 ++ s2)%list
  | lang_alt_l r1 r2 s : lang r1 s -> lang (Alt r1 r2) s
  | lang_alt_r r1 r2 s : lang r2 s -> lang (Alt r1 r2) s
  | lang_star_nil r : lang (Star r) []
  | lang_star_cons r s1 s2 :
      lang r s1 -> lang (Star r) s2 -> lang (Star r) (s1 ++ s2)%list.

(** [[A-Za-z]] *)
Definition letter : list (ascii * ascii) :=
  [("A", "Z"); ("a", "z")]%char.

(** [[\--\.0-9@-Z_a-z]]: the range from [-] to [.], the digits, the range
    from [@] to [Z], the underscore and the lower-case letters. *)
Definition name_char : list (ascii * ascii) :=
  [("-", "."); ("0", "9"); ("@", "Z"); ("_", "_"); ("a", "z")]%char.

End Regex.

(** ** JSON values and the JSON-schema keywords of the policy schemas *)
Module JSONSchema.
Import Regex.

(** JSON values. The schemas at hand put no constraint on numbers, which
    are kept as integers; an object is the list of its members in the order
    of the text. *)
Inductive json : Type :=
  | JNull
  | JBool (b : bool)
  | JNumber (n : Z)
  | JString (s : string)
  | JArray (items : list json)
  | JObject (members : list (string * json)).

Inductive jtype : Type := TObject | TArray | TString | TNumber | TBoolean | TNull.

(** A schema is a reference to a definition or a set of keywords, all of
    which must hold. [Pattern r] is the keyword [pattern] with value [^r$]. *)
Inductive schema : Type :=
  | Ref (name : string)
  | Schema (keywords : list keyword)
with keyword : Type :=
  | Type_ (t : jtype)
  | Properties (props : list (string * schema))
  | AdditionalProperties (allowed : bool)
  | Required (names : list string)
  | Items (s : schema)
  | MinItems (n : nat)
  | Pattern (r : regex)
  | AllOf (ss : list schema)
  | OneOf (ss : list schema).

Definition has_type (t : jtype) (j : json) : bool :=
  match t, j with
  | TObject, JObject _ => true
  | TArray, JArray _ => true
  | TString, JString _ => true
  | TNumber, JNumber _ => true
  | TBoolean, JBool _ => true
  | TNull, JNull => true
  | _, _ => false
  end.

(** The value of a key in a list of pairs. *)
Fixpoint assoc {A} (k : string) (l : list (string * A)) : option A :=
  match l with
  | [] => None
  | (k', v) :: l' => if String.eqb k k' then Some v else assoc k l'
  end.

Definition has_key {A} (k : string) (l : list (string * A)) : bool :=
  match assoc k l with Some _ => true | None => false end.

(** Conjunction of the verdicts on a list; [None] when some verdict could not
    be reached. *)
Fixpoint all_valid {A} (f : A -> option bool) (l : list A) : option bool :=
  match l with
  | [] => Some true
  | x :: l' =>
      match f x, all_valid f l' with
      | Some b, Some b' => Some (b && b')
      | _, _ => None
      end
  end.

(** The number of positive verdicts on a list. *)
Fixpoint count_valid {A} (f : A -> option bool) (l : list A) : option nat :=
  match l with
  | [] => Some 0
  | x :: l' =>
      match f x, count_valid f l' with
      | Some b, Some n => Some (if b then S n else n)
      | _, _ => None
      end
  end.

(** The names under the [properties] keyword of a schema object. *)
Definition property_names (siblings : list keyword) : list string :=
  flat_map (fun kw => match kw with Properties ps => map fst ps | _ => [] end)
           siblings.

(** One keyword against a value; [sub] validates against a sub-schema. A
    keyword that does not apply to the type of the value holds. *)
Definition keyword_holds (sub : schema -> json -> option bool)
    (siblings : list keyword) (kw : keyword) (j : json) : option bool :=
  match kw, j with
  | Type_ t, _ => Some (has_type t j)
  | Properties ps, JObject ms =>
      all_valid (fun m : string * json =>
                   match assoc (fst m) ps with
                   | Some s => sub s (snd m)
                   | None => Some true
                   end) ms
  | AdditionalProperties allowed, JObject ms =>
      Some (allowed
            || forallb (fun m : string * json =>
                          existsb (String.eqb (fst m)) (property_names siblings)) ms)
  | Required names, JObject ms => Some (forallb (fun k => has_key k ms) names)
  | Items s, JArray items => all_valid (sub s) items
  | MinItems n, JArray items => Some (Nat.leb n (length items))
  | Pattern r, JString s => Some (full_match r s)
  | AllOf ss, _ => all_valid (fun s => sub s j) ss
  | OneOf ss, _ =>
      match count_valid (fun s => sub s j) ss with
      | Some n => Some (Nat.eqb n 1)
      | None => None
      end
  | _, _ => Some true
  end.

(** Validation against a schema, with the definitions [defs] in scope. The
    schemas refer to each other, so the depth of the descent is bounded by
    [fuel]; [None] when the bound was reached or a reference is dangling. *)
Fixpoint validate (defs : list (string * schema)) (fuel : nat)
    (s : schema) (j : json) : option bool :=
  match fuel with
  | 0 => None
  | S fuel' =>
      match s with
      | Ref name =>
          match assoc name defs with
          | Some s' => validate defs fuel' s' j
          | None => None
          end
      | Schema kws =>
          all_valid (fun kw => keyword_holds (validate defs fuel') kws kw j) kws
      end
  end.

(** [ResourceRule.schema.json], [definitions]: [cerbos.policy.v1.Match.ExprList]. *)
Definition ExprList_schema : schema :=
  Schema [ Type_ TObject;
           Required ["of"];
           AdditionalProperties false;
           Properties
             [("of", Schema [ Type_ TArray;
                              Items (Ref "cerbos.policy.v1.Match");
                              MinItems 1 ])] ].

(** [ResourceRule.schema.json], [definitions]: [cerbos.policy.v1.Match]. *)
Definition Match_schema : schema :=
  Schema
    [ AllOf
        [ Schema [ Type_ TObject;
                   AdditionalProperties false;
                   Properties
                     [("all", Ref "cerbos.policy.v1.Match.ExprList");
                      ("any", Ref "cerbos.policy.v1.Match.ExprList");
                      ("expr", Schema [Type_ TString]);
                      ("none", Ref "cerbos.policy.v1.Match.ExprList")] ];
          Schema [ OneOf
                     [ Schema [Type_ TObject; Required ["all"]];
                       Schema [Type_ TObject; Required ["any"]];
                       Schema [Type_ TObject; Required ["none"]];
                       Schema [Type_ TObject; Required ["expr"]] ] ] ] ].

Definition definitions : list (string * schema) :=
  [("cerbos.policy.v1.Match", Match_schema);
   ("cerbos.policy.v1.Match.ExprList", ExprList_schema)].

(** A value is accepted as a [Match] when validation reaches the verdict
    "valid". *)
Definition accepted_Match (j : json) : Prop :=
  exists fuel, validate definitions fuel Match_schema j = Some true.

(** The variants of the sum type. *)
Definition variants : list string := ["all"; "any"; "none"; "expr"].

(** How many of the variants are set in an object. *)
Definition variants_set (members : list (string * json)) : nat :=
  length (List.filter (fun k => has_key k members) variants).

(** [ResourceRule.schema.json], [properties.name]: the pattern is, anchored
    at both ends, any number of groups of one of [A-Za-z] followed by any
    number of [\--\.0-9@-Z_a-z]. *)
Definition name_pattern : regex :=
  Star (Cat (Class letter) (Star (Class name_char))).

Definition name_schema : schema :=
  Schema [Type_ TString; Pattern name_pattern].

(** A string is accepted as the name of a rule. *)
Definition accepted_name (s : string) : Prop :=
  exists fuel, validate definitions fuel name_schema (JString s) = Some true.

(** The pattern as the specification quotes it: [^[\--\.0-9@-Z_a-z]*$]. *)
Definition spec_name_pattern : regex := Star (Class name_char).

(** The first character of the string is one of [A-Za-z]. *)
Definition begins_with_letter (s : string) : bool :=
  match s with
  | EmptyString => false
  | String c _ => in_class c letter
  end.

End JSONSchema.

(** ** The policy messages ([policyv1]) as [client/model.go] builds them *)
Module policyv1.

(** [Match]: the operator is one of [all], [any], [none] over a list of
    matches, or a single expression. *)
Inductive Match : Type :=
  | Match_All (Of : list Match)
  | Match_Any (Of : list Match)
  | Match_None (Of : list Match)
  | Match_Expr (expr : string).

Inductive Condition : Type :=
  | Condition_Match (m : Match)
  | Condition_Script (script : string).

Module Variables.
Record t := { Import : list string; Local : gmap string string }.
End Variables.

Module Schemas_Schema.
Record t := { Ref : string; IgnoreWhen : option (list string) }.
End Schemas_Schema.

Module Schemas.
Record t := {
  PrincipalSchema : option Schemas_Schema.t;
  ResourceSchema : option Schemas_Schema.t
}.
End Schemas.

Module ResourceRule.
Record t := {
  Actions : list string;
  Effect : Effect;
  Name : string;
  Roles : list string;
  DerivedRoles : list string;
  Condition : option Condition;
  Output : option string
}.
End ResourceRule.

Module ResourcePolicy.
Record t := {
  Resource : string;
  Version : string;
  Scope : string;
  ImportDerivedRoles : list string;
  Variables : option Variables.t;
  Schemas : option Schemas.t;
  Rules : list ResourceRule.t
}.
End ResourcePolicy.

Module PrincipalRule_Action.
Record t := {
  Action : string;
  Effect : Effect;
  Condition : option Condition;
  Output : option string
}.
End PrincipalRule_Action.

Module PrincipalRule.
Record t := { Resource : string; Actions : list PrincipalRule_Action.t }.
End PrincipalRule.

Module PrincipalPolicy.
Record t := {
  Principal : string;
  Version : string;
  Scope : string;
  Rules : list PrincipalRule.t;
  Variables : option Variables.t
}.
End PrincipalPolicy.

Module RoleDef.
Record t := {
  Name : string;
  ParentRoles : list string;
  Condition : option Condition
}.
End RoleDef.

Module DerivedRoles.
Record t := {
  Name : string;
  Definitions : list RoleDef.t;
  Variables : option Variables.t
}.
End DerivedRoles.

Module ExportVariables.
Record t := { Name : string; Definitions : gmap string string }.
End ExportVariables.

Inductive isPolicy_PolicyType : Type :=
  | Policy_ResourcePolicy (rp : ResourcePolicy.t)
  | Policy_PrincipalPolicy (pp : PrincipalPolicy.t)
  | Policy_DerivedRoles (dr : DerivedRoles.t)
  | Policy_ExportVariables (ev : ExportVariables.t).

(** [Policy]: the one-of [PolicyType] may be unset. [JsonSchema] is the
    annotation field that the tests of the loader leave out of their
    comparisons ([json_schema]). *)
Record Policy := {
  ApiVersion : string;
  PolicyType : option isPolicy_PolicyType;
  JsonSchema : string
}.

End policyv1.

(** ** The policy builders of [client/model.go] *)
Module client.
Import policyv1.

Definition apiVersion : string := "api.cerbos.dev/v1".

Section Builders.

(** [policy.Validate], of the package [internal/policy]; [None] is the nil
    error. *)
Context {E : Type} (Validate : Policy -> option E).

(** [ResourcePolicy]: the builder holds the message and the accumulated
    error. *)
Record ResourcePolicy := { p : ResourcePolicy.t; rp_err : option E }.

Definition NewResourcePolicy (resource version : string) : ResourcePolicy :=
  {| p := {| ResourcePolicy.Resource := resource;
             ResourcePolicy.Version := version;
             ResourcePolicy.Scope := "";
             ResourcePolicy.ImportDerivedRoles := [];
             ResourcePolicy.Variables :=
               Some {| Variables.Import := []; Variables.Local := ∅ |};
             ResourcePolicy.Schemas := None;
             ResourcePolicy.Rules := [] |};
     rp_err := None |}.

Definition ResourcePolicy_build (rp : ResourcePolicy) : Policy * option E :=
  let policy := {| ApiVersion := apiVersion;
                   PolicyType := Some (Policy_ResourcePolicy (p rp));
                   JsonSchema := "" |} in
  (policy, Validate policy).

(** [ResourcePolicy.Validate] *)
Definition ResourcePolicy_Validate (rp : ResourcePolicy) : option E :=
  match rp_err rp with
  | Some e => Some e
  | None => snd (ResourcePolicy_build rp)
  end.

Record PrincipalPolicy := { pp : PrincipalPolicy.t; pp_err : option E }.

Definition NewPrincipalPolicy (principal version : string) : PrincipalPolicy :=
  {| pp := {| PrincipalPolicy.Principal := principal;
              PrincipalPolicy.Version := version;
              PrincipalPolicy.Scope := "";
              PrincipalPolicy.Rules := [];
              PrincipalPolicy.Variables :=
                Some {| Variables.Import := []; Variables.Local := ∅ |} |};
     pp_err := None |}.

Definition PrincipalPolicy_build (b : PrincipalPolicy) : Policy * option E :=
  let policy := {| ApiVersion := apiVersion;
                   PolicyType := Some (Policy_PrincipalPolicy (pp b));
                   JsonSchema := "" |} in
  (policy, Validate policy).

Record DerivedRoles := { dr : DerivedRoles.t }.

Definition NewDerivedRoles (name : string) : DerivedRoles :=
  {| dr := {| DerivedRoles.Name := name;
              DerivedRoles.Definitions := [];
              DerivedRoles.Variables :=
                Some {| Variables.Import := []; Variables.Local := ∅ |} |} |}.

Definition DerivedRoles_build (b : DerivedRoles) : Policy * option E :=
  let policy := {| ApiVersion := apiVersion;
                   PolicyType := Some (Policy_DerivedRoles (dr b));
                   JsonSchema := "" |} in
  (policy, Validate policy).

Record ExportVariables := { ev : ExportVariables.t }.

Definition NewExportVariables (name : string) : ExportVariables :=
  {| ev := {| ExportVariables.Name := name;
              ExportVariables.Definitions := ∅ |} |}.

Definition ExportVariables_build (b : ExportVariables) : Policy * option E :=
  let policy := {| ApiVersion := apiVersion;
                   PolicyType := Some (Policy_ExportVariables (ev b));
                   JsonSchema := "" |} in
  (policy, Validate policy).

(** The four builders behind the interface that [PolicySet.add] accepts. *)
Inductive Builder : Type :=
  | OfResourcePolicy (b : ResourcePolicy)
  | OfPrincipalPolicy (b : PrincipalPolicy)
  | OfDerivedRoles (b : DerivedRoles)
  | OfExportVariables (b : ExportVariables).

Definition build (b : Builder) : Policy * option E :=
  match b with
  | OfResourcePolicy b => ResourcePolicy_build b
  | OfPrincipalPolicy b => PrincipalPolicy_build b
  | OfDerivedRoles b => DerivedRoles_build b
  | OfExportVariables b => ExportVariables_build b
  end.

End Builders.

End client.

(** ** The loader and validator ([internal/policy])

    The package is exercised by [policy_test] ([TestReadPolicy], [TestHash],
    [TestReadFileWithMultiplePolicies], [TestValidate]) and called by the
    client; its own code is modelled from sections 3 and 4.1 of the
    specification. *)
Module policy.
Import policyv1 Regex.

(** Modelled from the spec: the output of the loader, "one Policy or a
    failure". *)
Inductive result (E A : Type) : Type :=
  | Ok (a : A)
  | Err (e : E).
Arguments Ok {E A} a.
Arguments Err {E A} e.

(** Modelled from the spec: the structural rules that validation reports
    (section 7, ValidationError). *)
Inductive ValidationError : Type :=
  | BadAPIVersion
  | MissingPolicyType
  | EmptyResourceName
  | BadVersion
  | BadScope
  | BadRule
  | BadRoleDef.

(** Modelled from the spec: the class [[A-Za-z0-9_]] of the pattern of
    [version]. *)
Definition word_char : list (ascii * ascii) :=
  [("A", "Z"); ("a", "z"); ("0", "9"); ("_", "_")]%char.

(** Modelled from the spec: the class [[A-Za-z0-9]] of the pattern of
    [scope]. *)
Definition alnum : list (ascii * ascii) :=
  [("A", "Z"); ("a", "z"); ("0", "9")]%char.

(** Modelled from the spec: the class [[-A-Za-z0-9_]] of the pattern of
    [scope]. *)
Definition scope_char : list (ascii * ascii) :=
  [("-", "-"); ("A", "Z"); ("a", "z"); ("0", "9"); ("_", "_")]%char.

(** Modelled from the spec: [version] matches [^[A-Za-z0-9_]+$]. *)
Definition version_pattern : regex :=
  Cat (Class word_char) (Star (Class word_char)).

(** Modelled from the spec: [scope] is empty or matches the pattern of
    section 3: one of [A-Za-z0-9], then any number of [-A-Za-z0-9_], then any
    number of groups of a dot followed by any number of [-A-Za-z0-9_]. *)
Definition scope_pattern : regex :=
  Cat (Cat (Class alnum) (Star (Class scope_char)))
      (Star (Cat (Class [(".", ".")]%char) (Star (Class scope_char)))).

(** Modelled from the spec: the check of [version]. *)
Definition valid_version (v : string) : bool := full_match version_pattern v.

(** Modelled from the spec: the check of [scope], which may be empty. *)
Definition valid_scope (sc : string) : bool :=
  String.eqb sc "" || full_match scope_pattern sc.

(** [len >= 1] *)
Definition nonempty {A} (l : list A) : bool :=
  match l with [] => false | _ :: _ => true end.

(** Modelled from the spec: [all], [any] and [none] require at least one
    element, at every level of a [Match]. *)
Fixpoint valid_Match (m : Match) : bool :=
  match m with
  | Match_All l => nonempty l && forallb valid_Match l
  | Match_Any l => nonempty l && forallb valid_Match l
  | Match_None l => nonempty l && forallb valid_Match l
  | Match_Expr _ => true
  end.

(** Modelled from the spec: a condition is valid when its match is. *)
Definition valid_Condition (c : option Condition) : bool :=
  match c with
  | Some (Condition_Match m) => valid_Match m
  | Some (Condition_Script _) => true
  | None => true
  end.

(** Modelled from the spec: the actions of a resource rule are non-empty and
    unique. *)
Definition valid_ResourceRule (r : ResourceRule.t) : bool :=
  nonempty (ResourceRule.Actions r)
  && bool_decide (NoDup (ResourceRule.Actions r))
  && valid_Condition (ResourceRule.Condition r).

(** Modelled from the spec: the conditions of the actions of a principal
    rule are valid. *)
Definition valid_PrincipalRule (r : PrincipalRule.t) : bool :=
  forallb (fun a => valid_Condition (PrincipalRule_Action.Condition a))
          (PrincipalRule.Actions r).

(** Modelled from the spec: the parent roles of a role definition are
    non-empty. *)
Definition valid_RoleDef (d : RoleDef.t) : bool :=
  nonempty (RoleDef.ParentRoles d) && valid_Condition (RoleDef.Condition d).

(** Modelled from the spec: [policy.Validate] (and the [Validate] method of
    the policy message that it calls), absent from the sources. Every policy
    has the api version [api.cerbos.dev/v1] and exactly one policy type, and
    the policy type obeys the structural rules of section 3; an empty
    resource name is an error ([TestValidate]). [None] is the nil error. *)
Definition Validate (p : Policy) : option ValidationError :=
  if negb (String.eqb (ApiVersion p) "api.cerbos.dev/v1") then Some BadAPIVersion
  else
    match PolicyType p with
    | None => Some MissingPolicyType
    | Some (Policy_ResourcePolicy rp) =>
        if String.eqb (ResourcePolicy.Resource rp) "" then Some EmptyResourceName
        else if negb (valid_version (ResourcePolicy.Version rp)) then Some BadVersion
        else if negb (valid_scope (ResourcePolicy.Scope rp)) then Some BadScope
        else if negb (forallb valid_ResourceRule (ResourcePolicy.Rules rp))
             then Some BadRule
        else None
    | Some (Policy_PrincipalPolicy pp) =>
        if negb (valid_version (PrincipalPolicy.Version pp)) then Some BadVersion
        else if negb (valid_scope (PrincipalPolicy.Scope pp)) then Some BadScope
        else if negb (forallb valid_PrincipalRule (PrincipalPolicy.Rules pp))
             then Some BadRule
        else None
    | Some (Policy_DerivedRoles dr) =>
        if negb (forallb valid_RoleDef (DerivedRoles.Definitions dr))
        then Some BadRoleDef
        else None
    | Some (Policy_ExportVariables _) => None
    end.

(** Modelled from the spec: the offset basis of the 64-bit FNV-1a hash. *)
Definition fnv_offset_basis : Z := 14695981039346656037%Z.

(** Modelled from the spec: the prime of the 64-bit FNV-1a hash. *)
Definition fnv_prime : Z := 1099511628211%Z.

(** Modelled from the spec: the 64-bit FNV-1a hash of a sequence of bytes:
    for every byte, exclusive or, then multiplication modulo [2^64]. *)
Definition fnv1a64 (bytes : list Byte.byte) : Z :=
  fold_left
    (fun h b => ((Z.lxor h (Z.of_N (Byte.to_N b)) * fnv_prime) mod 2 ^ 64)%Z)
    bytes fnv_offset_basis.

(** Modelled from the spec: the policy without its [jsonSchema]
    annotation, which the hash leaves out. *)
Definition omit_jsonSchema (p : Policy) : Policy :=
  {| ApiVersion := ApiVersion p; PolicyType := PolicyType p; JsonSchema := "" |}.

(** Modelled from the spec: two policies are the same logical policy when
    they differ at most in the annotation. *)
Definition same_logical_policy (p q : Policy) : Prop :=
  omit_jsonSchema p = omit_jsonSchema q.

(** Modelled from the spec: the advertised format of a stream. *)
Inductive Format : Type := YAML | JSON.

(** Modelled from the spec: the failures of loading (section 7, LoadError). *)
Inductive LoadError : Type :=
  | MultiplePolicies
  | Malformed
  | Invalid (e : ValidationError).

(** Modelled from the spec: the text of a failure. *)
Definition message (e : LoadError) : string :=
  match e with
  | MultiplePolicies => "multiple policies in one file"
  | Malformed => "malformed source"
  | Invalid _ => "invalid policy"
  end.

Section Loader.

(** Modelled from the spec: the texts of single documents, the decoder of
    one document in a format and the canonical serialization of a policy are
    collaborators of the loader. *)
Context {Raw : Type}.
Context (decode : Format -> Raw -> option Policy).
Context (serialize : Policy -> list Byte.byte).

(** Modelled from the spec: the input of the loader, a stream in an advertised
    format, seen as the sequence of its top-level documents. *)
Record Stream := { format : Format; documents : list Raw }.

(** Modelled from the spec: [policy.ReadPolicy], absent from the sources. It
    rejects a stream of several top-level documents as "multiple policies in
    one file", decodes the single document and runs the structural
    validation; the output is one policy or a failure. *)
Definition ReadPolicy (s : Stream) : result LoadError Policy :=
  match documents s with
  | [] => Err Malformed
  | [d] =>
      match decode (format s) d with
      | None => Err Malformed
      | Some p =>
          match Validate p with
          | Some e => Err (Invalid e)
          | None => Ok p
          end
      end
  | _ :: _ :: _ => Err MultiplePolicies
  end.

(** Modelled from the spec: [policy.GetHash], absent from the sources: the
    64-bit FNV-1a hash of the canonical serialization in which the annotation
    field [jsonSchema] is omitted. *)
Definition GetHash (p : Policy) : Z := fnv1a64 (serialize (omit_jsonSchema p)).

(** Modelled from the spec: the stream that holds the encoding of one
    policy in a format. *)
Definition encoding (encode : Format -> Policy -> Raw) (fmt : Format)
    (p : Policy) : Stream :=
  {| format := fmt; documents := [encode fmt p] |}.

(** Modelled from the spec: the two formats are isomorphic: decoding the
    encoding of a policy, in either format, yields the same logical
    policy. *)
Definition isomorphic (encode : Format -> Policy -> Raw) : Prop :=
  forall fmt p, exists q,
    decode fmt (encode fmt p) = Some q /\ same_logical_policy p q.

End Loader.

End policy.

(** ** The engine ([internal/engine])

    The engine is exercised by the test cases under
    [internal/test/testdata/engine]; its own code is modelled from section
    4.5 of the specification. *)
Module engine.
Import policyv1 JSONSchema.

(** [enginev1.Principal] and [enginev1.Resource], as the test cases write
    them; an absent [policyVersion] or [scope] is the empty string. *)
Record Principal := {
  p_id : string;
  p_policyVersion : string;
  p_scope : string;
  p_roles : list string;
  p_attr : list (string * json)
}.

Record Resource := {
  r_kind : string;
  r_id : string;
  r_policyVersion : string;
  r_scope : string;
  r_attr : list (string * json)
}.

Record CheckInput := {
  requestId : string;
  principal : Principal;
  resource : Resource;
  actions : list string
}.

(** Modelled from the spec: the decision for one action: effect, policy
    identifier and scope. *)
Record ActionEffect := {
  effect : Effect;
  policy : string;
  scope : string
}.

(** The output for one request, as the test cases write it. *)
Record CheckOutput := {
  o_requestId : string;
  o_resourceId : string;
  o_actions : list (string * ActionEffect);
  effectiveDerivedRoles : list string
}.

(** *** Action and resource globs *)

(** Modelled from the spec: the parts of a glob. *)
Inductive glob_token : Type :=
  | GStar
  | GAny
  | GClass (ranges : list (ascii * ascii))
  | GLit (c : ascii).

(** Modelled from the spec: the characters of a class up to its closing
    bracket, and what follows the bracket; [None] when the bracket is never
    closed. *)
Fixpoint split_class (s : list ascii) : option (list ascii * list ascii) :=
  match s with
  | [] => None
  | c :: rest =>
      if Ascii.eqb c "]" then Some ([], rest)
      else match split_class rest with
           | Some (body, rest') => Some (c :: body, rest')
           | None => None
           end
  end.

(** Modelled from the spec: the ranges of a class: [lo-hi] is a range, any
    other character stands for itself. *)
Fixpoint ranges_of (body : list ascii) : list (ascii * ascii) :=
  match body with
  | [] => []
  | lo :: rest =>
      match rest with
      | "-"%char :: hi :: rest' => (lo, hi) :: ranges_of rest'
      | _ => (lo, lo) :: ranges_of rest
      end
  end.

(** Modelled from the spec: a glob is made of literals, [*], [?] and
    character classes. The pattern is read with [fuel] bounded by its
    length. *)
Fixpoint parse_glob (fuel : nat) (s : list ascii) : list glob_token :=
  match fuel with
  | 0 => []
  | S fuel' =>
      match s with
      | [] => []
      | "*"%char :: rest => GStar :: parse_glob fuel' rest
      | "?"%char :: rest => GAny :: parse_glob fuel' rest
      | "["%char :: rest =>
          match split_class rest with
          | Some (body, rest') => GClass (ranges_of body) :: parse_glob fuel' rest'
          | None => GLit "[" :: parse_glob fuel' rest
          end
      | c :: rest => GLit c :: parse_glob fuel' rest
      end
  end.

(** Modelled from the spec: [*] stands for any run of characters, [?] for
    any one character, a class for one character of its ranges. *)
Fixpoint match_tokens (ts : list glob_token) : list ascii -> bool :=
  match ts with
  | [] => fun text => match text with [] => true | _ :: _ => false end
  | GStar :: ts' =>
      fix star (text : list ascii) : bool :=
        match_tokens ts' text
        || match text with
           | [] => false
           | _ :: text' => star text'
           end
  | GAny :: ts' =>
      fun text => match text with [] => false | _ :: text' => match_tokens ts' text' end
  | GClass ranges :: ts' =>
      fun text =>
        match text with
        | [] => false
        | c :: text' => Regex.in_class c ranges && match_tokens ts' text'
        end
  | GLit c :: ts' =>
      fun text =>
        match text with
        | [] => false
        | c' :: text' => Ascii.eqb c c' && match_tokens ts' text'
        end
  end.

(** Modelled from the spec: [matches(text, glob)] of section 8. *)
Definition matches (text glob : string) : bool :=
  match_tokens (parse_glob (String.length glob) (list_ascii_of_string glob))
               (list_ascii_of_string text).

(** *** Scopes and policy identifiers *)

(** Modelled from the spec: the proper prefixes of [pre ++ s] that end just
    before a dot of [s], shortest first. *)
Fixpoint dot_prefixes (pre s : string) : list string :=
  match s with
  | EmptyString => []
  | String c s' =>
      (if Ascii.eqb c "." then [pre] else [])
        ++ dot_prefixes (pre ++ String c EmptyString) s'
  end%list.

(** Modelled from the spec: for the scope [a.b.c] the engine evaluates, in
    order, [a.b.c], [a.b], [a] and the root scope. *)
Definition scope_chain (sc : string) : list string :=
  if String.eqb sc "" then [""]
  else (sc :: rev (dot_prefixes "" sc) ++ [""])%list.

(** Modelled from the spec: the optional suffix [/<scope>]. *)
Definition with_scope (name sc : string) : string :=
  if String.eqb sc "" then name else name ++ "/" ++ sc.

(** Modelled from the spec: [principal.<id>.v<version>], with the suffix
    [/<scope>] when the scope is not empty. *)
Definition principal_policy_id (id version sc : string) : string :=
  with_scope ("principal." ++ id ++ ".v" ++ version) sc.

(** Modelled from the spec: [resource.<kind>.v<version>], with the suffix
    [/<scope>] when the scope is not empty. *)
Definition resource_policy_id (kind version sc : string) : string :=
  with_scope ("resource." ++ kind ++ ".v" ++ version) sc.

(** Modelled from the spec: the identifier of the default decision. *)
Definition NO_MATCH : string := "NO_MATCH".

Section Engine.

(** Modelled from the spec: the expression language is a collaborator of the
    engine: [eval expr input] is the boolean an expression yields on a
    request, [None] when its evaluation fails or yields another type. *)
Context (eval : string -> CheckInput -> option bool).

(** Modelled from the spec: the policies in force and the configured default
    version. *)
Context (store : list Policy) (defaultPolicyVersion : string).

(** Modelled from the spec: [all] is a conjunction that stops at the first
    false, [any] a disjunction that stops at the first true, [none] the
    negation of [any]. *)
Fixpoint eval_Match (m : Match) (input : CheckInput) : option bool :=
  match m with
  | Match_Expr e => eval e input
  | Match_All l =>
      (fix all (l : list Match) : option bool :=
         match l with
         | [] => Some true
         | m' :: l' =>
             match eval_Match m' input with
             | Some true => all l'
             | other => other
             end
         end) l
  | Match_Any l =>
      (fix any (l : list Match) : option bool :=
         match l with
         | [] => Some false
         | m' :: l' =>
             match eval_Match m' input with
             | Some false => any l'
             | other => other
             end
         end) l
  | Match_None l =>
      (fix none (l : list Match) : option bool :=
         match l with
         | [] => Some true
         | m' :: l' =>
             match eval_Match m' input with
             | Some false => none l'
             | Some true => Some false
             | None => None
             end
         end) l
  end.

(** Modelled from the spec: an absent condition holds; a condition whose
    evaluation fails makes its rule non-matching. *)
Definition holds (c : option Condition) (input : CheckInput) : bool :=
  match c with
  | None => true
  | Some (Condition_Match m) =>
      match eval_Match m input with Some b => b | None => false end
  | Some (Condition_Script e) =>
      match eval e input with Some b => b | None => false end
  end.

(** Modelled from the spec: the policy version of the request, or the
    configured default. *)
Definition version_or_default (v : string) : string :=
  if String.eqb v "" then defaultPolicyVersion else v.

(** Modelled from the spec: the principal policy of an identity
    (principal, version, scope). *)
Fixpoint find_principal_policy (ps : list Policy) (id version sc : string)
    : option PrincipalPolicy.t :=
  match ps with
  | [] => None
  | p :: ps' =>
      match PolicyType p with
      | Some (Policy_PrincipalPolicy pp) =>
          if String.eqb (PrincipalPolicy.Principal pp) id
             && String.eqb (PrincipalPolicy.Version pp) version
             && String.eqb (PrincipalPolicy.Scope pp) sc
          then Some pp
          else find_principal_policy ps' id version sc
      | _ => find_principal_policy ps' id version sc
      end
  end.

(** Modelled from the spec: the resource policy of an identity (kind,
    version, scope). *)
Fixpoint find_resource_policy (ps : list Policy) (kind version sc : string)
    : option ResourcePolicy.t :=
  match ps with
  | [] => None
  | p :: ps' =>
      match PolicyType p with
      | Some (Policy_ResourcePolicy rp) =>
          if String.eqb (ResourcePolicy.Resource rp) kind
             && String.eqb (ResourcePolicy.Version rp) version
             && String.eqb (ResourcePolicy.Scope rp) sc
          then Some rp
          else find_resource_policy ps' kind version sc
      | _ => find_resource_policy ps' kind version sc
      end
  end.

(** Modelled from the spec: the set of derived roles of a name. *)
Fixpoint find_derived_roles (ps : list Policy) (name : string)
    : option DerivedRoles.t :=
  match ps with
  | [] => None
  | p :: ps' =>
      match PolicyType p with
      | Some (Policy_DerivedRoles dr) =>
          if String.eqb (DerivedRoles.Name dr) name then Some dr
          else find_derived_roles ps' name
      | _ => find_derived_roles ps' name
      end
  end.

(** Modelled from the spec: the first action of a principal rule, in
    declaration order, whose glob matches the requested action and whose
    condition holds. *)
Fixpoint first_action (acts : list PrincipalRule_Action.t) (action : string)
    (input : CheckInput) : option Effect :=
  match acts with
  | [] => None
  | a :: acts' =>
      if matches action (PrincipalRule_Action.Action a)
         && holds (PrincipalRule_Action.Condition a) input
      then Some (PrincipalRule_Action.Effect a)
      else first_action acts' action input
  end.

(** Modelled from the spec: the rules of a principal policy whose resource
    glob matches the kind of the resource, in order. *)
Fixpoint first_principal_rule (rules : list PrincipalRule.t) (action : string)
    (input : CheckInput) : option Effect :=
  match rules with
  | [] => None
  | r :: rules' =>
      let here :=
        if matches (r_kind (resource input)) (PrincipalRule.Resource r)
        then first_action (PrincipalRule.Actions r) action input
        else None in
      match here with
      | Some e => Some e
      | None => first_principal_rule rules' action input
      end
  end.

(** Modelled from the spec: step 1 of the resolution order, the principal
    policies along the scope chain of the principal. *)
Fixpoint principal_phase (chain : list string) (action : string)
    (input : CheckInput) : option ActionEffect :=
  match chain with
  | [] => None
  | sc :: chain' =>
      let id := p_id (principal input) in
      let version := version_or_default (p_policyVersion (principal input)) in
      let here :=
        match find_principal_policy store id version sc with
        | Some pp =>
            match first_principal_rule (PrincipalPolicy.Rules pp) action input with
            | Some e =>
                Some {| effect := e;
                        policy := principal_policy_id id version sc;
                        scope := sc |}
            | None => None
            end
        | None => None
        end in
      match here with
      | Some d => Some d
      | None => principal_phase chain' action input
      end
  end.

(** The two lists of names have a name in common. *)
Definition intersects (l1 l2 : list string) : bool :=
  existsb (fun x => existsb (String.eqb x) l2) l1.

(** Modelled from the spec: a derived role is active when one of its parent
    roles is a role of the principal and its condition, if any, holds. *)
Definition active_roles (defs : list RoleDef.t) (input : CheckInput) : list string :=
  map RoleDef.Name
    (List.filter
       (fun d => intersects (RoleDef.ParentRoles d) (p_roles (principal input))
                 && holds (RoleDef.Condition d) input)
       defs).

(** Modelled from the spec: the derived roles that the imported sets
    activate. *)
Definition activate (imports : list string) (input : CheckInput) : list string :=
  flat_map
    (fun name =>
       match find_derived_roles store name with
       | Some dr => active_roles (DerivedRoles.Definitions dr) input
       | None => []
       end)
    imports.

(** Modelled from the spec: a rule applies when the action matches one of its
    globs, the roles of the principal and the active derived roles meet the
    roles and derived roles of the rule, and its condition holds. *)
Definition rule_applies (r : ResourceRule.t) (active : list string)
    (action : string) (input : CheckInput) : bool :=
  existsb (matches action) (ResourceRule.Actions r)
  && intersects (p_roles (principal input) ++ active)%list
                (ResourceRule.Roles r ++ ResourceRule.DerivedRoles r)%list
  && holds (ResourceRule.Condition r) input.

(** Modelled from the spec: the first rule that applies, in declaration
    order, yields its effect. *)
Fixpoint first_resource_rule (rules : list ResourceRule.t) (active : list string)
    (action : string) (input : CheckInput) : option Effect :=
  match rules with
  | [] => None
  | r :: rules' =>
      if rule_applies r active action input then Some (ResourceRule.Effect r)
      else first_resource_rule rules' active action input
  end.

(** Modelled from the spec: step 2 of the resolution order, the resource
    policies along the scope chain of the resource; the derived roles
    activated on the way are returned with the decision. *)
Fixpoint resource_phase (chain : list string) (action : string)
    (input : CheckInput) : option ActionEffect * list string :=
  match chain with
  | [] => (None, [])
  | sc :: chain' =>
      let kind := r_kind (resource input) in
      let version := version_or_default (r_policyVersion (resource input)) in
      match find_resource_policy store kind version sc with
      | Some rp =>
          let active := activate (ResourcePolicy.ImportDerivedRoles rp) input in
          match first_resource_rule (ResourcePolicy.Rules rp) active action input with
          | Some e =>
              (Some {| effect := e;
                       policy := resource_policy_id kind version sc;
                       scope := sc |}, active)
          | None =>
              let rest := resource_phase chain' action input in
              (fst rest, (active ++ snd rest)%list)
          end
      | None => resource_phase chain' action input
      end
  end.

(** Modelled from the spec: the resolution order for one action: the
    principal policies, then the resource policies, then the default,
    [EFFECT_DENY] with the identifier [NO_MATCH]. *)
Definition check_action (input : CheckInput) (action : string)
    : ActionEffect * list string :=
  match principal_phase (scope_chain (p_scope (principal input))) action input with
  | Some d => (d, [])
  | None =>
      match resource_phase (scope_chain (r_scope (resource input))) action input with
      | (Some d, active) => (d, active)
      | (None, active) =>
          ({| effect := EFFECT_DENY; policy := NO_MATCH; scope := "" |}, active)
      end
  end.

(** Modelled from the spec: the engine's check, absent from the sources: the
    decision of every action of the request and the set of the derived roles
    that were activated. *)
Definition check (input : CheckInput) : CheckOutput :=
  let results := map (fun a => (a, check_action input a)) (actions input) in
  {| o_requestId := requestId input;
     o_resourceId := r_id (resource input);
     o_actions := map (fun r => (fst r, fst (snd r))) results;
     effectiveDerivedRoles :=
       remove_dups (flat_map (fun r => snd (snd r)) results) |}.

End Engine.

(** *** The test case "Donald Duck tries to view and approve a production
    leave request and a dev leave request" *)

(** The first input of the test case. *)
Definition donald_duck_dev_record : CheckInput :=
  {| requestId := "test1";
     actions := ["approve"; "view:public"];
     principal :=
       {| p_id := "donald_duck";
          p_policyVersion := "20210210";
          p_scope := "";
          p_roles := ["employee"];
          p_attr := [("department", JString "marketing");
                     ("geography", JString "GB");
                     ("team", JString "design");
                     ("managed_geographies", JString "GB")] |};
     resource :=
       {| r_kind := "leave_request";
          r_policyVersion := "20210210";
          r_id := "XX125";
          r_scope := "";
          r_attr := [("department", JString "marketing");
                     ("geography", JString "GB");
                     ("id", JString "XX125");
                     ("owner", JString "john");
                     ("team", JString "design");
                     ("status", JString "PENDING_APPROVAL");
                     ("dev_record", JBool true)] |} |}.

(** The first of the wanted outputs of the test case. *)
Definition donald_duck_dev_record_want : CheckOutput :=
  {| o_requestId := "test1";
     o_resourceId := "XX125";
     o_actions :=
       [("approve", {| effect := EFFECT_ALLOW;
                       policy := "principal.donald_duck.v20210210";
                       scope := "" |});
        ("view:public", {| effect := EFFECT_ALLOW;
                           policy := "principal.donald_duck.v20210210";
                           scope := "" |})];
     effectiveDerivedRoles := [] |}.

(** Modelled from the spec: the principal policy of [donald_duck] of scenario
    S3, which explicitly allows [approve] and [view:public] on
    [leave_request]; [c] is the condition the policy attaches to the two
    actions, if any. *)
Definition donald_duck_policy (c : option Condition) : Policy :=
  {| ApiVersion := "api.cerbos.dev/v1";
     JsonSchema := "";
     PolicyType :=
       Some (Policy_PrincipalPolicy
         {| PrincipalPolicy.Principal := "donald_duck";
            PrincipalPolicy.Version := "20210210";
            PrincipalPolicy.Scope := "";
            PrincipalPolicy.Variables := None;
            PrincipalPolicy.Rules :=
              [{| PrincipalRule.Resource := "leave_request";
                  PrincipalRule.Actions :=
                    [{| PrincipalRule_Action.Action := "approve";
                        PrincipalRule_Action.Effect := EFFECT_ALLOW;
                        PrincipalRule_Action.Condition := c;
                        PrincipalRule_Action.Output := None |};
                     {| PrincipalRule_Action.Action := "view:public";
                        PrincipalRule_Action.Effect := EFFECT_ALLOW;
                        PrincipalRule_Action.Condition := c;
                        PrincipalRule_Action.Output := None |}] |}] |}) |}.

(** A resource policy that denies every action on [leave_request] to the
    role [employee]: in the examples it stands in the store next to the
    principal policy. *)
Definition deny_leave_requests : Policy :=
  {| ApiVersion := "api.cerbos.dev/v1";
     JsonSchema := "";
     PolicyType :=
       Some (Policy_ResourcePolicy
         {| ResourcePolicy.Resource := "leave_request";
            ResourcePolicy.Version := "20210210";
            ResourcePolicy.Scope := "";
            ResourcePolicy.ImportDerivedRoles := [];
            ResourcePolicy.Variables := None;
            ResourcePolicy.Schemas := None;
            ResourcePolicy.Rules :=
              [{| ResourceRule.Actions := ["*"];
                  ResourceRule.Effect := EFFECT_DENY;
                  ResourceRule.Name := "deny-all";
                  ResourceRule.Roles := ["employee"];
                  ResourceRule.DerivedRoles := [];
                  ResourceRule.Condition := None;
                  ResourceRule.Output := None |}] |}) |}.

(** An evaluator for the examples: it knows the one expression that tests
    the attribute [dev_record] of the resource. *)
Definition eval_dev_record (expr : string) (input : CheckInput) : option bool :=
  if String.eqb expr "request.resource.attr.dev_record == true"
  then match assoc "dev_record" (r_attr (resource input)) with
       | Some (JBool b) => Some b
       | Some _ => Some false
       | None => None
       end
  else None.

End engine.

(** ** More of [client/model.go]

    What follows covers the rest of the client model: the exact answer of
    the batch accessor, the response of the CheckResources call, the
    request builders, the methods of the policy builders and the policy
    set. *)

(** *** The index that [buildIdx] computes *)
Module Index.

(** The loop of [buildIdx] over the keys of the results; a key that cannot
    be read (a nil pointer on the way to it) is [None]. *)
Fixpoint index_keys (i : nat) (keys : list (option string))
    (acc : gmap string (list nat)) : outcome (gmap string (list nat)) :=
  match keys with
  | [] => Returns acc
  | None :: _ => Panics
  | Some k :: keys' =>
      let v : list nat := default [] (acc !! k) in
      index_keys (S i) keys' (<[k := (v ++ [i])%list]> acc)
  end.

(** The positions of a key, counted from [i], in increasing order. *)
Fixpoint positions (i : nat) (keys : list (option string)) (id : string) : list nat :=
  match keys with
  | [] => []
  | k :: keys' =>
      ((if decide (k = Some id) then [i] else []) ++ positions (S i) keys' id)%list
  end.

(** The index of a list of keys: under every key that occurs, its positions
    in increasing order; no entry for a key that does not occur. *)
Definition exact (keys : list (option string)) (ix : gmap string (list nat)) : Prop :=
  forall id,
    ix !! id = match positions 0 keys id with
               | [] => None
               | ps => Some ps
               end.

End Index.

(** *** The answer of [CheckResourceBatchResponse.IsAllowed] *)
Module CheckResourceBatchAnswer.
Import CheckResourceBatch.

(** The keys that [buildIdx] reads. *)
Definition keys (rs : list (option ActionEffectMap)) : list (option string) :=
  map (option_map ResourceId) rs.

(** The effect that the first result of the resource which lists the action
    records for it. *)
Fixpoint first_listing (rs : list (option ActionEffectMap))
    (resourceID action : string) : option Effect :=
  match rs with
  | [] => None
  | None :: rs' => first_listing rs' resourceID action
  | Some r :: rs' =>
      if decide (ResourceId r = resourceID)
      then match Actions r !! action with
           | Some e => Some e
           | None => first_listing rs' resourceID action
           end
      else first_listing rs' resourceID action
  end.

(** The wrapper of message [m], with its index not built yet or exact. *)
Definition indexes (m : Response) (crbr : CheckResourceBatchResponse) : Prop :=
  embedded crbr = Some m
  /\ (once crbr = false \/ Index.exact (keys (Results m)) (idx crbr)).

End CheckResourceBatchAnswer.

(** *** [client.CheckResourcesResponse] and its [ResourceResult] *)
Module CheckResources.

(** [responsev1.CheckResourcesResponse_ResultEntry_Resource] *)
Record ResultEntry_Resource := {
  Id : string;
  Kind : string;
  PolicyVersion : string;
  Scope : string
}.

(** [schemav1.ValidationError]; [Source] is the name of the enumeration
    value. *)
Record ValidationError := {
  Path : string;
  Message : string;
  Source : string
}.

(** [MatchResource]: a function of the pointer to the resource of a result;
    the matchers of the package read a field of it, which panics on nil. *)
Definition MatchResource : Type := option ResultEntry_Resource -> outcome bool.

Definition on_resource (f : ResultEntry_Resource -> bool) : MatchResource :=
  fun r => match r with
           | None => Panics
           | Some r' => Returns (f r')
           end.

Definition MatchResourceKind (kind : string) : MatchResource :=
  on_resource (fun r => String.eqb (Kind r) kind).

Definition MatchResourceScope (scope : string) : MatchResource :=
  on_resource (fun r => String.eqb (Scope r) scope).

Definition MatchResourcePolicyVersion (version : string) : MatchResource :=
  on_resource (fun r => String.eqb (PolicyVersion r) version).

Definition MatchResourcePolicyKindScopeVersion (kind version scope : string)
    : MatchResource :=
  on_resource (fun r => String.eqb (Kind r) kind
                        && String.eqb (PolicyVersion r) version
                        && String.eqb (Scope r) scope).

(** The loop [found = found && m(r.Resource)]: a matcher is called only
    while [found] holds. *)
Fixpoint all_match (ms : list MatchResource) (found : bool)
    (r : option ResultEntry_Resource) : outcome bool :=
  match ms with
  | [] => Returns found
  | m :: ms' =>
      if found then obind (m r) (fun b => all_match ms' b r)
      else all_match ms' false r
  end.

Section CheckResources.

(** [structpb.Value] and Go's [error]. *)
Context {Value E : Type}.

(** [fmt.Errorf("resource with ID %q does not exist in the response", id)] *)
Context (not_found : string -> E).

(** [fmt.Errorf("resource %q failed validation: ...", id, source, path, msg)] *)
Context (failed_validation : string -> ValidationError -> E).

(** [multierr.Append] with a non-nil error on the right: the result is not
    nil. *)
Context (Append : option E -> E -> E).

(** [enginev1.OutputEntry] *)
Record OutputEntry := { Src : string; Val : option Value }.

(** [responsev1.CheckResourcesResponse_ResultEntry]; the message fields and
    the elements of the repeated fields are pointers. *)
Record ResultEntry := {
  Resource : option ResultEntry_Resource;
  Actions : gmap string Effect;
  ValidationErrors : list (option ValidationError);
  Outputs : list (option OutputEntry)
}.

Record Response := { Results : list (option ResultEntry) }.

Record CheckResourcesResponse := {
  embedded : option Response;
  idx : gmap string (list nat);
  once : bool
}.

Definition wrap (m : Response) : CheckResourcesResponse :=
  {| embedded := Some m; idx := ∅; once := false |}.

(** [ResourceResult]: the entry, the error, and the lazily built map of the
    outputs with its [sync.Once]. *)
Record ResourceResult := {
  entry : option ResultEntry;
  err : option E;
  outputMap : option (gmap string (option Value));
  outputOnce : bool
}.

(** [r.Resource.Id], which panics when [r] or [r.Resource] is nil. *)
Definition key (r : option ResultEntry) : option string :=
  match r with
  | Some r' => match Resource r' with
               | Some res => Some (Id res)
               | None => None
               end
  | None => None
  end.

Fixpoint index_from (i : nat) (rs : list (option ResultEntry))
    (acc : gmap string (list nat)) : outcome (gmap string (list nat)) :=
  match rs with
  | [] => Returns acc
  | r :: rs' =>
      match key r with
      | None => Panics
      | Some id =>
          let v : list nat := default [] (acc !! id) in
          index_from (S i) rs' (<[id := (v ++ [i])%list]> acc)
      end
  end.

Definition buildIdx (crr : CheckResourcesResponse) : outcome CheckResourcesResponse :=
  if once crr then Returns crr
  else
    match embedded crr with
    | None => Panics
    | Some m =>
        obind (index_from 0 (Results m) ∅) (fun ix =>
          Returns {| embedded := embedded crr; idx := ix; once := true |})
    end.

(** The loop over the indexes of [GetResource]. *)
Fixpoint find (m : option Response) (indexes : list nat)
    (ms : list MatchResource) : outcome (option ResultEntry) :=
  match indexes with
  | [] => Returns None
  | i :: rest =>
      match m with
      | None => Panics
      | Some m' =>
          match Results m' !! i with
          | None => Panics
          | Some None => find m rest ms
          | Some (Some r) =>
              obind (all_match ms true (Resource r)) (fun found =>
                if found then Returns (Some r) else find m rest ms)
          end
      end
  end.

Definition missing_resource (resourceID : string) : ResourceResult :=
  {| entry := None; err := Some (not_found resourceID);
     outputMap := None; outputOnce := false |}.

Definition found_resource (r : ResultEntry) : ResourceResult :=
  {| entry := Some r; err := None; outputMap := None; outputOnce := false |}.

(** [GetResource] returns a result, never nil, and leaves the wrapper with
    its index built. *)
Definition GetResource (crr : CheckResourcesResponse) (resourceID : string)
    (ms : list MatchResource) : outcome (ResourceResult * CheckResourcesResponse) :=
  obind (buildIdx crr) (fun crr' =>
    match idx crr' !! resourceID with
    | None => Returns (missing_resource resourceID, crr')
    | Some indexes =>
        obind (find (embedded crr') indexes ms) (fun o =>
          match o with
          | Some r => Returns (found_resource r, crr')
          | None => Returns (missing_resource resourceID, crr')
          end)
    end).

(** [ResourceResult.IsAllowed], on the result with all its fields. *)
Definition IsAllowed (rr : option ResourceResult) (action : string) : outcome bool :=
  match rr with
  | Some r =>
      match err r with
      | None =>
          match entry r with
          | None => Panics
          | Some e =>
              Returns (is_allow (default EFFECT_UNSPECIFIED (Actions e !! action)))
          end
      | Some _ => Returns false
      end
  | None => Returns false
  end.

(** The result as the model of [ResourceResult.IsAllowed] above sees it;
    [Error] is the method of Go's [error]. *)
Definition forget (Error : E -> string) (rr : ResourceResult)
    : ResourceResult.ResourceResult :=
  {| ResourceResult.embedded :=
       option_map (fun e => {| ResourceResult.Actions := Actions e |}) (entry rr);
     ResourceResult.err := option_map Error (err rr) |}.

(** The getters of the generated code accept a nil receiver. *)
Definition GetOutputs (rr : ResourceResult) : list (option OutputEntry) :=
  match entry rr with
  | Some e => Outputs e
  | None => []
  end.

Definition GetSrc (o : option OutputEntry) : string :=
  match o with Some o' => Src o' | None => "" end.

Definition GetVal (o : option OutputEntry) : option Value :=
  match o with Some o' => Val o' | None => None end.

(** [buildOutputMap]: nothing is allocated when there are no outputs;
    [rr.Outputs] reads through the embedded pointer. *)
Definition buildOutputMap (rr : ResourceResult) : outcome ResourceResult :=
  if outputOnce rr then Returns rr
  else
    match GetOutputs rr with
    | [] => Returns {| entry := entry rr; err := err rr;
                       outputMap := outputMap rr; outputOnce := true |}
    | _ :: _ =>
        match entry rr with
        | None => Panics
        | Some e =>
            Returns {| entry := entry rr; err := err rr;
                       outputMap :=
                         Some (fold_left (fun acc o => <[GetSrc o := GetVal o]> acc)
                                         (Outputs e) ∅);
                       outputOnce := true |}
        end
    end.

(** [Output]: reading a nil map or a missing key yields nil. *)
Definition Output (rr : option ResourceResult) (k : string)
    : outcome (option Value * option ResourceResult) :=
  match rr with
  | None => Returns (None, None)
  | Some r =>
      obind (buildOutputMap r) (fun r' =>
        Returns (match outputMap r' with
                 | Some mp => match mp !! k with
                              | Some v => v
                              | None => None
                              end
                 | None => None
                 end, Some r'))
  end.

(** The inner loop of [Errors]. *)
Fixpoint append_errors (r : ResultEntry) (verrs : list (option ValidationError))
    (acc : option E) : outcome (option E) :=
  match verrs with
  | [] => Returns acc
  | verr :: verrs' =>
      match Resource r, verr with
      | Some res, Some v =>
          append_errors r verrs' (Some (Append acc (failed_validation (Id res) v)))
      | _, _ => Panics
      end
  end.

Fixpoint all_errors (rs : list (option ResultEntry)) (acc : option E)
    : outcome (option E) :=
  match rs with
  | [] => Returns acc
  | None :: _ => Panics
  | Some r :: rs' =>
      obind (append_errors r (ValidationErrors r) acc) (fun acc' =>
        all_errors rs' acc')
  end.

(** [CheckResourcesResponse.Errors] *)
Definition Errors (crr : CheckResourcesResponse) : outcome (option E) :=
  match embedded crr with
  | None => Panics
  | Some m => all_errors (Results m) None
  end.

(** A message as protobuf decoding yields it: no result is nil, every result
    has its resource, no validation error is nil. *)
Definition decoded (m : Response) : Prop :=
  forall r, r ∈ Results m ->
    exists r', r = Some r' /\ is_Some (Resource r') /\ None ∉ ValidationErrors r'.

(** The first result of the resource that all the predicates accept. *)
Fixpoint first_match (rs : list (option ResultEntry)) (resourceID : string)
    (ps : list (ResultEntry_Resource -> bool)) : option ResultEntry :=
  match rs with
  | [] => None
  | r :: rs' =>
      match r with
      | Some r' =>
          match Resource r' with
          | Some res =>
              if String.eqb (Id res) resourceID && forallb (fun p => p res) ps
              then Some r'
              else first_match rs' resourceID ps
          | None => first_match rs' resourceID ps
          end
      | None => first_match rs' resourceID ps
      end
  end.

(** What [GetResource] is to return. *)
Definition lookup_result (m : Response) (resourceID : string)
    (ps : list (ResultEntry_Resource -> bool)) : ResourceResult :=
  match first_match (Results m) resourceID ps with
  | Some r => found_resource r
  | None => missing_resource resourceID
  end.

(** The wrapper of message [m], with its index not built yet or exact. *)
Definition indexes (m : Response) (crr : CheckResourcesResponse) : Prop :=
  embedded crr = Some m
  /\ (once crr = false \/ Index.exact (map key (Results m)) (idx crr)).

(** A result whose map of outputs has not been built: what [GetResource]
    returns. *)
Definition fresh (rr : ResourceResult) : Prop :=
  outputOnce rr = false /\ outputMap rr = None.

(** The value of the last output whose source is [k]. *)
Definition last_output (outs : list (option OutputEntry)) (k : string)
    : option Value :=
  match last (filter (fun o => GetSrc o = k) outs) with
  | Some o => GetVal o
  | None => None
  end.

End CheckResources.

End CheckResources.

(** *** The request builders: [Principal], [Resource], [ResourceSet],
    [ResourceBatch] *)
Module enginev1.

(** [enginev1.Principal]; a nil map of attributes is [None]. *)
Module Principal.
Record t (Value : Type) := {
  Id : string;
  PolicyVersion : string;
  Scope : string;
  Roles : list string;
  Attr : option (gmap string Value)
}.
Arguments Id {Value} _.
Arguments PolicyVersion {Value} _.
Arguments Scope {Value} _.
Arguments Roles {Value} _.
Arguments Attr {Value} _.
End Principal.

(** [enginev1.Resource] *)
Module Resource.
Record t (Value : Type) := {
  Kind : string;
  Id : string;
  PolicyVersion : string;
  Scope : string;
  Attr : option (gmap string Value)
}.
Arguments Kind {Value} _.
Arguments Id {Value} _.
Arguments PolicyVersion {Value} _.
Arguments Scope {Value} _.
Arguments Attr {Value} _.
End Resource.

End enginev1.

Module requests.

Section Requests.

(** Go's [any], [structpb.Value] and [error]. *)
Context {any Value E : Type}.

(** [util.ToStructPB] and [structpb.NewValue]: a value or an error. *)
Context (ToStructPB : any -> E + Value).
Context (NewValue : any -> E + Value).

(** [fmt.Errorf("invalid attribute value for '%s': %w", k, err)] *)
Context (invalid_attribute : string -> E -> E).

(** [fmt.Errorf("invalid resource '%s': %w", id, err)] *)
Context (invalid_resource : string -> E -> E).

(** [errors.New("empty batch")] *)
Context (empty_batch : E).

(** [multierr.Append] with a non-nil error on the right: the result is not
    nil. *)
Context (Append : option E -> E -> E).

(** The [Validate] methods of the generated messages. *)
Context (Validate_principal : enginev1.Principal.t Value -> option E).
Context (Validate_resource : enginev1.Resource.t Value -> option E).

(** What a conversion yields when it succeeds. *)
Definition converted (conv : any -> E + Value) (v : any) : option Value :=
  match conv v with
  | inr pb => Some pb
  | inl _ => None
  end.

(** The body of the loops [for k, v := range attr]: a value that cannot be
    converted adds an error and is skipped, any other is stored under its
    key. The state is the map being filled and the accumulated error. *)
Definition range_step (conv : any -> E + Value)
    (st : gmap string Value * option E) (kv : string * any)
    : gmap string Value * option E :=
  match conv (snd kv) with
  | inl e => (fst st, Some (Append (snd st) (invalid_attribute (fst kv) e)))
  | inr pb => (<[fst kv := pb]> (fst st), snd st)
  end.

(** The loop, visiting the entries of the Go map in the order [kvs]. *)
Definition range_attr (conv : any -> E + Value) (kvs : list (string * any))
    (st : gmap string Value * option E) : gmap string Value * option E :=
  fold_left (range_step conv) kvs st.

(** [Principal]: the message and the accumulated error. *)
Record Principal := { p : enginev1.Principal.t Value; p_err : option E }.

Definition NewPrincipal (id : string) (roles : list string) : Principal :=
  {| p := {| enginev1.Principal.Id := id;
             enginev1.Principal.PolicyVersion := "";
             enginev1.Principal.Scope := "";
             enginev1.Principal.Roles := roles;
             enginev1.Principal.Attr := None |};
     p_err := None |}.

Definition Principal_with_attr (attr : option (gmap string Value))
    (err : option E) (pr : Principal) : Principal :=
  {| p := {| enginev1.Principal.Id := enginev1.Principal.Id (p pr);
             enginev1.Principal.PolicyVersion := enginev1.Principal.PolicyVersion (p pr);
             enginev1.Principal.Scope := enginev1.Principal.Scope (p pr);
             enginev1.Principal.Roles := enginev1.Principal.Roles (p pr);
             enginev1.Principal.Attr := attr |};
     p_err := err |}.

Definition Principal_WithPolicyVersion (policyVersion : string) (pr : Principal)
    : Principal :=
  {| p := {| enginev1.Principal.Id := enginev1.Principal.Id (p pr);
             enginev1.Principal.PolicyVersion := policyVersion;
             enginev1.Principal.Scope := enginev1.Principal.Scope (p pr);
             enginev1.Principal.Roles := enginev1.Principal.Roles (p pr);
             enginev1.Principal.Attr := enginev1.Principal.Attr (p pr) |};
     p_err := p_err pr |}.

Definition Principal_WithRoles (roles : list string) (pr : Principal) : Principal :=
  {| p := {| enginev1.Principal.Id := enginev1.Principal.Id (p pr);
             enginev1.Principal.PolicyVersion := enginev1.Principal.PolicyVersion (p pr);
             enginev1.Principal.Scope := enginev1.Principal.Scope (p pr);
             enginev1.Principal.Roles := (enginev1.Principal.Roles (p pr) ++ roles)%list;
             enginev1.Principal.Attr := enginev1.Principal.Attr (p pr) |};
     p_err := p_err pr |}.

Definition Principal_WithScope (scope : string) (pr : Principal) : Principal :=
  {| p := {| enginev1.Principal.Id := enginev1.Principal.Id (p pr);
             enginev1.Principal.PolicyVersion := enginev1.Principal.PolicyVersion (p pr);
             enginev1.Principal.Scope := scope;
             enginev1.Principal.Roles := enginev1.Principal.Roles (p pr);
             enginev1.Principal.Attr := enginev1.Principal.Attr (p pr) |};
     p_err := p_err pr |}.

(** [WithAttributes], the entries of [attr] being visited in the order
    [kvs]; the map is allocated first when it is nil. *)
Definition Principal_WithAttributes (kvs : list (string * any)) (pr : Principal)
    : Principal :=
  let st := range_attr ToStructPB kvs
              (default ∅ (enginev1.Principal.Attr (p pr)), p_err pr) in
  Principal_with_attr (Some (fst st)) (snd st) pr.

Definition Principal_WithAttr (k : string) (value : any) (pr : Principal)
    : Principal :=
  let attr := default ∅ (enginev1.Principal.Attr (p pr)) in
  match ToStructPB value with
  | inl e =>
      Principal_with_attr (Some attr)
        (Some (Append (p_err pr) (invalid_attribute k e))) pr
  | inr pbVal => Principal_with_attr (Some (<[k := pbVal]> attr)) (p_err pr) pr
  end.

Definition Principal_Validate (pr : Principal) : option E :=
  match p_err pr with
  | Some e => Some e
  | None => Validate_principal (p pr)
  end.

(** The attributes of a principal, a nil map being read as empty. *)
Definition Principal_attrs (pr : Principal) : gmap string Value :=
  default ∅ (enginev1.Principal.Attr (p pr)).

(** [Resource]: the message and the accumulated error. *)
Record Resource := { r : enginev1.Resource.t Value; r_err : option E }.

Definition NewResource (kind id : string) : Resource :=
  {| r := {| enginev1.Resource.Kind := kind;
             enginev1.Resource.Id := id;
             enginev1.Resource.PolicyVersion := "";
             enginev1.Resource.Scope := "";
             enginev1.Resource.Attr := None |};
     r_err := None |}.

Definition Resource_with_attr (attr : option (gmap string Value))
    (err : option E) (res : Resource) : Resource :=
  {| r := {| enginev1.Resource.Kind := enginev1.Resource.Kind (r res);
             enginev1.Resource.Id := enginev1.Resource.Id (r res);
             enginev1.Resource.PolicyVersion := enginev1.Resource.PolicyVersion (r res);
             enginev1.Resource.Scope := enginev1.Resource.Scope (r res);
             enginev1.Resource.Attr := attr |};
     r_err := err |}.

Definition Resource_WithPolicyVersion (policyVersion : string) (res : Resource)
    : Resource :=
  {| r := {| enginev1.Resource.Kind := enginev1.Resource.Kind (r res);
             enginev1.Resource.Id := enginev1.Resource.Id (r res);
             enginev1.Resource.PolicyVersion := policyVersion;
             enginev1.Resource.Scope := enginev1.Resource.Scope (r res);
             enginev1.Resource.Attr := enginev1.Resource.Attr (r res) |};
     r_err := r_err res |}.

Definition Resource_WithScope (scope : string) (res : Resource) : Resource :=
  {| r := {| enginev1.Resource.Kind := enginev1.Resource.Kind (r res);
             enginev1.Resource.Id := enginev1.Resource.Id (r res);
             enginev1.Resource.PolicyVersion := enginev1.Resource.PolicyVersion (r res);
             enginev1.Resource.Scope := scope;
             enginev1.Resource.Attr := enginev1.Resource.Attr (r res) |};
     r_err := r_err res |}.

Definition Resource_WithAttributes (kvs : list (string * any)) (res : Resource)
    : Resource :=
  let st := range_attr ToStructPB kvs
              (default ∅ (enginev1.Resource.Attr (r res)), r_err res) in
  Resource_with_attr (Some (fst st)) (snd st) res.

Definition Resource_WithAttr (k : string) (value : any) (res : Resource)
    : Resource :=
  let attr := default ∅ (enginev1.Resource.Attr (r res)) in
  match ToStructPB value with
  | inl e =>
      Resource_with_attr (Some attr)
        (Some (Append (r_err res) (invalid_attribute k e))) res
  | inr pbVal => Resource_with_attr (Some (<[k := pbVal]> attr)) (r_err res) res
  end.

Definition Resource_Validate (res : Resource) : option E :=
  match r_err res with
  | Some e => Some e
  | None => Validate_resource (r res)
  end.

Definition Resource_attrs (res : Resource) : gmap string Value :=
  default ∅ (enginev1.Resource.Attr (r res)).

(** [requestv1.ResourceSet]: the instances, each the map of its attributes;
    a nil map of instances is [None]. *)
Record ResourceSet_pb := {
  rs_Kind : string;
  rs_PolicyVersion : string;
  Instances : option (gmap string (gmap string Value))
}.

Record ResourceSet := { rs : ResourceSet_pb; rs_err : option E }.

Definition NewResourceSet (kind : string) : ResourceSet :=
  {| rs := {| rs_Kind := kind; rs_PolicyVersion := ""; Instances := None |};
     rs_err := None |}.

(** [AddResourceInstance], the entries of [attr] being visited in the order
    [kvs]: the attributes are collected in a new map, which becomes the
    instance. *)
Definition AddResourceInstance (id : string) (kvs : list (string * any))
    (s : ResourceSet) : ResourceSet :=
  let instances := default ∅ (Instances (rs s)) in
  let st := range_attr NewValue kvs (∅, rs_err s) in
  {| rs := {| rs_Kind := rs_Kind (rs s);
              rs_PolicyVersion := rs_PolicyVersion (rs s);
              Instances := Some (<[id := fst st]> instances) |};
     rs_err := snd st |}.

(** The instances of a set, a nil map being read as empty. *)
Definition instances (s : ResourceSet) : gmap string (gmap string Value) :=
  default ∅ (Instances (rs s)).

(** [requestv1.CheckResourcesRequest_ResourceEntry] *)
Record ResourceEntry := {
  Actions : list string;
  entry_Resource : enginev1.Resource.t Value
}.

(** [ResourceEntry.Validate] *)
Context (Validate_entry : ResourceEntry -> option E).

Record ResourceBatch := { rb_err : option E; batch : list ResourceEntry }.

Definition NewResourceBatch : ResourceBatch := {| rb_err := None; batch := [] |}.

(** [Add]; the resource is a pointer to a builder and may be nil. *)
Definition Add (resource : option Resource) (actions : list string)
    (rb : ResourceBatch) : ResourceBatch :=
  match resource, actions with
  | None, _ => rb
  | _, [] => rb
  | Some res, _ :: _ =>
      let entry := {| Actions := actions; entry_Resource := r res |} in
      match Validate_entry entry with
      | Some e =>
          {| rb_err := Some (Append (rb_err rb)
                               (invalid_resource (enginev1.Resource.Id (r res)) e));
             batch := batch rb |}
      | None => {| rb_err := rb_err rb; batch := (batch rb ++ [entry])%list |}
      end
  end.

(** The loop of [ResourceBatch.Validate]. *)
Fixpoint validate_entries (es : list ResourceEntry) (errList : option E)
    : option E :=
  match es with
  | [] => errList
  | entry :: es' =>
      match Validate_entry entry with
      | Some e => validate_entries es' (Some (Append errList e))
      | None => validate_entries es' errList
      end
  end.

Definition ResourceBatch_Validate (rb : ResourceBatch) : option E :=
  match rb_err rb with
  | Some e => Some e
  | None =>
      match batch rb with
      | [] => Some empty_batch
      | _ :: _ => validate_entries (batch rb) None
      end
  end.

(** The calls of the methods of a [Principal] that change it. *)
Inductive PrincipalCall : Type :=
  | CallWithPolicyVersion (policyVersion : string)
  | CallWithRoles (roles : list string)
  | CallWithScope (scope : string)
  | CallWithAttributes (kvs : list (string * any))
  | CallWithAttr (k : string) (value : any).

Definition Principal_call (pr : Principal) (c : PrincipalCall) : Principal :=
  match c with
  | CallWithPolicyVersion v => Principal_WithPolicyVersion v pr
  | CallWithRoles roles => Principal_WithRoles roles pr
  | CallWithScope sc => Principal_WithScope sc pr
  | CallWithAttributes kvs => Principal_WithAttributes kvs pr
  | CallWithAttr k v => Principal_WithAttr k v pr
  end.

(** A chain of calls. *)
Definition Principal_calls (cs : list PrincipalCall) (pr : Principal) : Principal :=
  fold_left Principal_call cs pr.

(** The call hands over a value that cannot be converted. *)
Definition unconvertible (c : PrincipalCall) : Prop :=
  match c with
  | CallWithAttributes kvs =>
      Exists (fun kv => converted ToStructPB (snd kv) = None) kvs
  | CallWithAttr _ v => converted ToStructPB v = None
  | _ => False
  end.

(** A sequence of calls of [Add]: each with its resource and its actions. *)
Definition Adds (adds : list (option Resource * list string)) (rb : ResourceBatch)
    : ResourceBatch :=
  fold_left (fun rb a => Add (fst a) (snd a) rb) adds rb.

(** The entry that a call of [Add] is about, if any: none for a nil resource
    or an empty list of actions. *)
Definition entry_of (a : option Resource * list string) : option ResourceEntry :=
  match a with
  | (Some res, (_ :: _) as actions) =>
      Some {| Actions := actions; entry_Resource := r res |}
  | _ => None
  end.

End Requests.

End requests.

(** *** The methods of the policy builders and the policy set *)
Module builders.
Import policyv1.

(** [Schema], the builder of [Schemas_Schema]: [s] is a pointer, nil in
    the zero value of the builder. *)
Record Schema := { s : option Schemas_Schema.t }.

Definition WithRef (ref : string) (sch : Schema) : outcome Schema :=
  match s sch with
  | None => Panics
  | Some m =>
      Returns {| s := Some {| Schemas_Schema.Ref := ref;
                              Schemas_Schema.IgnoreWhen :=
                                Schemas_Schema.IgnoreWhen m |} |}
  end.

Definition NewSchema (ref : string) : outcome Schema :=
  WithRef ref {| s := Some {| Schemas_Schema.Ref := "";
                              Schemas_Schema.IgnoreWhen := Some [] |} |}.

Definition AddIgnoredActions (actions : list string) (sch : Schema) : outcome Schema :=
  match s sch with
  | None => Panics
  | Some m =>
      match Schemas_Schema.IgnoreWhen m with
      | None => Panics
      | Some old =>
          Returns {| s := Some {| Schemas_Schema.Ref := Schemas_Schema.Ref m;
                                  Schemas_Schema.IgnoreWhen :=
                                    Some (old ++ actions)%list |} |}
      end
  end.

Definition Schema_build (sch : Schema) : option Schemas_Schema.t := s sch.

(** [ResourceRule], the builder of a rule; both constructors allocate the
    rule. *)
Record ResourceRule := { rule : ResourceRule.t }.

Definition NewAllowResourceRule (actions : list string) : ResourceRule :=
  {| rule := {| ResourceRule.Actions := actions;
                ResourceRule.Effect := EFFECT_ALLOW;
                ResourceRule.Name := "";
                ResourceRule.Roles := [];
                ResourceRule.DerivedRoles := [];
                ResourceRule.Condition := None;
                ResourceRule.Output := None |} |}.

Definition NewDenyResourceRule (actions : list string) : ResourceRule :=
  {| rule := {| ResourceRule.Actions := actions;
                ResourceRule.Effect := EFFECT_DENY;
                ResourceRule.Name := "";
                ResourceRule.Roles := [];
                ResourceRule.DerivedRoles := [];
                ResourceRule.Condition := None;
                ResourceRule.Output := None |} |}.

(** The resource policy with some of its fields replaced. *)
Definition set_resource_policy (rp : ResourcePolicy.t) (scope : string)
    (imports : list string) (variables : option Variables.t)
    (schemas : option Schemas.t) (rules : list ResourceRule.t) : ResourcePolicy.t :=
  {| ResourcePolicy.Resource := ResourcePolicy.Resource rp;
     ResourcePolicy.Version := ResourcePolicy.Version rp;
     ResourcePolicy.Scope := scope;
     ResourcePolicy.ImportDerivedRoles := imports;
     ResourcePolicy.Variables := variables;
     ResourcePolicy.Schemas := schemas;
     ResourcePolicy.Rules := rules |}.

Section Builders.

Context {E : Type}.

(** [policy.Validate] and the [Validate] method of the generated rule. *)
Context (Validate : Policy -> option E).
Context (Validate_rule : ResourceRule.t -> option E).

(** [fmt.Errorf("invalid rule: %w", err)] *)
Context (invalid_rule : E -> E).

(** [fmt.Errorf("failed to add ... [...]: %w", ..., err)], for each of the
    four kinds of builder. *)
Context (failed_to_add : client.Builder (E := E) -> E -> E).

(** [errors.New("empty policy set")] *)
Context (empty_policy_set : E).

(** [multierr.Append] with a non-nil error on the right: the result is not
    nil. *)
Context (Append : option E -> E -> E).

(** The builder with its message or its error replaced. *)
Definition with_p (f : ResourcePolicy.t -> ResourcePolicy.t)
    (rp : client.ResourcePolicy (E := E)) : client.ResourcePolicy :=
  {| client.p := f (client.p rp); client.rp_err := client.rp_err rp |}.

Definition WithDerivedRolesImports (imp : list string)
    (rp : client.ResourcePolicy (E := E)) : client.ResourcePolicy :=
  with_p (fun m =>
    set_resource_policy m (ResourcePolicy.Scope m)
      (ResourcePolicy.ImportDerivedRoles m ++ imp)%list
      (ResourcePolicy.Variables m) (ResourcePolicy.Schemas m)
      (ResourcePolicy.Rules m)) rp.

Definition WithScope (scope : string) (rp : client.ResourcePolicy (E := E))
    : client.ResourcePolicy :=
  with_p (fun m =>
    set_resource_policy m scope (ResourcePolicy.ImportDerivedRoles m)
      (ResourcePolicy.Variables m) (ResourcePolicy.Schemas m)
      (ResourcePolicy.Rules m)) rp.

(** [rp.p.Schemas.PrincipalSchema = principalSchema.build()]: the builder of
    the schema and the [Schemas] of the policy are pointers, and neither is
    checked. *)
Definition WithPrincipalSchema (principalSchema : option Schema)
    (rp : client.ResourcePolicy (E := E)) : outcome client.ResourcePolicy :=
  match principalSchema, ResourcePolicy.Schemas (client.p rp) with
  | Some sch, Some schemas =>
      Returns (with_p (fun m =>
        set_resource_policy m (ResourcePolicy.Scope m)
          (ResourcePolicy.ImportDerivedRoles m) (ResourcePolicy.Variables m)
          (Some {| Schemas.PrincipalSchema := Schema_build sch;
                   Schemas.ResourceSchema := Schemas.ResourceSchema schemas |})
          (ResourcePolicy.Rules m)) rp)
  | _, _ => Panics
  end.

Definition WithResourceSchema (resourceSchema : option Schema)
    (rp : client.ResourcePolicy (E := E)) : outcome client.ResourcePolicy :=
  match resourceSchema, ResourcePolicy.Schemas (client.p rp) with
  | Some sch, Some schemas =>
      Returns (with_p (fun m =>
        set_resource_policy m (ResourcePolicy.Scope m)
          (ResourcePolicy.ImportDerivedRoles m) (ResourcePolicy.Variables m)
          (Some {| Schemas.PrincipalSchema := Schemas.PrincipalSchema schemas;
                   Schemas.ResourceSchema := Schema_build sch |})
          (ResourcePolicy.Rules m)) rp)
  | _, _ => Panics
  end.

(** The body of the loop of [AddResourceRules]: a nil rule is skipped, a
    rule that fails its validation adds an error, any other is appended. *)
Definition add_rule (rp : client.ResourcePolicy (E := E))
    (r : option ResourceRule) : client.ResourcePolicy :=
  match r with
  | None => rp
  | Some rr =>
      match Validate_rule (rule rr) with
      | Some e =>
          {| client.p := client.p rp;
             client.rp_err := Some (Append (client.rp_err rp) (invalid_rule e)) |}
      | None =>
          with_p (fun m =>
            set_resource_policy m (ResourcePolicy.Scope m)
              (ResourcePolicy.ImportDerivedRoles m) (ResourcePolicy.Variables m)
              (ResourcePolicy.Schemas m)
              (ResourcePolicy.Rules m ++ [rule rr])%list) rp
      end
  end.

Definition AddResourceRules (rules : list (option ResourceRule))
    (rp : client.ResourcePolicy (E := E)) : client.ResourcePolicy :=
  fold_left add_rule rules rp.

(** [rp.p.Variables.Import = append(...)]: [Variables] is a pointer. *)
Definition WithVariablesImports (names : list string)
    (rp : client.ResourcePolicy (E := E)) : outcome client.ResourcePolicy :=
  match ResourcePolicy.Variables (client.p rp) with
  | None => Panics
  | Some v =>
      Returns (with_p (fun m =>
        set_resource_policy m (ResourcePolicy.Scope m)
          (ResourcePolicy.ImportDerivedRoles m)
          (Some {| Variables.Import := (Variables.Import v ++ names)%list;
                   Variables.Local := Variables.Local v |})
          (ResourcePolicy.Schemas m) (ResourcePolicy.Rules m)) rp)
  end.

(** [rp.p.Variables.Local[name] = expr] *)
Definition WithVariable (name expr : string)
    (rp : client.ResourcePolicy (E := E)) : outcome client.ResourcePolicy :=
  match ResourcePolicy.Variables (client.p rp) with
  | None => Panics
  | Some v =>
      Returns (with_p (fun m =>
        set_resource_policy m (ResourcePolicy.Scope m)
          (ResourcePolicy.ImportDerivedRoles m)
          (Some {| Variables.Import := Variables.Import v;
                   Variables.Local := <[name := expr]> (Variables.Local v) |})
          (ResourcePolicy.Schemas m) (ResourcePolicy.Rules m)) rp)
  end.

(** The calls of the methods of a resource-policy builder that change it. *)
Inductive ResourcePolicyCall : Type :=
  | CallWithDerivedRolesImports (imp : list string)
  | CallWithScope (scope : string)
  | CallWithPrincipalSchema (principalSchema : option Schema)
  | CallWithResourceSchema (resourceSchema : option Schema)
  | CallAddResourceRules (rules : list (option ResourceRule))
  | CallWithVariablesImports (names : list string)
  | CallWithVariable (name expr : string).

Definition ResourcePolicy_call (rp : client.ResourcePolicy (E := E))
    (c : ResourcePolicyCall) : outcome client.ResourcePolicy :=
  match c with
  | CallWithDerivedRolesImports imp => Returns (WithDerivedRolesImports imp rp)
  | CallWithScope sc => Returns (WithScope sc rp)
  | CallWithPrincipalSchema sch => WithPrincipalSchema sch rp
  | CallWithResourceSchema sch => WithResourceSchema sch rp
  | CallAddResourceRules rules => Returns (AddResourceRules rules rp)
  | CallWithVariablesImports names => WithVariablesImports names rp
  | CallWithVariable name expr => WithVariable name expr rp
  end.

(** A chain of calls; a panic ends it. *)
Fixpoint ResourcePolicy_calls (cs : list ResourcePolicyCall)
    (rp : client.ResourcePolicy (E := E)) : outcome client.ResourcePolicy :=
  match cs with
  | [] => Returns rp
  | c :: cs' => obind (ResourcePolicy_call rp c) (ResourcePolicy_calls cs')
  end.

(** The call sets a schema. *)
Definition sets_schema (c : ResourcePolicyCall) : Prop :=
  match c with
  | CallWithPrincipalSchema _ | CallWithResourceSchema _ => True
  | _ => False
  end.

(** The rules that a call of [AddResourceRules] was given, the nil ones
    left out. *)
Definition given (rules : list (option ResourceRule)) : list ResourceRule.t :=
  omap (option_map rule) rules.

Definition valid_rule (r : ResourceRule.t) : bool :=
  match Validate_rule r with None => true | Some _ => false end.

(** Everything but the rules of the second policy is as in the first. *)
Definition unchanged_but_rules (m m' : ResourcePolicy.t) : Prop :=
  ResourcePolicy.Resource m' = ResourcePolicy.Resource m /\
  ResourcePolicy.Version m' = ResourcePolicy.Version m /\
  ResourcePolicy.Scope m' = ResourcePolicy.Scope m /\
  ResourcePolicy.ImportDerivedRoles m' = ResourcePolicy.ImportDerivedRoles m /\
  ResourcePolicy.Variables m' = ResourcePolicy.Variables m /\
  ResourcePolicy.Schemas m' = ResourcePolicy.Schemas m.

(** What the methods other than the two schema setters keep of a builder:
    its [Schemas] stay nil and its [Variables] allocated. *)
Definition as_new (rp : client.ResourcePolicy (E := E)) : Prop :=
  ResourcePolicy.Schemas (client.p rp) = None /\
  is_Some (ResourcePolicy.Variables (client.p rp)).

(** [PolicySet]: the accumulated error and the policies. *)
Record PolicySet := { ps_err : option E; policies : list Policy }.

Definition NewPolicySet : PolicySet := {| ps_err := None; policies := [] |}.

Definition AddPolicies (ps : PolicySet) (new : list Policy) : PolicySet :=
  {| ps_err := ps_err ps; policies := (policies ps ++ new)%list |}.

(** [add]: the policy is appended when [build] returns no error. The policy
    holds the pointer to the message of the builder; here it is the message
    as it is at the call, which is what the set shows as long as the builder
    is left alone afterwards. The module [shared] below keeps the pointer. *)
Definition add (ps : PolicySet) (b : client.Builder) : PolicySet * option E :=
  match client.build Validate b with
  | (_, Some e) => (ps, Some e)
  | (p, None) =>
      ({| ps_err := ps_err ps; policies := (policies ps ++ [p])%list |}, None)
  end.

(** The body of the loops of [AddResourcePolicies], [AddPrincipalPolicies],
    [AddDerivedRoles] and [AddExportVariables]: a nil builder is skipped, an
    error of [add] is recorded. *)
Definition add_builder (ps : PolicySet) (b : option client.Builder) : PolicySet :=
  match b with
  | None => ps
  | Some b' =>
      match add ps b' with
      | (ps', Some e) =>
          {| ps_err := Some (Append (ps_err ps') (failed_to_add b' e));
             policies := policies ps' |}
      | (ps', None) => ps'
      end
  end.

Definition AddResourcePolicies (bs : list (option (client.ResourcePolicy (E := E))))
    (ps : PolicySet) : PolicySet :=
  fold_left add_builder (map (option_map client.OfResourcePolicy) bs) ps.

Definition GetPolicies (ps : PolicySet) : list Policy := policies ps.

Definition Size (ps : PolicySet) : nat := length (policies ps).

Definition PolicySet_Validate (ps : PolicySet) : option E :=
  match ps_err ps with
  | Some e => Some e
  | None =>
      match policies ps with
      | [] => Some empty_policy_set
      | _ :: _ => None
      end
  end.

End Builders.

End builders.

(** *** The policy set and the builders whose messages it points to *)
Module shared.
Import policyv1.

(** The message of a builder, as the one-of of a policy holds it. *)
Definition message_of {E} (b : client.Builder (E := E)) : isPolicy_PolicyType :=
  match b with
  | client.OfResourcePolicy b' => Policy_ResourcePolicy (client.p b')
  | client.OfPrincipalPolicy b' => Policy_PrincipalPolicy (client.pp b')
  | client.OfDerivedRoles b' => Policy_DerivedRoles (client.dr b')
  | client.OfExportVariables b' => Policy_ExportVariables (client.ev b')
  end.

(** A method of [ResourcePolicy], called through the pointer to a builder. *)
Definition on_ResourcePolicy {E}
    (f : client.ResourcePolicy (E := E) -> client.ResourcePolicy (E := E))
    (b : client.Builder (E := E)) : client.Builder (E := E) :=
  match b with
  | client.OfResourcePolicy rp => client.OfResourcePolicy (f rp)
  | _ => b
  end.

Section Shared.

Context {E : Type}.

(** [policy.Validate] *)
Context (Validate : Policy -> option E).

(** [fmt.Errorf("failed to add ... [...]: %w", ..., err)] *)
Context (failed_to_add : client.Builder (E := E) -> E -> E).

(** [errors.New("empty policy set")] *)
Context (empty_policy_set : E).

(** [multierr.Append] with a non-nil error on the right. *)
Context (Append : option E -> E -> E).

(** The builders of a program, by address. The constructor of a builder
    allocates its message and no method replaces it, so the address of the
    builder stands for the address of its message as well. *)
Definition heap : Type := list (client.Builder (E := E)).

(** [policyv1.Policy] as [build] makes it: a new message, whose one-of holds
    the pointer to the message of the builder ([ResourcePolicy: rp.p]). *)
Record PolicyPtr := { ApiVersion : string; message : nat }.

(** What a policy reads as, through its pointer, when the heap is [h]. *)
Definition read (h : heap) (p : PolicyPtr) : option Policy :=
  match h !! message p with
  | Some b =>
      Some {| policyv1.ApiVersion := ApiVersion p;
              PolicyType := Some (message_of b);
              JsonSchema := "" |}
  | None => None
  end.

(** [build], on the builder at address [l]: [policy.Validate] reads the
    message as it is now. A pointer to no builder is dereferenced. *)
Definition build (h : heap) (l : nat) : outcome (PolicyPtr * option E) :=
  let policy := {| ApiVersion := client.apiVersion; message := l |} in
  match read h policy with
  | Some now => Returns (policy, Validate now)
  | None => Panics
  end.

(** [PolicySet]: the accumulated error and the pointers to the policies. *)
Record PolicySet := { err : option E; policies : list PolicyPtr }.

Definition NewPolicySet : PolicySet := {| err := None; policies := [] |}.

(** [add]: the policy is appended when [build] returns no error. *)
Definition add (h : heap) (ps : PolicySet) (l : nat)
    : outcome (PolicySet * option E) :=
  obind (build h l) (fun built =>
    match snd built with
    | Some e => Returns (ps, Some e)
    | None =>
        Returns ({| err := err ps;
                    policies := (policies ps ++ [fst built])%list |}, None)
    end).

(** The loop of [AddResourcePolicies], [AddPrincipalPolicies],
    [AddDerivedRoles] and [AddExportVariables], which have the same body and
    differ in the type of the builders and in the text of the error: a nil
    pointer is skipped, an error of [add] is recorded with the fields of the
    builder as they are now. *)
Fixpoint add_all (h : heap) (ls : list (option nat)) (ps : PolicySet)
    : outcome PolicySet :=
  match ls with
  | [] => Returns ps
  | None :: ls' => add_all h ls' ps
  | Some l :: ls' =>
      obind (add h ps l) (fun added =>
        match snd added, h !! l with
        | None, _ => add_all h ls' (fst added)
        | Some e, Some b =>
            add_all h ls'
              {| err := Some (Append (err (fst added)) (failed_to_add b e));
                 policies := policies (fst added) |}
        | Some _, None => Panics
        end)
  end.

(** [GetPolicies]: the policies, read through their pointers. *)
Definition GetPolicies (h : heap) (ps : PolicySet) : list (option Policy) :=
  map (read h) (policies ps).

Definition PolicySet_Validate (ps : PolicySet) : option E :=
  match err ps with
  | Some e => Some e
  | None =>
      match policies ps with
      | [] => Some empty_policy_set
      | _ :: _ => None
      end
  end.

(** What a program does with its builders and its policy set: it calls a
    method on the builder at an address, which changes the builder in place
    ([method] is what the call does to it), or it hands pointers to builders
    to one of the four methods above. *)
Inductive op : Type :=
  | Call (l : nat) (method : client.Builder (E := E) -> client.Builder (E := E))
  | Add (ls : list (option nat)).

Definition step (st : heap * PolicySet) (o : op) : outcome (heap * PolicySet) :=
  match o with
  | Call l method =>
      match fst st !! l with
      | Some b => Returns (<[l := method b]> (fst st), snd st)
      | None => Panics
      end
  | Add ls => obind (add_all (fst st) ls (snd st)) (fun ps => Returns (fst st, ps))
  end.

Fixpoint run (ops : list op) (st : heap * PolicySet) : outcome (heap * PolicySet) :=
  match ops with
  | [] => Returns st
  | o :: ops' => obind (step st o) (run ops')
  end.

(** The builder at [l] after the call of a method. *)
Definition called (h : heap) (l : nat)
    (method : client.Builder (E := E) -> client.Builder (E := E)) : heap :=
  match h !! l with
  | Some b => <[l := method b]> h
  | None => h
  end.

(** The builders after all the method calls of a program. *)
Fixpoint heap_after (ops : list op) (h : heap) : heap :=
  match ops with
  | [] => h
  | Call l method :: ops' => heap_after ops' (called h l method)
  | Add _ :: ops' => heap_after ops' h
  end.

(** The builders that a program hands over, in order and nil pointers left
    out: each with its address and as it is at the moment of the call. *)
Fixpoint handed_over (ops : list op) (h : heap)
    : list (nat * client.Builder (E := E)) :=
  match ops with
  | [] => []
  | Call l method :: ops' => handed_over ops' (called h l method)
  | Add ls :: ops' =>
      (omap (fun o : option nat =>
               match o with
               | Some l => option_map (fun b => (l, b)) (h !! l)
               | None => None
               end) ls
       ++ handed_over ops' h)%list
  end.

(** [build] of the builder returned no error when it was handed over. *)
Definition built (lb : nat * client.Builder (E := E)) : bool :=
  match snd (client.build Validate (snd lb)) with
  | None => true
  | Some _ => false
  end.

(** The policy that points to the message of the builder handed over. *)
Definition pointer (lb : nat * client.Builder (E := E)) : PolicyPtr :=
  {| ApiVersion := client.apiVersion; message := fst lb |}.

(** Every pointer of the program is a pointer to one of its [n] builders. *)
Definition addressed (n : nat) (o : op) : Prop :=
  match o with
  | Call l _ => l < n
  | Add ls => Forall (fun o => match o with Some l => l < n | None => True end) ls
  end.

End Shared.

End shared.

(** *** The other definitions of [ResourceRule.schema.json] and the
    patterns of [Principal.schema.json] *)
Module RuleSchema.
Import Regex JSONSchema.

(** [definitions]: [cerbos.policy.v1.Condition]. *)
Definition Condition_schema : schema :=
  Schema
    [ AllOf
        [ Schema [ Type_ TObject;
                   AdditionalProperties false;
                   Properties
                     [("match", Ref "cerbos.policy.v1.Match");
                      ("script", Schema [Type_ TString])] ];
          Schema [ OneOf
                     [ Schema [Type_ TObject; Required ["match"]];
                       Schema [Type_ TObject; Required ["script"]] ] ] ] ].

(** [definitions]: [cerbos.policy.v1.Output]. *)
Definition Output_schema : schema :=
  Schema [ Type_ TObject;
           AdditionalProperties false;
           Properties [("expr", Schema [Type_ TString])] ].

(** All the [definitions] of the file, in its order. *)
Definition rule_definitions : list (string * schema) :=
  [("cerbos.policy.v1.Condition", Condition_schema);
   ("cerbos.policy.v1.Match", Match_schema);
   ("cerbos.policy.v1.Match.ExprList", ExprList_schema);
   ("cerbos.policy.v1.Output", Output_schema)].

(** A value is accepted as a [Condition]. *)
Definition accepted_Condition (j : json) : Prop :=
  exists fuel, validate rule_definitions fuel Condition_schema j = Some true.

(** The names a schema refers to. *)
Fixpoint refs (s : schema) : list string :=
  match s with
  | Ref name => [name]
  | Schema kws => flat_map keyword_refs kws
  end
with keyword_refs (kw : keyword) : list string :=
  match kw with
  | Properties ps => flat_map (fun p => let '(_, s) := p in refs s) ps
  | Items s => refs s
  | AllOf ss => flat_map refs ss
  | OneOf ss => flat_map refs ss
  | _ => []
  end.

(** Two lists of definitions agree on [names]: each of the names is bound
    to the same schema in both, and that schema refers to [names] only. *)
Definition agree (defs defs' : list (string * schema)) (names : list string) : Prop :=
  forall name, name ∈ names ->
    assoc name defs = assoc name defs' /\
    forall s, assoc name defs = Some s -> refs s ⊆ names.

(** The members of an object that a condition admits: a [match] that is
    an accepted match, or a [script] that is a string. *)
Definition Condition_member (m : string * json) : Prop :=
  (m.1 = "match" /\ accepted_Match m.2) \/
  (m.1 = "script" /\ exists s, m.2 = JString s).

(** The set of the keys [match] and [script] of an object: exactly one. *)
Definition one_of_match_script (members : list (string * json)) : bool :=
  xorb (has_key "match" members) (has_key "script" members).

End RuleSchema.

(** [Principal.schema.json] *)
Module PrincipalSchema.
Import Regex.

(** [[0-9A-Za-z]] *)
Definition alnum : list (ascii * ascii) :=
  [("0", "9"); ("A", "Z"); ("a", "z")]%char.

(** [[\-0-9A-Z_a-z]] *)
Definition scope_char : list (ascii * ascii) :=
  [("-", "-"); ("0", "9"); ("A", "Z"); ("_", "_"); ("a", "z")]%char.

(** [\.] *)
Definition dot : list (ascii * ascii) := [(".", ".")]%char.

(** [properties.scope]: the pattern is, anchored at both ends, any number of
    groups of one of [0-9A-Za-z], any number of [\-0-9A-Z_a-z], and any
    number of times a dot followed by any number of [\-0-9A-Z_a-z]. *)
Definition scope_group : regex :=
  Cat (Class alnum)
      (Cat (Star (Class scope_char))
           (Star (Cat (Class dot) (Star (Class scope_char))))).

Definition scope_pattern : regex := Star scope_group.

(** The characters of a scope after the first: those of [scope_char] and
    the dot. *)
Definition scope_tail_char (c : ascii) : bool :=
  in_class c scope_char || in_class c dot.

(** What the pattern of the scope comes to: the empty string, or one of
    [0-9A-Za-z] followed by dots and characters of [scope_char] in any
    order. *)
Definition scope_shape (s : list ascii) : bool :=
  match s with
  | [] => true
  | c :: s' => in_class c alnum && forallb scope_tail_char s'
  end.

End PrincipalSchema.

(** *** Values for the instances of the properties *)
Module examples.

(** A conversion that fails on one value, and errors as strings. *)
Definition ToStructPB (v : string) : string + string :=
  if String.eqb v "chan" then inl "unsupported type" else inr v.

Definition invalid (k e : string) : string := k ++ ": " ++ e.

Definition Append (acc : option string) (e : string) : string :=
  match acc with
  | Some a => a ++ "; " ++ e
  | None => e
  end.

Definition not_found (id : string) : string := "no resource " ++ id.

Definition failed_validation (id : string) (v : CheckResources.ValidationError)
    : string :=
  id ++ ": " ++ CheckResources.Message v.

Definition accept {A} (_ : A) : option string := None.

Definition attr : gmap string string :=
  {["department" := "marketing"; "handle" := "chan"]}.

Definition sally : requests.Principal (Value := string) (E := string) :=
  requests.NewPrincipal "sally" ["employee"; "manager"].

Definition XX125 : requests.Resource (Value := string) (E := string) :=
  requests.NewResource "leave_request" "XX125".

Definition leave_requests : requests.ResourceSet (Value := string) (E := string) :=
  requests.NewResourceSet "leave_request".

(** A response with two results for the same resource id. *)
Definition XX125_staging : CheckResources.ResultEntry (Value := string) :=
  {| CheckResources.Resource :=
       Some {| CheckResources.Id := "XX125";
               CheckResources.Kind := "leave_request";
               CheckResources.PolicyVersion := "staging";
               CheckResources.Scope := "" |};
     CheckResources.Actions := {["approve" := EFFECT_DENY]};
     CheckResources.ValidationErrors := [];
     CheckResources.Outputs :=
       [Some {| CheckResources.Src := "rule-001"; CheckResources.Val := Some "first" |};
        None;
        Some {| CheckResources.Src := "rule-001"; CheckResources.Val := Some "second" |}] |}.

Definition XX125_default : CheckResources.ResultEntry (Value := string) :=
  {| CheckResources.Resource :=
       Some {| CheckResources.Id := "XX125";
               CheckResources.Kind := "leave_request";
               CheckResources.PolicyVersion := "default";
               CheckResources.Scope := "" |};
     CheckResources.Actions := {["approve" := EFFECT_ALLOW]};
     CheckResources.ValidationErrors :=
       [Some {| CheckResources.Path := "/department";
                CheckResources.Message := "missing";
                CheckResources.Source := "SOURCE_RESOURCE" |}];
     CheckResources.Outputs := [] |}.

Definition response : CheckResources.Response (Value := string) :=
  {| CheckResources.Results := [Some XX125_staging; Some XX125_default] |}.

(** A rule without actions fails its validation. *)
Definition Validate_rule (r : policyv1.ResourceRule.t) : option string :=
  match policyv1.ResourceRule.Actions r with
  | [] => Some "no actions"
  | _ :: _ => None
  end.

Definition leave_request_policy : client.ResourcePolicy (E := string) :=
  client.NewResourcePolicy "leave_request" "default".

(** One builder; it is added to the set, its scope is set, and it is added
    again together with a nil pointer. *)
Definition one_builder : shared.heap (E := string) :=
  [client.OfResourcePolicy leave_request_policy].

Definition add_scope_add : list (shared.op (E := string)) :=
  [shared.Add [Some 0];
   shared.Call 0 (shared.on_ResourcePolicy (builders.WithScope "acme"));
   shared.Add [Some 0; None]].

End examples.

(** * Properties *)

(** ** The response accessors *)
Section ClientResponses.

Lemma set_IsAllowed_decoded (m : CheckResourceSet.Response) (id a : string) :
  CheckResourceSet.decoded m ->
  exists b, CheckResourceSet.IsAllowed (CheckResourceSet.wrap m) id a = Returns b
    /\ (b = true <-> CheckResourceSet.records m id a EFFECT_ALLOW).
Proof.
  intros Hdec. unfold CheckResourceSet.IsAllowed, CheckResourceSet.records; simpl.
  destruct (CheckResourceSet.ResourceInstances m !! id) as [[res|]|] eqn:Hres.
  - destruct (CheckResourceSet.Actions res !! a) as [e|] eqn:Ha.
    + exists (is_allow e). split; [done|]. unfold is_allow. split.
      * intros Hb. apply bool_decide_eq_true in Hb. subst e. eauto.
      * intros (res' & Hr & He). simplify_eq. by apply bool_decide_eq_true.
    + exists false. split; [done|]. split; [done|].
      intros (res' & Hr & He). simplify_eq.
  - by destruct (Hdec id).
  - exists false. split; [done|]. split; [done|].
    intros (res' & Hr & He). simplify_eq.
Qed.

Lemma index_from_sound (full : list (option CheckResourceBatch.ActionEffectMap)) :
  forall rs pre acc,
    full = (pre ++ rs)%list -> None ∉ rs ->
    CheckResourceBatch.index_sound full acc ->
    exists ix, CheckResourceBatch.index_from (length pre) rs acc = Returns ix
      /\ CheckResourceBatch.index_sound full ix.
Proof.
  induction rs as [|[r|] rs IH]; intros pre acc Hfull Hnil Hs; simpl.
  - eauto.
  - destruct (IH (pre ++ [Some r])%list
      (<[CheckResourceBatch.ResourceId r :=
           (default [] (acc !! CheckResourceBatch.ResourceId r) ++ [length pre])%list]> acc))
      as (ix & Hix & Hsound).
    + by rewrite <- app_assoc.
    + intros Hin. apply Hnil. by right.
    + intros id l j Hl Hj.
      destruct (decide (CheckResourceBatch.ResourceId r = id)) as [Heq|Hne].
      * subst id. rewrite lookup_insert_eq in Hl. simplify_eq.
        apply elem_of_app in Hj as [Hj|Hj].
        -- destruct (acc !! CheckResourceBatch.ResourceId r) as [v|] eqn:Hv; simpl in Hj.
           ++ by eapply Hs.
           ++ by apply elem_of_nil in Hj.
        -- apply list_elem_of_singleton in Hj. subst j. exists r. split; [|done].
           rewrite lookup_app_r by lia. by rewrite Nat.sub_diag.
      * rewrite lookup_insert_ne in Hl by done. by eapply Hs.
    + exists ix. split; [|done].
      rewrite length_app in Hix. simpl in Hix. by rewrite Nat.add_1_r in Hix.
  - exfalso. apply Hnil. by left.
Qed.

Lemma scan_sound (m : CheckResourceBatch.Response) (id a : string) :
  forall indexes,
    (forall j, j ∈ indexes ->
       exists r, CheckResourceBatch.Results m !! j = Some (Some r)
                 /\ CheckResourceBatch.ResourceId r = id) ->
    exists b, CheckResourceBatch.scan (Some m) indexes a = Returns b
      /\ (b = true -> CheckResourceBatch.records m id a EFFECT_ALLOW)
      /\ ((forall r, Some r ∈ CheckResourceBatch.Results m ->
                     CheckResourceBatch.ResourceId r = id ->
                     CheckResourceBatch.Actions r !! a = None) -> b = false).
Proof.
  induction indexes as [|i rest IH]; intros Hall; simpl.
  - exists false. by repeat split.
  - destruct (Hall i) as (r & Hr & Hid); [by left|]. rewrite Hr.
    assert (Hin : Some r ∈ CheckResourceBatch.Results m)
      by (apply list_elem_of_lookup; eauto).
    destruct (CheckResourceBatch.Actions r !! a) as [e|] eqn:He.
    + exists (is_allow e). split; [done|]. split.
      * intros Hb. apply bool_decide_eq_true in Hb. subst e. by exists r.
      * intros Hnone. rewrite (Hnone r Hin Hid) in He. discriminate.
    + apply IH. intros j Hj. apply Hall. by right.
Qed.

Lemma batch_IsAllowed_wraps (m : CheckResourceBatch.Response)
    (crbr : CheckResourceBatch.CheckResourceBatchResponse) (id a : string) :
  CheckResourceBatch.decoded m -> CheckResourceBatch.wraps m crbr ->
  exists b crbr', CheckResourceBatch.IsAllowed crbr id a = Returns (b, crbr')
    /\ CheckResourceBatch.wraps m crbr'
    /\ (b = true -> CheckResourceBatch.records m id a EFFECT_ALLOW)
    /\ ((forall e, ~ CheckResourceBatch.records m id a e) -> b = false).
Proof.
  intros Hdec [Hemb Hidx].
  assert (Hb : exists crbr', CheckResourceBatch.buildIdx crbr = Returns crbr'
            /\ CheckResourceBatch.embedded crbr' = Some m
            /\ CheckResourceBatch.once crbr' = true
            /\ CheckResourceBatch.index_sound (CheckResourceBatch.Results m)
                 (CheckResourceBatch.idx crbr')).
  { unfold CheckResourceBatch.buildIdx.
    destruct (CheckResourceBatch.once crbr) eqn:Honce.
    - destruct Hidx as [?|Hs]; [done|]. eauto.
    - rewrite Hemb.
      destruct (index_from_sound (CheckResourceBatch.Results m)
                  (CheckResourceBatch.Results m) [] ∅) as (ix & Hix & Hs);
        [done|done|by intros ? ? ? ?%lookup_empty_Some|].
      simpl in Hix. rewrite Hix. simpl. eauto 10. }
  destruct Hb as (crbr' & Hbuild & Hemb' & Honce' & Hs).
  unfold CheckResourceBatch.IsAllowed. rewrite Hbuild. simpl.
  assert (Hw : CheckResourceBatch.wraps m crbr') by (split; eauto).
  destruct (CheckResourceBatch.idx crbr' !! id) as [indexes|] eqn:Hlook.
  - rewrite Hemb'.
    destruct (scan_sound m id a indexes)
      as (b & Hscan & Htrue & Hfalse); [by eauto|].
    rewrite Hscan. simpl. exists b, crbr'.
    split; [done|]. split; [done|]. split; [done|].
    intros Hmiss. apply Hfalse. intros r Hin Hid.
    destruct (CheckResourceBatch.Actions r !! a) as [e|] eqn:He; [|done].
    destruct (Hmiss e). by exists r.
  - exists false, crbr'. split; [done|]. split; [done|]. by split.
Qed.

Lemma batch_after_wraps (m : CheckResourceBatch.Response) :
  CheckResourceBatch.decoded m ->
  forall qs crbr, CheckResourceBatch.wraps m crbr ->
    exists crbr', CheckResourceBatch.after qs crbr = Returns crbr'
      /\ CheckResourceBatch.wraps m crbr'.
Proof.
  intros Hdec. induction qs as [|[id a] qs IH]; intros crbr Hw; simpl.
  - eauto.
  - destruct (batch_IsAllowed_wraps m crbr id a Hdec Hw) as (b & crbr' & Hcall & Hw' & _).
    rewrite Hcall. simpl. by apply IH.
Qed.

Lemma batch_wrap_wraps (m : CheckResourceBatch.Response) :
  CheckResourceBatch.wraps m (CheckResourceBatch.wrap m).
Proof. split; [done|by left]. Qed.


(** In the batch accessor [buildIdx] reads [r.ResourceId] of every result
    before [IsAllowed] gets to its own nil check. *)
Example batch_IsAllowed_nil_result :
  CheckResourceBatch.IsAllowed
    (CheckResourceBatch.wrap {| CheckResourceBatch.Results := [None] |})
    "XX125" "approve" = Panics.
Proof. reflexivity. Qed.

(** On responses without nil entries, which are all that protobuf decoding
    yields, the accessors do what they document. For every such response
    of the resource-set and of the batch API (the latter after any earlier
    calls) and every pair (resourceID, action), [IsAllowed] returns a
    boolean; it returns true only when the response records the action for
    the resource with [EFFECT_ALLOW]; it returns false when the resource or
    the action is missing. [ResourceResult.IsAllowed] returns false whenever
    the result carries an error. *)
Theorem IsAllowed_missing_entry_default
    (ms : CheckResourceSet.Response) (mb : CheckResourceBatch.Response)
    (qs : list (string * string)) (rr : option ResourceResult.ResourceResult)
    (resourceID action : string) :
  CheckResourceSet.decoded ms ->
  CheckResourceBatch.decoded mb ->
  (exists b,
      CheckResourceSet.IsAllowed (CheckResourceSet.wrap ms) resourceID action = Returns b
      /\ (b = true -> CheckResourceSet.records ms resourceID action EFFECT_ALLOW)
      /\ (CheckResourceSet.missing ms resourceID action -> b = false))
  /\ (exists crbr b crbr',
      CheckResourceBatch.after qs (CheckResourceBatch.wrap mb) = Returns crbr
      /\ CheckResourceBatch.IsAllowed crbr resourceID action = Returns (b, crbr')
      /\ (b = true -> CheckResourceBatch.records mb resourceID action EFFECT_ALLOW)
      /\ (CheckResourceBatch.missing mb resourceID action -> b = false))
  /\ (ResourceResult.carries_error rr ->
      ResourceResult.IsAllowed rr action = Returns false).
Proof.
  intros Hs Hb. split; [|split].
  - destruct (set_IsAllowed_decoded ms resourceID action Hs) as (b & Hcall & Hiff).
    exists b. split; [done|]. split; [by apply Hiff|].
    intros Hmiss. destruct b; [|done].
    destruct (Hmiss EFFECT_ALLOW). by apply Hiff.
  - destruct (batch_after_wraps mb Hb qs _ (batch_wrap_wraps mb)) as (crbr & Hafter & Hw).
    destruct (batch_IsAllowed_wraps mb crbr resourceID action Hb Hw)
      as (b & crbr' & Hcall & _ & Htrue & Hfalse).
    exists crbr, b, crbr'. eauto.
  - intros (r & msg & -> & Herr). simpl. by rewrite Herr.
Qed.

Lemma IsAllowed_missing_entry_default_witness :
  (exists b,
      CheckResourceSet.IsAllowed
        (CheckResourceSet.wrap
           {| CheckResourceSet.ResourceInstances :=
                {["XX125" := Some {| CheckResourceSet.Actions := {["approve" := EFFECT_ALLOW]} |}]} |})
        "XX150" "approve" = Returns b
      /\ (b = true ->
          CheckResourceSet.records
            {| CheckResourceSet.ResourceInstances :=
                 {["XX125" := Some {| CheckResourceSet.Actions := {["approve" := EFFECT_ALLOW]} |}]} |}
            "XX150" "approve" EFFECT_ALLOW)
      /\ (CheckResourceSet.missing
            {| CheckResourceSet.ResourceInstances :=
                 {["XX125" := Some {| CheckResourceSet.Actions := {["approve" := EFFECT_ALLOW]} |}]} |}
            "XX150" "approve" -> b = false))
  /\ (exists crbr b crbr',
      CheckResourceBatch.after [("XX125", "approve")]
        (CheckResourceBatch.wrap
           {| CheckResourceBatch.Results :=
                [Some {| CheckResourceBatch.ResourceId := "XX125";
                         CheckResourceBatch.Actions := {["approve" := EFFECT_DENY]} |}] |})
        = Returns crbr
      /\ CheckResourceBatch.IsAllowed crbr "XX150" "approve" = Returns (b, crbr')
      /\ (b = true ->
          CheckResourceBatch.records
            {| CheckResourceBatch.Results :=
                 [Some {| CheckResourceBatch.ResourceId := "XX125";
                          CheckResourceBatch.Actions := {["approve" := EFFECT_DENY]} |}] |}
            "XX150" "approve" EFFECT_ALLOW)
      /\ (CheckResourceBatch.missing
            {| CheckResourceBatch.Results :=
                 [Some {| CheckResourceBatch.ResourceId := "XX125";
                          CheckResourceBatch.Actions := {["approve" := EFFECT_DENY]} |}] |}
            "XX150" "approve" -> b = false))
  /\ (ResourceResult.carries_error
        (Some {| ResourceResult.embedded := None; ResourceResult.err := Some "not found" |}) ->
      ResourceResult.IsAllowed
        (Some {| ResourceResult.embedded := None; ResourceResult.err := Some "not found" |})
        "approve" = Returns false).
Proof.
  apply IsAllowed_missing_entry_default.
  - intros id H. simpl in H. apply lookup_singleton_Some in H as [_ H]. discriminate.
  - unfold CheckResourceBatch.decoded. simpl. intros H.
    apply list_elem_of_singleton in H. discriminate.
Defined.

End ClientResponses.

(** ** Regular expressions: the matcher decides the language *)
Section RegexFacts.
Import Regex.

Lemma nullable_lang (r : regex) : nullable r = true <-> lang r [].
Proof.
  split.
  - induction r as [| |ranges|r1 IH1 r2 IH2|r1 IH1 r2 IH2|r IH]; simpl; intros H;
      try discriminate.
    + constructor.
    + apply andb_true_iff in H as [H1 H2].
      change (@nil ascii) with (@nil ascii ++ [])%list. constructor; auto.
    + apply orb_true_iff in H as [H|H]; [apply lang_alt_l|apply lang_alt_r]; auto.
    + constructor.
  - intros H. remember [] as s eqn:Hs.
    induction H as [|c ranges Hc|r1 r2 s1 s2 _ IH1 _ IH2|r1 r2 s _ IH|r1 r2 s _ IH| |];
      simpl; try done.
    + apply app_eq_nil in Hs as [-> ->]. by rewrite IH1, IH2.
    + by rewrite IH.
    + rewrite IH by done. apply orb_true_r.
Qed.

Lemma lang_star_cons_inv (r : regex) (c : ascii) (s : list ascii) :
  lang (Star r) (c :: s) ->
  exists s1 s2, s = (s1 ++ s2)%list /\ lang r (c :: s1) /\ lang (Star r) s2.
Proof.
  intros H. remember (Star r) as r' eqn:Hr. remember (c :: s) as cs eqn:Hcs.
  induction H as [| | | | | |r0 s1 s2 H1 _ H2 IH2]; try discriminate.
  injection Hr as ->. destruct s1 as [|c1 s1]; simpl in Hcs.
  - by apply IH2.
  - injection Hcs as -> <-. eauto.
Qed.

Lemma lang_cat_inv (r1 r2 : regex) (s : list ascii) :
  lang (Cat r1 r2) s ->
  exists s1 s2, s = (s1 ++ s2)%list /\ lang r1 s1 /\ lang r2 s2.
Proof. inversion 1; subst; eauto. Qed.

Lemma lang_alt_inv (r1 r2 : regex) (s : list ascii) :
  lang (Alt r1 r2) s -> lang r1 s \/ lang r2 s.
Proof. inversion 1; subst; eauto. Qed.

Lemma lang_cat_cons (r1 r2 : regex) (c : ascii) (s1 s2 : list ascii) :
  lang r1 (c :: s1) -> lang r2 s2 -> lang (Cat r1 r2) (c :: s1 ++ s2)%list.
Proof.
  intros H1 H2. change (c :: s1 ++ s2)%list with ((c :: s1) ++ s2)%list.
  by constructor.
Qed.

Lemma deriv_lang (c : ascii) (r : regex) :
  forall s, lang (deriv c r) s <-> lang r (c :: s).
Proof.
  induction r as [| |ranges|r1 IH1 r2 IH2|r1 IH1 r2 IH2|r IH]; intros s; simpl.
  - split; intros H; inversion H.
  - split; intros H; inversion H.
  - destruct (in_class c ranges) eqn:Hc; split; intros H; inversion H; subst.
    + by constructor.
    + constructor.
    + congruence.
  - split.
    + intros H.
      assert (Hcases : lang (Cat (deriv c r1) r2) s
                       \/ (nullable r1 = true /\ lang (deriv c r2) s)).
      { destruct (nullable r1); [|by left].
        apply lang_alt_inv in H as [H|H]; [by left|by right]. }
      destruct Hcases as [H'|[Hn H']].
      * apply lang_cat_inv in H' as (s1 & s2 & -> & Ha & Hb).
        apply lang_cat_cons; [by apply IH1|done].
      * change (c :: s) with ([] ++ c :: s)%list.
        constructor; [by apply nullable_lang|by apply IH2].
    + intros H. apply lang_cat_inv in H as (s1 & s2 & Heq & Ha & Hb).
      destruct s1 as [|c1 s1]; simpl in Heq.
      * subst s2. apply nullable_lang in Ha. rewrite Ha.
        apply lang_alt_r. by apply IH2.
      * injection Heq as <- ->.
        assert (Hcat : lang (Cat (deriv c r1) r2) (s1 ++ s2)%list)
          by (constructor; [by apply IH1|done]).
        destruct (nullable r1); [by apply lang_alt_l|done].
  - split; intros H.
    + apply lang_alt_inv in H as [H|H];
        [apply lang_alt_l; by apply IH1|apply lang_alt_r; by apply IH2].
    + apply lang_alt_inv in H as [H|H];
        [apply lang_alt_l; by apply IH1|apply lang_alt_r; by apply IH2].
  - split; intros H.
    + apply lang_cat_inv in H as (s1 & s2 & -> & Ha & Hb).
      change (c :: (s1 ++ s2))%list with ((c :: s1) ++ s2)%list.
      constructor; [by apply IH|done].
    + apply lang_star_cons_inv in H as (s1 & s2 & -> & Ha & Hb).
      constructor; [by apply IH|done].
Qed.

Lemma run_lang (s : list ascii) : forall r, run r s = true <-> lang r s.
Proof.
  induction s as [|c s IH]; intros r; simpl.
  - apply nullable_lang.
  - rewrite IH. apply deriv_lang.
Qed.

Lemma lang_star_class (ranges : list (ascii * ascii)) (s : list ascii) :
  lang (Star (Class ranges)) s <-> Forall (fun c => in_class c ranges = true) s.
Proof.
  split.
  - intros H. remember (Star (Class ranges)) as r eqn:Hr.
    induction H as [| | | | | |r0 s1 s2 H1 _ H2 IH2]; try discriminate.
    + constructor.
    + injection Hr as ->. inversion H1; subst. simpl. constructor; auto.
  - induction 1 as [|c s Hc _ IH].
    + constructor.
    + change (c :: s) with ([c] ++ s)%list. constructor; [by constructor|done].
Qed.

Lemma letter_name_char (c : ascii) :
  in_class c letter = true -> in_class c name_char = true.
Proof.
  destruct c as [[] [] [] [] [] [] [] []]; vm_compute; congruence.
Qed.

End RegexFacts.

(** ** The schema of a resource rule *)
Section SchemaFacts.
Import Regex JSONSchema.

Lemma all_valid_cons {A} (f : A -> option bool) (x : A) (l : list A) :
  all_valid f (x :: l) = Some true -> f x = Some true /\ all_valid f l = Some true.
Proof.
  simpl. destruct (f x) as [[]|]; destruct (all_valid f l) as [[]|]; by simpl.
Qed.

Lemma all_valid_Forall {A} (f : A -> option bool) (l : list A) :
  all_valid f l = Some true -> Forall (fun x => f x = Some true) l.
Proof.
  induction l as [|x l IH]; intros H; [constructor|].
  apply all_valid_cons in H as [Hx Hl]. constructor; auto.
Qed.

Lemma validate_Schema defs fuel kws j :
  validate defs (S fuel) (Schema kws) j
  = all_valid (fun kw => keyword_holds (validate defs fuel) kws kw j) kws.
Proof. reflexivity. Qed.

Lemma validate_Ref defs fuel name j :
  validate defs (S fuel) (Ref name) j
  = match assoc name defs with
    | Some s' => validate defs fuel s' j
    | None => None
    end.
Proof. reflexivity. Qed.

(** More fuel does not change a verdict that was reached. *)
Lemma all_valid_mono {A} (f g : A -> option bool) (l : list A) (b : bool) :
  (forall x b', f x = Some b' -> g x = Some b') ->
  all_valid f l = Some b -> all_valid g l = Some b.
Proof.
  intros Hfg. revert b. induction l as [|x l IH]; simpl; intros b H; [done|].
  destruct (f x) as [bx|] eqn:Hx; [|done].
  destruct (all_valid f l) as [bl|] eqn:Hl; [|done].
  by rewrite (Hfg _ _ Hx), (IH _ eq_refl).
Qed.

Lemma count_valid_mono {A} (f g : A -> option bool) (l : list A) (n : nat) :
  (forall x b', f x = Some b' -> g x = Some b') ->
  count_valid f l = Some n -> count_valid g l = Some n.
Proof.
  intros Hfg. revert n. induction l as [|x l IH]; simpl; intros n H; [done|].
  destruct (f x) as [bx|] eqn:Hx; [|done].
  destruct (count_valid f l) as [nl|] eqn:Hl; [|done].
  by rewrite (Hfg _ _ Hx), (IH _ eq_refl).
Qed.

Lemma keyword_holds_mono (sub sub' : schema -> json -> option bool)
    (siblings : list keyword) (kw : keyword) (j : json) (b : bool) :
  (forall s j' b', sub s j' = Some b' -> sub' s j' = Some b') ->
  keyword_holds sub siblings kw j = Some b ->
  keyword_holds sub' siblings kw j = Some b.
Proof.
  intros Hsub. destruct kw; simpl; try done.
  - destruct j; try done. apply all_valid_mono.
    intros m b'. destruct (assoc m.1 props); [apply Hsub|done].
  - destruct j; try done. apply all_valid_mono. intros x b'. apply Hsub.
  - apply all_valid_mono. intros x b'. apply Hsub.
  - destruct (count_valid (fun s => sub s j) ss) as [n|] eqn:Hn; [|done].
    intros H. erewrite count_valid_mono; [exact H| |exact Hn].
    intros x b'. apply Hsub.
Qed.

Lemma validate_mono defs (fuel : nat) :
  forall s j b, validate defs fuel s j = Some b ->
                validate defs (S fuel) s j = Some b.
Proof.
  induction fuel as [|fuel IH]; intros s j b H; [discriminate|].
  destruct s as [name|kws].
  - rewrite validate_Ref in *. destruct (assoc name defs); [by apply IH|done].
  - rewrite validate_Schema in *. revert H. apply all_valid_mono.
    intros kw b'. by apply keyword_holds_mono.
Qed.

Lemma has_type_object j : has_type TObject j = true -> exists ms, j = JObject ms.
Proof. destruct j; try discriminate. eauto. Qed.

Lemma has_type_array j : has_type TArray j = true -> exists items, j = JArray items.
Proof. destruct j; try discriminate. eauto. Qed.

Lemma assoc_elem_of {A} (k : string) (l : list (string * A)) (v : A) :
  assoc k l = Some v -> (k, v) ∈ l.
Proof.
  induction l as [|[k' v'] l IH]; simpl; [done|].
  destruct (String.eqb k k') eqn:Hk.
  - apply String.eqb_eq in Hk as ->. intros [= ->]. by left.
  - intros H. right. auto.
Qed.

Lemma validate_required fuel k ms :
  validate definitions (S fuel) (Schema [Type_ TObject; Required [k]]) (JObject ms)
  = Some (has_key k ms).
Proof. simpl. by destruct (has_key k ms). Qed.

(** What the schema of the list of a variant demands. *)
Lemma validate_ExprList_shape fuel v :
  validate definitions fuel ExprList_schema v = Some true ->
  exists ms items, v = JObject ms /\ assoc "of" ms = Some (JArray items)
    /\ 1 <= length items /\ Forall accepted_Match items.
Proof.
  destruct fuel as [|f]; [discriminate|]. unfold ExprList_schema.
  rewrite validate_Schema. intros H.
  apply all_valid_cons in H as [Htype H].
  apply all_valid_cons in H as [Hreq H].
  apply all_valid_cons in H as [_ H].
  apply all_valid_cons in H as [Hprops _].
  injection Htype as Htype. apply has_type_object in Htype as [ms ->].
  cbn [keyword_holds] in Hreq, Hprops.
  injection Hreq as Hreq. simpl in Hreq. rewrite andb_true_r in Hreq.
  unfold has_key in Hreq. destruct (assoc "of" ms) as [v0|] eqn:Hof; [|discriminate].
  apply all_valid_Forall in Hprops. rewrite Forall_forall in Hprops.
  specialize (Hprops _ (assoc_elem_of _ _ _ Hof)). simpl in Hprops.
  destruct f as [|f]; [discriminate|]. rewrite validate_Schema in Hprops.
  apply all_valid_cons in Hprops as [Htype H].
  apply all_valid_cons in H as [Hitems H].
  apply all_valid_cons in H as [Hmin _].
  injection Htype as Htype. apply has_type_array in Htype as [items ->].
  cbn [keyword_holds] in Hitems, Hmin. injection Hmin as Hmin.
  exists ms, items. split; [done|]. split; [done|]. split.
  - destruct items; [discriminate|simpl; lia].
  - apply all_valid_Forall in Hitems. eapply Forall_impl; [exact Hitems|].
    intros item Hitem. simpl in Hitem.
    destruct f as [|f]; [discriminate|]. rewrite validate_Ref in Hitem.
    simpl in Hitem. by exists f.
Qed.

(** What the schema of a match demands of the value itself. *)
Lemma validate_Match_shape fuel j :
  validate definitions fuel Match_schema j = Some true ->
  exists ms, j = JObject ms /\ variants_set ms = 1
    /\ forall k v, (k, v) ∈ ms -> k ∈ ["all"; "any"; "none"] ->
        exists fuel', validate definitions fuel' ExprList_schema v = Some true.
Proof.
  destruct fuel as [|f]; [discriminate|]. unfold Match_schema.
  rewrite validate_Schema. intros H.
  apply all_valid_cons in H as [H _]. cbn [keyword_holds] in H.
  apply all_valid_cons in H as [HA H].
  apply all_valid_cons in H as [HB _].
  destruct f as [|f]; [discriminate|]. rewrite validate_Schema in HA, HB.
  apply all_valid_cons in HA as [Htype H].
  apply all_valid_cons in H as [_ H].
  apply all_valid_cons in H as [Hprops _].
  injection Htype as Htype. apply has_type_object in Htype as [ms ->].
  apply all_valid_cons in HB as [HB _].
  cbn [keyword_holds] in Hprops, HB.
  exists ms. split; [done|]. split.
  - destruct f as [|f]; [discriminate|].
    cbn [count_valid] in HB. rewrite !validate_required in HB.
    unfold variants_set. simpl.
    destruct (has_key "all" ms), (has_key "any" ms), (has_key "none" ms),
      (has_key "expr" ms); simpl in *; congruence.
  - intros k v Hin Hk. apply all_valid_Forall in Hprops.
    rewrite Forall_forall in Hprops. specialize (Hprops _ Hin). simpl in Hprops.
    assert (Href : validate definitions f (Ref "cerbos.policy.v1.Match.ExprList") v
                   = Some true).
    { repeat (apply elem_of_cons in Hk as [->|Hk]); try done.
      by apply elem_of_nil in Hk. }
    destruct f as [|f]; [discriminate|]. rewrite validate_Ref in Href.
    simpl in Href. by exists f.
Qed.

(** C7. Every value accepted as a [Match] is an object in which exactly one
    of the variants [all], [any], [none], [expr] is set; wherever it sets
    [all], [any] or [none], the value of the variant is an object whose list
    [of] has at least one element, and every element of the list is an
    accepted [Match] again. *)
Theorem Match_exactly_one_variant (j : json) :
  accepted_Match j ->
  exists members,
    j = JObject members
    /\ variants_set members = 1
    /\ forall k v, (k, v) ∈ members -> k ∈ ["all"; "any"; "none"] ->
        exists ms items,
          v = JObject ms /\ assoc "of" ms = Some (JArray items)
          /\ 1 <= length items /\ Forall accepted_Match items.
Proof.
  intros [fuel H]. apply validate_Match_shape in H as (ms & -> & Hone & Hlists).
  exists ms. split; [done|]. split; [done|].
  intros k v Hin Hk. destruct (Hlists k v Hin Hk) as [fuel' Hv].
  by apply validate_ExprList_shape in Hv.
Qed.

Lemma Match_exactly_one_variant_witness :
  exists members,
    JObject [("any", JObject [("of", JArray [JObject [("expr", JString "R.attr.public")]])])]
      = JObject members
    /\ variants_set members = 1
    /\ forall k v, (k, v) ∈ members -> k ∈ ["all"; "any"; "none"] ->
        exists ms items,
          v = JObject ms /\ assoc "of" ms = Some (JArray items)
          /\ 1 <= length items /\ Forall accepted_Match items.
Proof.
  apply Match_exactly_one_variant. exists 12. reflexivity.
Defined.

(** Values the schema turns down: no variant, two variants, an empty list. *)
Example Match_rejected :
  validate definitions 12 Match_schema (JObject []) = Some false
  /\ validate definitions 12 Match_schema
       (JObject [("expr", JString "a");
                 ("any", JObject [("of", JArray [JObject [("expr", JString "b")]])])])
     = Some false
  /\ validate definitions 12 Match_schema
       (JObject [("all", JObject [("of", JArray [])])]) = Some false.
Proof. by repeat split. Qed.

Lemma lang_name_pattern (s : list ascii) :
  lang name_pattern s <->
  s = [] \/ exists c s', s = c :: s' /\ in_class c letter = true
                         /\ Forall (fun c => in_class c name_char = true) s'.
Proof.
  unfold name_pattern. split.
  - intros H. remember (Star (Cat (Class letter) (Star (Class name_char)))) as r eqn:Hr.
    induction H as [| | | | | |r0 s1 s2 H1 _ H2 IH2]; try discriminate.
    + by left.
    + injection Hr as ->. right.
      apply lang_cat_inv in H1 as (t1 & t2 & -> & Ha & Hb).
      inversion Ha; subst. apply lang_star_class in Hb.
      exists c, (t2 ++ s2)%list. split; [by rewrite <- app_assoc|]. split; [done|].
      apply Forall_app. split; [done|].
      destruct (IH2 eq_refl) as [->|(c' & s' & -> & Hc' & Hs')]; [constructor|].
      constructor; [by apply letter_name_char|done].
  - intros [->|(c & s' & -> & Hc & Hs')]; [constructor|].
    rewrite <- (app_nil_r (c :: s')). constructor; [|constructor].
    change (c :: s') with ([c] ++ s')%list.
    constructor; [by constructor|by apply lang_star_class].
Qed.

Lemma validate_name (fuel : nat) (s : string) :
  validate definitions (S fuel) name_schema (JString s)
  = Some (full_match name_pattern s).
Proof. simpl. by destruct (full_match name_pattern s). Qed.

Lemma accepted_name_full_match (s : string) :
  accepted_name s <-> full_match name_pattern s = true.
Proof.
  split.
  - intros [[|fuel] H]; [discriminate|]. rewrite validate_name in H. congruence.
  - intros H. exists 1. rewrite validate_name. by rewrite H.
Qed.

(** The pattern the specification quotes accepts names the schema rejects:
    a name that begins with a digit. *)
Lemma name_pattern_rejects_leading_digit :
  full_match spec_name_pattern "9to5" = true /\ ~ accepted_name "9to5".
Proof.
  split; [reflexivity|]. rewrite accepted_name_full_match. by vm_compute.
Qed.

(** C9, with the pattern of the schema. A string is accepted as the name of a
    rule exactly when it matches the pattern of the schema, a repeated group
    of a letter followed by characters of the class; that is exactly when it
    matches the pattern the specification quotes and is empty or begins with
    one of [A-Za-z]. The empty name is accepted. *)
Theorem rule_name_pattern (s : string) :
  (accepted_name s <-> full_match name_pattern s = true)
  /\ (accepted_name s <->
      full_match spec_name_pattern s = true
      /\ (s = "" \/ begins_with_letter s = true))
  /\ accepted_name "".
Proof.
  split; [apply accepted_name_full_match|]. split.
  - rewrite accepted_name_full_match. unfold full_match.
    rewrite !run_lang, lang_name_pattern. unfold spec_name_pattern.
    rewrite lang_star_class. destruct s as [|c s]; simpl.
    + split; [intros _; split; [constructor|by left]|by left].
    + split.
      * intros [?|(c' & s' & Heq & Hc & Hs)]; [done|]. injection Heq as <- <-.
        split; [|by right]. constructor; [by apply letter_name_char|done].
      * intros [Hall [?|Hc]]; [done|]. right. inversion Hall; subst. eauto.
  - by apply accepted_name_full_match.
Qed.

End SchemaFacts.

(** ** The builders and the validator *)
Section BuilderFacts.
Import policyv1.

Lemma Validate_apiVersion (p : Policy) :
  ApiVersion p <> "api.cerbos.dev/v1" ->
  policy.Validate p = Some policy.BadAPIVersion.
Proof.
  intros Hne. unfold policy.Validate.
  destruct (String.eqb (ApiVersion p) "api.cerbos.dev/v1") eqn:Heq; [|done].
  by apply String.eqb_eq in Heq.
Qed.

(** C8. Whatever the builder holds and whatever the validator answers, the
    policy that [build] returns carries the api version
    [api.cerbos.dev/v1], and the error that [build] returns is the
    validator's verdict on that policy; validation returns an error for
    every policy whose api version is another string. *)
Theorem apiVersion_invariant {E : Type} (Validate : Policy -> option E)
    (b : client.Builder) (p : Policy) :
  (ApiVersion (fst (client.build Validate b)) = "api.cerbos.dev/v1"
   /\ snd (client.build Validate b) = Validate (fst (client.build Validate b)))
  /\ (ApiVersion p <> "api.cerbos.dev/v1" ->
      policy.Validate p = Some policy.BadAPIVersion).
Proof.
  split; [|apply Validate_apiVersion].
  by destruct b.
Qed.

Lemma apiVersion_invariant_witness :
  (ApiVersion
     (fst (client.build policy.Validate
             (client.OfResourcePolicy
                (client.NewResourcePolicy "leave_request" "20210210"))))
   = "api.cerbos.dev/v1"
   /\ snd (client.build policy.Validate
             (client.OfResourcePolicy
                (client.NewResourcePolicy "leave_request" "20210210")))
      = policy.Validate
          (fst (client.build policy.Validate
                  (client.OfResourcePolicy
                     (client.NewResourcePolicy "leave_request" "20210210")))))
  /\ (ApiVersion {| ApiVersion := "something"; PolicyType := None; JsonSchema := "" |}
      <> "api.cerbos.dev/v1" ->
      policy.Validate {| ApiVersion := "something"; PolicyType := None; JsonSchema := "" |}
      = Some policy.BadAPIVersion).
Proof.
  apply (apiVersion_invariant policy.Validate
           (client.OfResourcePolicy (client.NewResourcePolicy "leave_request" "20210210"))
           {| ApiVersion := "something"; PolicyType := None; JsonSchema := "" |}).
Defined.

(** The cases of [TestValidate]: a bad api version on a resource policy and
    on a principal policy, and an empty resource name. *)
Example TestValidate :
  policy.Validate
    {| ApiVersion := "something";
       PolicyType := Some (Policy_ResourcePolicy
                             (client.p (client.NewResourcePolicy (E := unit)
                                          "leave_request" "20210210")));
       JsonSchema := "" |} = Some policy.BadAPIVersion
  /\ policy.Validate
       {| ApiVersion := "something";
          PolicyType := Some (Policy_PrincipalPolicy
                                (client.pp (client.NewPrincipalPolicy (E := unit)
                                              "donald_duck" "20210210")));
          JsonSchema := "" |} = Some policy.BadAPIVersion
  /\ snd (client.build policy.Validate
            (client.OfResourcePolicy (client.NewResourcePolicy "" "20210210")))
     = Some policy.EmptyResourceName
  /\ snd (client.build policy.Validate
            (client.OfResourcePolicy (client.NewResourcePolicy "leave_request" "20210210")))
     = None.
Proof. by repeat split. Qed.

End BuilderFacts.

(** ** The loader *)
Section LoaderFacts.
Import policyv1 policy.

Lemma Validate_omit_jsonSchema (p : Policy) :
  Validate (omit_jsonSchema p) = Validate p.
Proof. reflexivity. Qed.

Lemma Validate_same_logical_policy (p q : Policy) :
  same_logical_policy p q -> Validate q = Validate p.
Proof.
  intros H. rewrite <- (Validate_omit_jsonSchema p), <- (Validate_omit_jsonSchema q).
  unfold same_logical_policy in H. by rewrite H.
Qed.

Lemma GetHash_same_logical_policy (serialize : Policy -> list Byte.byte)
    (p q : Policy) :
  same_logical_policy p q -> GetHash serialize p = GetHash serialize q.
Proof. unfold GetHash, same_logical_policy. by intros ->. Qed.

(** The hash is FNV-1a: the test vector of the string "foobar". *)
Example fnv1a64_foobar :
  fnv1a64 (list_byte_of_string "foobar") = 9625390261332436968%Z.
Proof. reflexivity. Qed.

(** C5. When the two formats are isomorphic, for every well-formed policy
    [p] the loader reads a policy from the YAML encoding of [p] and a policy
    from its JSON encoding; the two have the same hash, and that hash is the
    hash of [p]. This holds for every policy type. *)
Theorem hash_stability {Raw : Type} (decode : Format -> Raw -> option Policy)
    (serialize : Policy -> list Byte.byte)
    (encode : Format -> Policy -> Raw) (p : Policy) :
  isomorphic decode encode ->
  Validate p = None ->
  exists py pj,
    ReadPolicy decode (encoding encode YAML p) = Ok py
    /\ ReadPolicy decode (encoding encode JSON p) = Ok pj
    /\ GetHash serialize py = GetHash serialize pj
    /\ GetHash serialize py = GetHash serialize p.
Proof.
  intros Hiso Hvalid.
  destruct (Hiso YAML p) as (py & Hy & Hsy).
  destruct (Hiso JSON p) as (pj & Hj & Hsj).
  exists py, pj. unfold ReadPolicy, encoding. simpl. rewrite Hy, Hj.
  rewrite (Validate_same_logical_policy p py Hsy),
          (Validate_same_logical_policy p pj Hsj), Hvalid.
  split; [done|]. split; [done|].
  rewrite <- (GetHash_same_logical_policy serialize p py Hsy).
  by rewrite <- (GetHash_same_logical_policy serialize p pj Hsj).
Qed.

Lemma hash_stability_witness :
  exists py pj,
    ReadPolicy (fun _ (d : Policy) => Some d)
      (encoding
         (fun fmt q =>
            {| ApiVersion := ApiVersion q; PolicyType := PolicyType q;
               JsonSchema := match fmt with
                             | YAML => ""
                             | JSON => "Policy.schema.json"
                             end |})
         YAML
         (fst (client.build Validate
                 (client.OfResourcePolicy
                    (client.NewResourcePolicy "leave_request" "20210210")))))
      = Ok py
    /\ ReadPolicy (fun _ (d : Policy) => Some d)
         (encoding
            (fun fmt q =>
               {| ApiVersion := ApiVersion q; PolicyType := PolicyType q;
                  JsonSchema := match fmt with
                                | YAML => ""
                                | JSON => "Policy.schema.json"
                                end |})
            JSON
            (fst (client.build Validate
                    (client.OfResourcePolicy
                       (client.NewResourcePolicy "leave_request" "20210210")))))
       = Ok pj
    /\ GetHash (fun q => list_byte_of_string (ApiVersion q ++ JsonSchema q)) py
       = GetHash (fun q => list_byte_of_string (ApiVersion q ++ JsonSchema q)) pj
    /\ GetHash (fun q => list_byte_of_string (ApiVersion q ++ JsonSchema q)) py
       = GetHash (fun q => list_byte_of_string (ApiVersion q ++ JsonSchema q))
           (fst (client.build Validate
                   (client.OfResourcePolicy
                      (client.NewResourcePolicy "leave_request" "20210210")))).
Proof.
  apply hash_stability.
  - intros fmt q. eexists. split; [reflexivity|]. reflexivity.
  - reflexivity.
Defined.

(** C6. A stream of more than one top-level document is rejected with the
    error "multiple policies in one file": the loader returns no policy,
    whatever the first document decodes to. *)
Theorem ReadPolicy_rejects_multiple_documents {Raw : Type}
    (decode : Format -> Raw -> option Policy) (s : Stream) :
  1 < length (documents s) ->
  ReadPolicy decode s = Err MultiplePolicies
  /\ message MultiplePolicies = "multiple policies in one file"
  /\ forall p, ReadPolicy decode s <> Ok p.
Proof.
  intros Hlen. unfold ReadPolicy.
  destruct (documents s) as [|d1 [|d2 ds]]; simpl in Hlen; try lia.
  repeat split. done.
Qed.

Lemma ReadPolicy_rejects_multiple_documents_witness :
  ReadPolicy (fun _ (d : Policy) => Some d)
    {| format := YAML;
       documents :=
         [fst (client.build Validate
                 (client.OfResourcePolicy
                    (client.NewResourcePolicy "leave_request" "20210210")));
          fst (client.build Validate
                 (client.OfPrincipalPolicy
                    (client.NewPrincipalPolicy "donald_duck" "20210210")))] |}
  = Err MultiplePolicies
  /\ message MultiplePolicies = "multiple policies in one file"
  /\ forall p,
       ReadPolicy (fun _ (d : Policy) => Some d)
         {| format := YAML;
            documents :=
              [fst (client.build Validate
                      (client.OfResourcePolicy
                         (client.NewResourcePolicy "leave_request" "20210210")));
               fst (client.build Validate
                      (client.OfPrincipalPolicy
                         (client.NewPrincipalPolicy "donald_duck" "20210210")))] |}
       <> Ok p.
Proof.
  apply ReadPolicy_rejects_multiple_documents. simpl. lia.
Defined.

(** The first document alone would have been read. *)
Example ReadPolicy_single_document :
  ReadPolicy (fun _ (d : Policy) => Some d)
    {| format := YAML;
       documents :=
         [fst (client.build Validate
                 (client.OfResourcePolicy
                    (client.NewResourcePolicy "leave_request" "20210210")))] |}
  = Ok (fst (client.build Validate
               (client.OfResourcePolicy
                  (client.NewResourcePolicy "leave_request" "20210210")))).
Proof. reflexivity. Qed.

End LoaderFacts.

(** ** The engine *)
Section EngineFacts.
Import policyv1 JSONSchema engine.

(** The globs of section 8. *)
Example action_globs :
  matches "view:public" "view:*" = true
  /\ matches "approve" "*" = true
  /\ matches "approve" "view:*" = false.
Proof. by repeat split. Qed.

Example scope_chain_abc : scope_chain "a.b.c" = ["a.b.c"; "a.b"; "a"; ""].
Proof. reflexivity. Qed.

(** The principal policy of [donald_duck] decides both actions of the
    request before any other policy is looked at. *)
Lemma check_donald_duck_dev_record
    (eval : string -> CheckInput -> option bool) (others : list Policy)
    (defaultPolicyVersion : string) (c : option Condition) :
  holds eval c donald_duck_dev_record = true ->
  check eval (donald_duck_policy c :: others) defaultPolicyVersion
        donald_duck_dev_record
  = donald_duck_dev_record_want.
Proof. intros Hc. cbv - [holds] in Hc |- *. by rewrite !Hc. Qed.

(** With a policy that attaches no condition to its actions nothing is left
    to assume. *)
Corollary check_donald_duck_unconditional
    (eval : string -> CheckInput -> option bool) (others : list Policy)
    (defaultPolicyVersion : string) :
  check eval (donald_duck_policy None :: others) defaultPolicyVersion
        donald_duck_dev_record
  = donald_duck_dev_record_want.
Proof. by apply check_donald_duck_dev_record. Qed.

(** Without the principal policy the resource policy [deny_leave_requests]
    decides the same request, and denies it. *)
Example resource_policy_alone :
  assoc "approve"
    (o_actions (check eval_dev_record [deny_leave_requests] "default"
                      donald_duck_dev_record))
  = Some {| effect := EFFECT_DENY;
            policy := "resource.leave_request.v20210210";
            scope := "" |}.
Proof. reflexivity. Qed.

(** A decision of the principal policies is the decision of the action. *)
Lemma principal_phase_decides
    (eval : string -> CheckInput -> option bool) (store : list Policy)
    (defaultPolicyVersion : string) (input : CheckInput) (action : string)
    (d : ActionEffect) :
  principal_phase eval store defaultPolicyVersion
    (scope_chain (p_scope (principal input))) action input = Some d ->
  check_action eval store defaultPolicyVersion input action = (d, []).
Proof. intros H. unfold check_action. by rewrite H. Qed.

(** A decision of the resource policies names the policy of the resource's
    kind and of the resource's version, at a scope of the chain. *)
Lemma resource_phase_policy
    (eval : string -> CheckInput -> option bool) (store : list Policy)
    (defaultPolicyVersion : string) (input : CheckInput) (action : string) :
  forall chain d active,
    resource_phase eval store defaultPolicyVersion chain action input
    = (Some d, active) ->
    exists sc, sc ∈ chain
      /\ policy d
         = resource_policy_id (r_kind (resource input))
             (version_or_default defaultPolicyVersion
                (r_policyVersion (resource input))) sc.
Proof.
  induction chain as [|sc chain IH]; intros d active H; simpl in H; [done|].
  destruct (find_resource_policy store _ _ sc) as [rp|].
  - destruct (first_resource_rule eval _ _ action input) as [e|].
    + injection H as <- _. exists sc. split; [by left|done].
    + destruct (resource_phase eval store defaultPolicyVersion chain action input)
        as [[d'|] active'] eqn:Hrest; simpl in H; [|done].
      injection H as -> _. destruct (IH d active' eq_refl) as (sc' & Hin & Hp).
      exists sc'. split; [by right|done].
  - destruct (IH d active H) as (sc' & Hin & Hp).
    exists sc'. split; [by right|done].
Qed.

(** A policy behind others that are not principal policies of its identity
    is the principal policy that the engine finds. *)
Lemma find_principal_policy_app (before after : list Policy)
    (pp : PrincipalPolicy.t) (p : Policy) (id version sc : string) :
  find_principal_policy before id version sc = None ->
  PolicyType p = Some (Policy_PrincipalPolicy pp) ->
  PrincipalPolicy.Principal pp = id ->
  PrincipalPolicy.Version pp = version ->
  PrincipalPolicy.Scope pp = sc ->
  find_principal_policy (before ++ p :: after) id version sc = Some pp.
Proof.
  intros Hnone Hp Hid Hv Hsc.
  induction before as [|q before IH]; simpl in *.
  - rewrite Hp, Hid, Hv, Hsc, !String.eqb_refl. done.
  - destruct (PolicyType q) as [[rp|pp'|dr|ev]|]; try (by apply IH).
    destruct (_ && _); [done|by apply IH].
Qed.

(** The principal policy of [donald_duck] decides each of the two actions,
    wherever it stands in the store. *)
Lemma principal_phase_donald_duck
    (eval : string -> CheckInput -> option bool) (before after : list Policy)
    (defaultPolicyVersion : string) (c : option Condition) (action : string) :
  action ∈ ["approve"; "view:public"] ->
  find_principal_policy before "donald_duck" "20210210" "" = None ->
  holds eval c donald_duck_dev_record = true ->
  check_action eval (before ++ donald_duck_policy c :: after) defaultPolicyVersion
    donald_duck_dev_record action
  = ({| effect := EFFECT_ALLOW;
        policy := "principal.donald_duck.v20210210";
        scope := "" |}, []).
Proof.
  intros Hin Hnone Hc. apply principal_phase_decides.
  simpl scope_chain. change (scope_chain "") with [""]. cbn [principal_phase].
  change (version_or_default defaultPolicyVersion
            (p_policyVersion (principal donald_duck_dev_record)))
    with "20210210".
  change (p_id (principal donald_duck_dev_record)) with "donald_duck".
  erewrite find_principal_policy_app; [|exact Hnone|reflexivity..].
  repeat (apply elem_of_cons in Hin as [->|Hin]);
    [| |by apply elem_of_nil in Hin];
    cbv - [holds] in Hc |- *; by rewrite !Hc.
Qed.

(** C1. The principal policy is consulted before any resource policy.
    Wherever the principal policy of [donald_duck] that allows [approve] and
    [view:public] on [leave_request] stands in the store, whatever policies
    stand before and after it (resource policies that deny the request
    included, as long as no other principal policy of the same identity comes
    first), and whenever the condition of that policy holds on the request
    for the resource [XX125] with [dev_record: true], the engine returns the
    output the test case wants: [approve] is decided [EFFECT_ALLOW] by
    [principal.donald_duck.v20210210]. *)
Theorem principal_policy_precedence
    (eval : string -> CheckInput -> option bool) (before after : list Policy)
    (defaultPolicyVersion : string) (c : option Condition) :
  find_principal_policy before "donald_duck" "20210210" "" = None ->
  holds eval c donald_duck_dev_record = true ->
  check eval (before ++ donald_duck_policy c :: after) defaultPolicyVersion
        donald_duck_dev_record
  = donald_duck_dev_record_want
  /\ assoc "approve"
       (o_actions (check eval (before ++ donald_duck_policy c :: after)
                         defaultPolicyVersion donald_duck_dev_record))
     = Some {| effect := EFFECT_ALLOW;
               policy := "principal.donald_duck.v20210210";
               scope := "" |}.
Proof.
  intros Hnone Hc.
  assert (Hcheck : check eval (before ++ donald_duck_policy c :: after)
                     defaultPolicyVersion donald_duck_dev_record
                   = donald_duck_dev_record_want).
  { unfold check. simpl actions. cbn [map].
    rewrite !principal_phase_donald_duck by (done || (by left) || (by right; left)).
    reflexivity. }
  by rewrite Hcheck.
Qed.

(** The resource policy that denies the request stands first in the store. *)
Lemma principal_policy_precedence_witness :
  check eval_dev_record
    ([deny_leave_requests]
     ++ donald_duck_policy
          (Some (Condition_Match
                   (Match_Expr "request.resource.attr.dev_record == true")))
        :: [])
    "default" donald_duck_dev_record
  = donald_duck_dev_record_want
  /\ assoc "approve"
       (o_actions
          (check eval_dev_record
             ([deny_leave_requests]
              ++ donald_duck_policy
                   (Some (Condition_Match
                            (Match_Expr "request.resource.attr.dev_record == true")))
                 :: [])
             "default" donald_duck_dev_record))
     = Some {| effect := EFFECT_ALLOW;
               policy := "principal.donald_duck.v20210210";
               scope := "" |}.
Proof.
  apply principal_policy_precedence; reflexivity.
Defined.

End EngineFacts.

(** ** The index of the results *)
Section IndexFacts.
Import Index.

Lemma index_keys_lookup (keys : list (option string)) :
  forall i acc,
    None ∉ keys ->
    exists ix, index_keys i keys acc = Returns ix
      /\ forall id,
           ix !! id = match positions i keys id with
                      | [] => acc !! id
                      | ps => Some (default [] (acc !! id) ++ ps)%list
                      end.
Proof.
  induction keys as [|[k|] keys IH]; intros i acc Hnil; simpl.
  - eauto.
  - destruct (IH (S i) (<[k := (default [] (acc !! k) ++ [i])%list]> acc))
      as (ix & Hix & Hlook).
    { intros Hin. apply Hnil. by right. }
    exists ix. split; [done|]. intros id. rewrite Hlook.
    destruct (decide (Some k = Some id)) as [[= ->]|Hne].
    + rewrite lookup_insert_eq. simpl.
      destruct (positions (S i) keys id); simpl; [done|].
      by rewrite <- app_assoc.
    + rewrite lookup_insert_ne by congruence. done.
  - exfalso. apply Hnil. by left.
Qed.

Lemma index_keys_exact (keys : list (option string)) :
  None ∉ keys ->
  exists ix, index_keys 0 keys ∅ = Returns ix /\ exact keys ix.
Proof.
  intros Hnil. destruct (index_keys_lookup keys 0 ∅ Hnil) as (ix & Hix & Hlook).
  exists ix. split; [done|]. intros id. rewrite Hlook, lookup_empty.
  by destruct (positions 0 keys id).
Qed.

End IndexFacts.

(** ** The exact answer of the batch accessor *)
Section BatchAnswerFacts.
Import CheckResourceBatch CheckResourceBatchAnswer.

Lemma index_from_keys (rs : list (option ActionEffectMap)) :
  forall i acc, index_from i rs acc = Index.index_keys i (keys rs) acc.
Proof. induction rs as [|[r|] rs IH]; intros i acc; simpl; [done|apply IH|done]. Qed.

Lemma keys_decoded (m : Response) : decoded m -> None ∉ keys (Results m).
Proof.
  unfold decoded, keys. intros Hdec Hin. apply Hdec.
  apply list_elem_of_fmap in Hin as ([r|] & Heq & Hin); [discriminate|done].
Qed.

Lemma scan_positions (m : Response) (id a : string) :
  forall rs pre,
    Results m = (pre ++ rs)%list -> None ∉ rs ->
    scan (Some m) (Index.positions (length pre) (keys rs) id) a
    = Returns match first_listing rs id a with
              | Some e => is_allow e
              | None => false
              end.
Proof.
  induction rs as [|[r|] rs IH]; intros pre Hres Hnil; simpl.
  - done.
  - assert (Hrest : scan (Some m) (Index.positions (S (length pre)) (keys rs) id) a
                    = Returns match first_listing rs id a with
                              | Some e => is_allow e
                              | None => false
                              end).
    { specialize (IH (pre ++ [Some r])%list).
      rewrite length_app, Nat.add_1_r in IH. apply IH.
      - by rewrite <- app_assoc.
      - intros Hin. apply Hnil. by right. }
    destruct (decide (Some (ResourceId r) = Some id)) as [[= Heq]|Hne].
    + rewrite decide_True by done. simpl. rewrite Hres.
      rewrite lookup_app_r by lia. rewrite Nat.sub_diag. simpl.
      destruct (Actions r !! a); done.
    + rewrite decide_False by congruence. done.
  - exfalso. apply Hnil. by left.
Qed.

Lemma IsAllowed_indexes (m : Response) (crbr : CheckResourceBatchResponse)
    (id a : string) :
  decoded m -> indexes m crbr ->
  exists crbr',
    IsAllowed crbr id a
    = Returns (match first_listing (Results m) id a with
               | Some e => is_allow e
               | None => false
               end, crbr')
    /\ indexes m crbr' /\ once crbr' = true
    /\ (once crbr = true -> crbr' = crbr).
Proof.
  intros Hdec [Hemb Hidx].
  assert (Hb : exists crbr', buildIdx crbr = Returns crbr'
            /\ embedded crbr' = Some m /\ once crbr' = true
            /\ Index.exact (keys (Results m)) (idx crbr')
            /\ (once crbr = true -> crbr' = crbr)).
  { unfold buildIdx. destruct (once crbr) eqn:Honce.
    - destruct Hidx as [?|Hex]; [done|]. exists crbr. by repeat split.
    - rewrite Hemb, index_from_keys.
      destruct (Index.index_keys 0 (keys (Results m)) ∅) as [ix|] eqn:Hix;
        destruct (index_keys_exact (keys (Results m)) (keys_decoded m Hdec))
          as (ix' & Hix' & Hex); rewrite Hix in Hix'; [|done].
      injection Hix' as ->. simpl. eexists. repeat split; try done. }
  destruct Hb as (crbr' & Hbuild & Hemb' & Honce' & Hex & Hsame).
  exists crbr'. unfold IsAllowed. rewrite Hbuild. simpl. rewrite (Hex id).
  pose proof (scan_positions m id a (Results m) [] eq_refl Hdec) as Hscan.
  simpl in Hscan.
  split; [|by repeat split; eauto].
  destruct (Index.positions 0 (keys (Results m)) id) as [|j ps] eqn:Hps.
  - simpl in Hscan. injection Hscan as <-. done.
  - rewrite Hemb', Hscan. done.
Qed.

Lemma after_indexes (m : Response) :
  decoded m ->
  forall qs crbr, indexes m crbr ->
    exists crbr', after qs crbr = Returns crbr' /\ indexes m crbr'.
Proof.
  intros Hdec. induction qs as [|[id a] qs IH]; intros crbr Hw; simpl.
  - eauto.
  - destruct (IsAllowed_indexes m crbr id a Hdec Hw) as (crbr' & Hcall & Hw' & _).
    rewrite Hcall. simpl. by apply IH.
Qed.

(** X1. When several results carry the same resource id, the first of them that
    lists the action decides: on a response without nil results, and after
    any earlier calls, [IsAllowed] returns whether the effect that this
    result records is [EFFECT_ALLOW], and false when there is no such
    result. *)
Theorem batch_IsAllowed_first_listing (m : Response)
    (qs : list (string * string)) (resourceID action : string) :
  decoded m ->
  exists crbr crbr',
    after qs (wrap m) = Returns crbr
    /\ IsAllowed crbr resourceID action
       = Returns (match first_listing (Results m) resourceID action with
                  | Some e => is_allow e
                  | None => false
                  end, crbr').
Proof.
  intros Hdec.
  destruct (after_indexes m Hdec qs (wrap m)) as (crbr & Hafter & Hw);
    [split; [done|by left]|].
  destruct (IsAllowed_indexes m crbr resourceID action Hdec Hw)
    as (crbr' & Hcall & _).
  eauto.
Qed.

Lemma batch_IsAllowed_first_listing_witness :
  exists crbr crbr',
    after [("XX150", "view")]
      (wrap {| Results :=
                 [Some {| ResourceId := "XX125";
                          Actions := {["view" := EFFECT_ALLOW]} |};
                  Some {| ResourceId := "XX125";
                          Actions := {["approve" := EFFECT_DENY]} |};
                  Some {| ResourceId := "XX125";
                          Actions := {["approve" := EFFECT_ALLOW]} |}] |})
    = Returns crbr
    /\ IsAllowed crbr "XX125" "approve"
       = Returns (match
                    first_listing
                      [Some {| ResourceId := "XX125";
                               Actions := {["view" := EFFECT_ALLOW]} |};
                       Some {| ResourceId := "XX125";
                               Actions := {["approve" := EFFECT_DENY]} |};
                       Some {| ResourceId := "XX125";
                               Actions := {["approve" := EFFECT_ALLOW]} |}]
                      "XX125" "approve"
                  with
                  | Some e => is_allow e
                  | None => false
                  end, crbr').
Proof.
  apply (batch_IsAllowed_first_listing
           {| Results :=
                [Some {| ResourceId := "XX125";
                         Actions := {["view" := EFFECT_ALLOW]} |};
                 Some {| ResourceId := "XX125";
                         Actions := {["approve" := EFFECT_DENY]} |};
                 Some {| ResourceId := "XX125";
                         Actions := {["approve" := EFFECT_ALLOW]} |}] |}).
  unfold decoded. simpl. intros H.
  repeat (apply elem_of_cons in H as [H|H]; [discriminate|]).
  by apply elem_of_nil in H.
Defined.

(** X2. Once the index is built a call leaves the wrapper as it is, and asking
    again gives the same answer. *)
Theorem batch_IsAllowed_again (m : Response) (resourceID action : string) :
  decoded m ->
  exists b crbr,
    IsAllowed (wrap m) resourceID action = Returns (b, crbr)
    /\ forall id' a', exists b',
         IsAllowed crbr id' a' = Returns (b', crbr)
         /\ (id' = resourceID -> a' = action -> b' = b).
Proof.
  intros Hdec.
  destruct (IsAllowed_indexes m (wrap m) resourceID action Hdec)
    as (crbr & Hcall & Hw & Honce & _); [split; [done|by left]|].
  eexists _, crbr. split; [exact Hcall|].
  intros id' a'.
  destruct (IsAllowed_indexes m crbr id' a' Hdec Hw) as (crbr' & Hcall' & _ & _ & Hsame).
  rewrite (Hsame Honce) in Hcall'. eexists. split; [exact Hcall'|].
  by intros -> ->.
Qed.

Lemma batch_IsAllowed_again_witness :
  exists b crbr,
    IsAllowed
      (wrap {| Results := [Some {| ResourceId := "XX125";
                                   Actions := {["approve" := EFFECT_ALLOW]} |}] |})
      "XX125" "approve" = Returns (b, crbr)
    /\ forall id' a', exists b',
         IsAllowed crbr id' a' = Returns (b', crbr)
         /\ (id' = "XX125" -> a' = "approve" -> b' = b).
Proof.
  apply batch_IsAllowed_again.
  unfold decoded. simpl. intros H.
  apply list_elem_of_singleton in H. discriminate.
Defined.

End BatchAnswerFacts.

(** ** The response of the CheckResources call *)
Section CheckResourcesFacts.
Import CheckResources.

Context {Value E : Type}.
Context (not_found : string -> E).
Context (failed_validation : string -> ValidationError -> E).
Context (Append : option E -> E -> E).

Lemma cr_index_from_keys (rs : list (option (ResultEntry (Value := Value)))) :
  forall i acc, index_from i rs acc = Index.index_keys i (map key rs) acc.
Proof.
  induction rs as [|r rs IH]; intros i acc; simpl; [done|].
  destruct (key r); [apply IH|done].
Qed.

Lemma cr_keys_decoded (m : Response (Value := Value)) :
  decoded m -> None ∉ map key (Results m).
Proof.
  intros Hdec Hin. apply list_elem_of_fmap in Hin as (r & Heq & Hin).
  destruct (Hdec r Hin) as (r' & -> & [res Hres] & _).
  simpl in Heq. by rewrite Hres in Heq.
Qed.

Lemma all_match_on_resource (ps : list (ResultEntry_Resource -> bool))
    (res : ResultEntry_Resource) :
  forall found,
    all_match (map on_resource ps) found (Some res)
    = Returns (found && forallb (fun p => p res) ps).
Proof.
  induction ps as [|p ps IH]; intros found; simpl.
  - by rewrite andb_true_r.
  - destruct found; simpl; rewrite IH; [done|]. done.
Qed.

Lemma find_positions (m : Response (Value := Value)) (id : string)
    (ps : list (ResultEntry_Resource -> bool)) :
  forall rs pre,
    Results m = (pre ++ rs)%list -> None ∉ map key rs ->
    find (Some m) (Index.positions (length pre) (map key rs) id)
         (map on_resource ps)
    = Returns (first_match rs id ps).
Proof.
  induction rs as [|r rs IH]; intros pre Hres Hnil; simpl; [done|].
  assert (Hrest : find (Some m) (Index.positions (S (length pre)) (map key rs) id)
                       (map on_resource ps)
                  = Returns (first_match rs id ps)).
  { specialize (IH (pre ++ [r])%list).
    rewrite length_app, Nat.add_1_r in IH. apply IH.
    - by rewrite <- app_assoc.
    - intros Hin. apply Hnil. by right. }
  destruct r as [r|]; [|exfalso; apply Hnil; by left].
  destruct (Resource r) as [res|] eqn:Hr;
    [|exfalso; apply Hnil; simpl; rewrite Hr; by left].
  simpl. rewrite Hr.
  destruct (String.eqb (Id res) id) eqn:Hid.
  - apply String.eqb_eq in Hid. rewrite decide_True by congruence. simpl.
    rewrite Hres, lookup_app_r by lia. rewrite Nat.sub_diag. simpl.
    rewrite Hr, all_match_on_resource. simpl.
    destruct (forallb (fun p => p res) ps); [done|]. done.
  - apply String.eqb_neq in Hid. rewrite decide_False by congruence. done.
Qed.

Lemma GetResource_indexes (m : Response (Value := Value))
    (crr : CheckResourcesResponse) (id : string)
    (ps : list (ResultEntry_Resource -> bool)) :
  decoded m -> indexes m crr ->
  exists crr',
    GetResource not_found crr id (map on_resource ps)
    = Returns (lookup_result not_found m id ps, crr')
    /\ indexes m crr' /\ once crr' = true
    /\ (once crr = true -> crr' = crr).
Proof.
  intros Hdec [Hemb Hidx].
  pose proof (cr_keys_decoded m Hdec) as Hkeys.
  assert (Hb : exists crr', buildIdx crr = Returns crr'
            /\ embedded crr' = Some m /\ once crr' = true
            /\ Index.exact (map key (Results m)) (idx crr')
            /\ (once crr = true -> crr' = crr)).
  { unfold buildIdx. destruct (once crr) eqn:Honce.
    - destruct Hidx as [?|Hex]; [done|]. exists crr. by repeat split.
    - rewrite Hemb, cr_index_from_keys.
      destruct (index_keys_exact (map key (Results m)) Hkeys) as (ix & Hix & Hex).
      rewrite Hix. simpl. eexists. repeat split; try done. }
  destruct Hb as (crr' & Hbuild & Hemb' & Honce' & Hex & Hsame).
  exists crr'. unfold GetResource. rewrite Hbuild. simpl. rewrite (Hex id).
  pose proof (find_positions m id ps (Results m) [] eq_refl Hkeys) as Hfind.
  simpl in Hfind. unfold lookup_result.
  split; [|by repeat split; eauto].
  destruct (Index.positions 0 (map key (Results m)) id) as [|j js] eqn:Hps.
  - simpl in Hfind. injection Hfind as <-. done.
  - rewrite Hemb', Hfind. simpl.
    by destruct (first_match (Results m) id ps).
Qed.

(** X3. [GetResource] on a response without nil entries returns the first
    result, in the order of the response, that carries the resource id and
    that all the matchers accept, and a result with its error set when there
    is none; the same holds for every later call on the same response. *)
Theorem GetResource_first_match (m : Response (Value := Value))
    (resourceID : string) (ps : list (ResultEntry_Resource -> bool)) :
  decoded m ->
  exists crr,
    GetResource not_found (wrap m) resourceID (map on_resource ps)
    = Returns (lookup_result not_found m resourceID ps, crr)
    /\ forall id' ps',
         GetResource not_found crr id' (map on_resource ps')
         = Returns (lookup_result not_found m id' ps', crr).
Proof.
  intros Hdec.
  destruct (GetResource_indexes m (wrap m) resourceID ps Hdec)
    as (crr & Hcall & Hw & Honce & _); [split; [done|by left]|].
  exists crr. split; [done|]. intros id' ps'.
  destruct (GetResource_indexes m crr id' ps' Hdec Hw) as (crr' & Hcall' & _ & _ & Hsame).
  by rewrite (Hsame Honce) in Hcall'.
Qed.

(** X4. The answer of [GetResource(...).IsAllowed(action)]: whether the first
    matching result records [EFFECT_ALLOW] for the action; false, without a
    panic, when no result matches. *)
Theorem GetResource_IsAllowed (Error : E -> string)
    (m : Response (Value := Value))
    (resourceID action : string) (ps : list (ResultEntry_Resource -> bool)) :
  decoded m ->
  exists rr crr,
    GetResource not_found (wrap m) resourceID (map on_resource ps)
    = Returns (rr, crr)
    /\ IsAllowed (Some rr) action
       = Returns match first_match (Results m) resourceID ps with
                 | Some r => is_allow (default EFFECT_UNSPECIFIED (Actions r !! action))
                 | None => false
                 end
    /\ ResourceResult.IsAllowed (Some (forget Error rr)) action
       = IsAllowed (Some rr) action.
Proof.
  intros Hdec.
  destruct (GetResource_indexes m (wrap m) resourceID ps Hdec)
    as (crr & Hcall & _); [split; [done|by left]|].
  eexists _, crr. split; [exact Hcall|].
  unfold lookup_result.
  by destruct (first_match (Results m) resourceID ps).
Qed.

Lemma all_match_combined (kind version scope : string)
    (r : option ResultEntry_Resource) :
  all_match [MatchResourcePolicyKindScopeVersion kind version scope] true r
  = all_match [MatchResourceKind kind; MatchResourcePolicyVersion version;
               MatchResourceScope scope] true r.
Proof.
  destruct r as [r|]; simpl; [|done].
  destruct (String.eqb (Kind r) kind); simpl; [|done].
  by destruct (String.eqb (PolicyVersion r) version).
Qed.

(** X5. The combined matcher is the three single matchers together: for every
    wrapper, [GetResource] with [MatchResourcePolicyKindScopeVersion] and
    [GetResource] with the matchers of the kind, the version and the scope
    have the same outcome. *)
Theorem GetResource_combined_matcher
    (crr : CheckResourcesResponse (Value := Value))
    (resourceID kind version scope : string) :
  GetResource not_found crr resourceID
    [MatchResourcePolicyKindScopeVersion kind version scope]
  = GetResource not_found crr resourceID
      [MatchResourceKind kind; MatchResourcePolicyVersion version;
       MatchResourceScope scope].
Proof.
  unfold GetResource. destruct (buildIdx crr) as [crr'|]; simpl; [|done].
  destruct (idx crr' !! resourceID) as [ixs|]; [|done].
  assert (Hfind : find (embedded crr') ixs
                    [MatchResourcePolicyKindScopeVersion kind version scope]
                  = find (embedded crr') ixs
                      [MatchResourceKind kind; MatchResourcePolicyVersion version;
                       MatchResourceScope scope]).
  { induction ixs as [|i ixs IH]; [done|].
    cbn [find]. destruct (embedded crr') as [m|]; [|done].
    destruct (Results m !! i) as [[r|]|]; [|exact IH|done].
    rewrite all_match_combined.
    destruct (all_match _ true (Resource r)) as [[]|]; simpl; [done|exact IH|done]. }
  by rewrite Hfind.
Qed.

Lemma fold_outputs_lookup (k : string) (outs : list (option (OutputEntry (Value := Value)))) :
  forall acc : gmap string (option Value),
    fold_left (fun acc o => <[GetSrc o := GetVal o]> acc) outs acc !! k
    = match last (filter (fun o => GetSrc o = k) outs) with
      | Some o => Some (GetVal o)
      | None => acc !! k
      end.
Proof.
  induction outs as [|o outs IH]; intros acc; simpl; [done|].
  rewrite IH, filter_cons. destruct (decide (GetSrc o = k)) as [Heq|Hne].
  - rewrite last_cons. destruct (last (filter _ outs)); [done|].
    by rewrite <- Heq, lookup_insert_eq.
  - destruct (last (filter _ outs)); [done|]. by rewrite lookup_insert_ne.
Qed.

(** X6. [Output] never panics, whether the receiver is nil, carries an error or
    has no outputs: it returns the value of the last output whose source is
    the key, and nil when there is none; later calls read what the first
    call built and answer the same. *)
Theorem Output_last (rr : ResourceResult (Value := Value) (E := E)) (k : string) :
  fresh rr ->
  Output (None (A := ResourceResult (Value := Value) (E := E))) k
  = Returns (None, None)
  /\ exists rr',
       Output (Some rr) k = Returns (last_output (GetOutputs rr) k, Some rr')
       /\ forall k',
            Output (Some rr') k' = Returns (last_output (GetOutputs rr) k', Some rr').
Proof.
  intros [Honce Hmap]. split; [done|].
  assert (Hlook : forall (l : list (option (OutputEntry (Value := Value)))) k',
            match fold_left (fun acc o => <[GetSrc o := GetVal o]> acc) l
                            (∅ : gmap string (option Value)) !! k' with
            | Some v => v
            | None => None
            end
            = match last (filter (fun o => GetSrc o = k') l) with
              | Some o => GetVal o
              | None => None
              end).
  { intros l k'. rewrite fold_outputs_lookup, lookup_empty.
    by destruct (last (filter _ l)). }
  unfold Output, buildOutputMap, last_output, GetOutputs. rewrite Honce, Hmap.
  destruct (entry rr) as [e|] eqn:He.
  - destruct (Outputs e) as [|o outs] eqn:Houts.
    + eexists. split; [reflexivity|]. done.
    + rewrite <- Houts. cbn [obind outputMap outputOnce].
      eexists. split.
      * f_equal. f_equal. apply Hlook.
      * intros k'. cbn [obind outputMap outputOnce]. f_equal. f_equal. apply Hlook.
  - eexists. split; [reflexivity|]. done.
Qed.

Lemma append_errors_decoded (r : ResultEntry (Value := Value))
    (res : ResultEntry_Resource) :
  Resource r = Some res ->
  forall verrs acc,
    None ∉ verrs ->
    exists e, append_errors failed_validation Append r verrs acc = Returns e
      /\ (e = None <-> acc = None /\ verrs = []).
Proof.
  intros Hres. induction verrs as [|[v|] verrs IH]; intros acc Hnil; simpl.
  - exists acc. split; [done|]. split; [by intros ->|by intros [-> _]].
  - rewrite Hres.
    destruct (IH (Some (Append acc (failed_validation (Id res) v))))
      as (e & He & Hiff).
    { intros Hin. apply Hnil. by right. }
    exists e. split; [done|]. split.
    + intros Hnone. apply Hiff in Hnone as [? _]. done.
    + intros [_ ?]. done.
  - exfalso. apply Hnil. by left.
Qed.

Lemma all_errors_decoded (rs : list (option (ResultEntry (Value := Value)))) :
  (forall r, r ∈ rs ->
     exists r', r = Some r' /\ is_Some (Resource r') /\ None ∉ ValidationErrors r') ->
  forall acc,
    exists e, all_errors failed_validation Append rs acc = Returns e
      /\ (e = None <->
          acc = None /\ forall r, Some r ∈ rs -> ValidationErrors r = []).
Proof.
  induction rs as [|r rs IH]; intros Hdec acc; simpl.
  - exists acc. split; [done|]. split; [|by intros [? _]].
    intros ->. split; [done|]. intros r Hin. by apply elem_of_nil in Hin.
  - destruct (Hdec r) as (r' & -> & [res Hres] & Hnil); [by left|].
    destruct (append_errors_decoded r' res Hres (ValidationErrors r') acc Hnil)
      as (e1 & He1 & Hiff1).
    rewrite He1. simpl.
    destruct (IH (fun r0 Hin => Hdec r0 (proj2 (elem_of_cons _ _ _) (or_intror Hin))) e1)
      as (e & He & Hiff).
    exists e. split; [done|]. rewrite Hiff, Hiff1. split.
    + intros [[-> Hr'] Hrest]. split; [done|].
      intros r Hin. apply elem_of_cons in Hin as [[= ->]|Hin]; auto.
    + intros [-> Hall]. split; [split; [done|]|].
      * apply Hall. by left.
      * intros r Hin. apply Hall. by right.
Qed.

(** X7. [Errors] on a response without nil entries returns, and what it returns
    is nil exactly when no result carries a validation error. *)
Theorem Errors_nil_iff (m : Response (Value := Value)) :
  decoded m ->
  exists e,
    Errors failed_validation Append (wrap m) = Returns e
    /\ (e = None <-> forall r, Some r ∈ Results m -> ValidationErrors r = []).
Proof.
  intros Hdec. unfold Errors. simpl.
  destruct (all_errors_decoded (Results m) Hdec None) as (e & He & Hiff).
  exists e. split; [done|]. rewrite Hiff. split; [by intros [_ ?]|by split].
Qed.

End CheckResourcesFacts.

(** ** The request builders *)
Section RequestsFacts.
Import requests.

Context {any Value E : Type}.
Context (ToStructPB NewValue : any -> E + Value).
Context (invalid_attribute invalid_resource : string -> E -> E).
Context (empty_batch : E).
Context (Append : option E -> E -> E).
Context (Validate_principal : enginev1.Principal.t Value -> option E).
Context (Validate_resource : enginev1.Resource.t Value -> option E).
Context (Validate_entry : ResourceEntry (Value := Value) -> option E).

Lemma range_attr_lookup (conv : any -> E + Value) (kvs : list (string * any)) :
  NoDup kvs.*1 ->
  forall st k,
    fst (range_attr invalid_attribute Append conv kvs st) !! k
    = match (list_to_map kvs : gmap string any) !! k ≫= converted conv with
      | Some pb => Some pb
      | None => fst st !! k
      end.
Proof.
  unfold range_attr. induction kvs as [|[k1 v1] kvs IH]; intros Hnd st k; simpl.
  - by rewrite lookup_empty.
  - apply NoDup_cons in Hnd as [Hk1 Hnd]. rewrite (IH Hnd).
    assert (Hfresh : (list_to_map kvs : gmap string any) !! k1 = None)
      by (by apply not_elem_of_list_to_map).
    destruct (decide (k = k1)) as [->|Hne].
    + rewrite Hfresh, lookup_insert_eq. simpl.
      unfold range_step, converted. simpl.
      destruct (conv v1); simpl; [done|by rewrite lookup_insert_eq].
    + rewrite lookup_insert_ne by done.
      destruct (list_to_map kvs !! k ≫= converted conv); [done|].
      unfold range_step. simpl. destruct (conv v1); simpl; [done|].
      by rewrite lookup_insert_ne.
Qed.

Lemma range_attr_err (conv : any -> E + Value) (kvs : list (string * any)) :
  forall st,
    is_Some (snd (range_attr invalid_attribute Append conv kvs st))
    <-> is_Some (snd st) \/ Exists (fun kv => converted conv (snd kv) = None) kvs.
Proof.
  unfold range_attr. induction kvs as [|[k1 v1] kvs IH]; intros st; simpl.
  - rewrite Exists_nil. split; [by left|by intros [?|[]]].
  - rewrite IH, Exists_cons. unfold range_step, converted. simpl.
    destruct (conv v1); simpl; split.
    + intros [_|?]; eauto.
    + intros _. eauto.
    + intros [?|?]; eauto.
    + intros [?|[?|?]]; eauto. done.
Qed.

Lemma range_attr_map (conv : any -> E + Value) (attr : gmap string any)
    (kvs : list (string * any)) (st : gmap string Value * option E) :
  kvs ≡ₚ map_to_list attr ->
  fst (range_attr invalid_attribute Append conv kvs st)
  = omap (converted conv) attr ∪ fst st
  /\ (is_Some (snd (range_attr invalid_attribute Append conv kvs st))
      <-> is_Some (snd st)
          \/ exists k v, attr !! k = Some v /\ converted conv v = None).
Proof.
  intros Hperm.
  assert (Hnd : NoDup kvs.*1).
  { rewrite Hperm. apply NoDup_fst_map_to_list. }
  assert (Hmap : (list_to_map kvs : gmap string any) = attr).
  { rewrite (list_to_map_proper kvs (map_to_list attr) Hnd Hperm).
    apply list_to_map_to_list. }
  split.
  - apply map_eq. intros k. rewrite (range_attr_lookup conv kvs Hnd), Hmap.
    rewrite lookup_union, lookup_omap.
    destruct (attr !! k ≫= converted conv); simpl.
    + by destruct (fst st !! k).
    + by destruct (fst st !! k).
  - rewrite range_attr_err, Exists_exists. split.
    + intros [?|([k v] & Hin & Hc)]; [by left|right].
      exists k, v. split; [|done].
      rewrite Hperm in Hin. by apply elem_of_map_to_list in Hin.
    + intros [?|(k & v & Hk & Hc)]; [by left|right].
      exists (k, v). split; [|done].
      rewrite Hperm. by apply elem_of_map_to_list.
Qed.

(** X8. [WithAttributes] merges: whatever the order in which Go visits the map,
    the attributes afterwards are the convertible entries of the argument
    over the attributes before, and an error is recorded exactly when one
    was recorded before or some entry cannot be converted. The entry that
    cannot be converted leaves the earlier value of its key in place. *)
Theorem WithAttributes_any_order (attr : gmap string any)
    (kvs : list (string * any))
    (pr : Principal (Value := Value) (E := E))
    (res : Resource (Value := Value) (E := E)) :
  kvs ≡ₚ map_to_list attr ->
  (Principal_attrs
     (Principal_WithAttributes ToStructPB invalid_attribute Append kvs pr)
   = omap (converted ToStructPB) attr ∪ Principal_attrs pr
   /\ (is_Some (p_err (Principal_WithAttributes ToStructPB invalid_attribute
                         Append kvs pr))
       <-> is_Some (p_err pr)
           \/ exists k v, attr !! k = Some v /\ converted ToStructPB v = None))
  /\ (Resource_attrs
        (Resource_WithAttributes ToStructPB invalid_attribute Append kvs res)
      = omap (converted ToStructPB) attr ∪ Resource_attrs res
      /\ (is_Some (r_err (Resource_WithAttributes ToStructPB invalid_attribute
                            Append kvs res))
          <-> is_Some (r_err res)
              \/ exists k v, attr !! k = Some v /\ converted ToStructPB v = None)).
Proof.
  intros Hperm. split.
  - destruct (range_attr_map ToStructPB attr kvs
                (Principal_attrs pr, p_err pr) Hperm) as [Hm He].
    split; [exact Hm|exact He].
  - destruct (range_attr_map ToStructPB attr kvs
                (Resource_attrs res, r_err res) Hperm) as [Hm He].
    split; [exact Hm|exact He].
Qed.

(** X9. [AddResourceInstance] replaces: whatever the order in which Go visits the
    map, the instance of the id afterwards holds exactly the convertible
    attributes of the argument, nothing of an earlier instance of the same
    id, and the other instances are untouched. The instance is stored also
    when an attribute cannot be converted; the error is then recorded. *)
Theorem AddResourceInstance_replaces (id : string) (attr : gmap string any)
    (kvs : list (string * any)) (s : ResourceSet (Value := Value) (E := E)) :
  kvs ≡ₚ map_to_list attr ->
  instances (AddResourceInstance NewValue invalid_attribute Append id kvs s)
  = <[id := omap (converted NewValue) attr]> (instances s)
  /\ (is_Some (rs_err (AddResourceInstance NewValue invalid_attribute Append
                         id kvs s))
      <-> is_Some (rs_err s)
          \/ exists k v, attr !! k = Some v /\ converted NewValue v = None).
Proof.
  intros Hperm.
  destruct (range_attr_map NewValue attr kvs (∅, rs_err s) Hperm) as [Hm He].
  split; [|exact He].
  unfold instances, AddResourceInstance. simpl. rewrite Hm. simpl.
  by rewrite (right_id_L ∅ (∪)).
Qed.

Lemma Principal_call_err (pr : Principal (Value := Value) (E := E))
    (c : PrincipalCall) :
  is_Some (p_err (Principal_call ToStructPB invalid_attribute Append pr c))
  <-> is_Some (p_err pr) \/ unconvertible ToStructPB c.
Proof.
  destruct c as [v|roles|sc|kvs|k v]; simpl.
  - split; [by left|by intros [?|[]]].
  - split; [by left|by intros [?|[]]].
  - split; [by left|by intros [?|[]]].
  - apply range_attr_err.
  - unfold Principal_WithAttr, converted.
    destruct (ToStructPB v); simpl; split; eauto.
    intros [?|?]; done.
Qed.

(** X10. An error, once recorded, stays. After a chain of calls the principal
    carries an error exactly when it carried one before or some call handed
    over a value that cannot be converted; [Validate] then returns an error,
    whatever the message looks like, also when the attribute was set again
    to a value that converts. *)
Theorem Principal_error_stays (cs : list PrincipalCall)
    (pr : Principal (Value := Value) (E := E)) :
  (is_Some (p_err (Principal_calls ToStructPB invalid_attribute Append cs pr))
   <-> is_Some (p_err pr) \/ Exists (unconvertible ToStructPB) cs)
  /\ (is_Some (p_err pr) \/ Exists (unconvertible ToStructPB) cs ->
      is_Some (Principal_Validate Validate_principal
                 (Principal_calls ToStructPB invalid_attribute Append cs pr))).
Proof.
  assert (Hiff : forall cs pr,
            is_Some (p_err (Principal_calls ToStructPB invalid_attribute Append
                              cs pr))
            <-> is_Some (p_err pr) \/ Exists (unconvertible ToStructPB) cs).
  { clear cs pr. unfold Principal_calls.
    induction cs as [|c cs IH]; intros pr; simpl.
    - rewrite Exists_nil. split; [by left|by intros [?|[]]].
    - rewrite IH, Principal_call_err, Exists_cons. tauto. }
  split; [apply Hiff|].
  intros H. apply Hiff in H as [e He].
  unfold Principal_Validate. rewrite He. eauto.
Qed.

Lemma validate_entries_valid (es : list (ResourceEntry (Value := Value))) :
  Forall (fun e => Validate_entry e = None) es ->
  forall errList, validate_entries Append Validate_entry es errList = errList.
Proof.
  induction 1 as [|e es He _ IH]; intros errList; simpl; [done|].
  by rewrite He.
Qed.

Lemma Adds_batch (adds : list (option (Resource (Value := Value) (E := E)) * list string)) :
  forall rb,
    batch (Adds invalid_resource Append Validate_entry adds rb)
    = (batch rb ++ filter (fun e => Validate_entry e = None) (omap entry_of adds))%list
    /\ (is_Some (rb_err (Adds invalid_resource Append Validate_entry adds rb))
        <-> is_Some (rb_err rb)
            \/ Exists (fun e => is_Some (Validate_entry e)) (omap entry_of adds)).
Proof.
  unfold Adds. induction adds as [|[res actions] adds IH]; intros rb; simpl.
  - rewrite app_nil_r, Exists_nil. split; [done|]. split; [by left|by intros [?|[]]].
  - destruct (IH (Add invalid_resource Append Validate_entry res actions rb))
      as [Hb He].
    rewrite Hb, He. clear IH Hb He.
    destruct res as [res|]; [|simpl; by split].
    destruct actions as [|a actions]; [simpl; by split|].
    cbn [entry_of omap list_omap Add]. simpl.
    rewrite filter_cons, Exists_cons.
    destruct (Validate_entry _) as [e|] eqn:Hv; simpl.
    + split; [done|].
      split; [intros _; right; left; eauto|eauto].
    + rewrite <- app_assoc. split; [done|].
      split; [intros [?|?]; eauto|].
      intros [?|[[? ?]|?]]; eauto. done.
Qed.

(** X11. A batch filled by calls of [Add] on a new batch holds, in the order of
    the calls, the entries that passed validation, and nothing for a nil
    resource or an empty list of actions; it carries an error exactly when
    some entry failed. [Validate] accepts it exactly when no entry failed
    and at least one was added (the resources being left as they were when
    they were added). *)
Theorem ResourceBatch_Adds
    (adds : list (option (Resource (Value := Value) (E := E)) * list string)) :
  batch (Adds invalid_resource Append Validate_entry adds NewResourceBatch)
  = filter (fun e => Validate_entry e = None) (omap entry_of adds)
  /\ (is_Some (rb_err (Adds invalid_resource Append Validate_entry adds
                         NewResourceBatch))
      <-> Exists (fun e => is_Some (Validate_entry e)) (omap entry_of adds))
  /\ (ResourceBatch_Validate empty_batch Append Validate_entry
        (Adds invalid_resource Append Validate_entry adds NewResourceBatch)
      = None
      <-> Forall (fun e => Validate_entry e = None) (omap entry_of adds)
          /\ omap entry_of adds <> []).
Proof.
  destruct (Adds_batch adds NewResourceBatch) as [Hb He0]. simpl in Hb, He0.
  set (rb := Adds invalid_resource Append Validate_entry adds NewResourceBatch) in *.
  set (es := omap entry_of adds) in *.
  assert (He : is_Some (rb_err rb)
               <-> Exists (fun e => is_Some (Validate_entry e)) es).
  { rewrite He0. split; [intros [[? ?]|?]; done|by right]. }
  clear He0.
  split; [exact Hb|]. split; [exact He|].
  unfold ResourceBatch_Validate.
  destruct (rb_err rb) as [e|] eqn:Herr.
  - split; [done|]. intros [Hall _].
    assert (Hex : Exists (fun e => is_Some (Validate_entry e)) es).
    { apply He. eauto. }
    apply Exists_exists in Hex as (x & Hin & [e' He']).
    rewrite Forall_forall in Hall. rewrite (Hall x Hin) in He'. done.
  - assert (Hall : Forall (fun e => Validate_entry e = None) es).
    { apply Forall_forall. intros x Hin.
      destruct (Validate_entry x) as [e|] eqn:Hx; [|done].
      assert (is_Some (None (A := E))) as [? ?]; [|done].
      apply He. apply Exists_exists. exists x. split; [done|]. eauto. }
    assert (Hfilter : batch rb = es).
    { rewrite Hb. clear -Hall. induction Hall as [|x l Hx _ IH]; [done|].
      rewrite filter_cons, decide_True by done. by rewrite IH. }
    rewrite Hfilter. destruct es as [|x l]; [split; [done|by intros [_ ?]]|].
    rewrite validate_entries_valid by done. split; [done|done].
Qed.

(** X12. [Add] never looks at the error that the builder of the resource has
    accumulated: a resource with such an error, which its own [Validate]
    reports, is added to the batch when its entry validates, and the batch
    records no error. *)
Theorem Add_ignores_resource_error (res : Resource (Value := Value) (E := E))
    (e : E) (action : string) (actions : list string)
    (rb : ResourceBatch (Value := Value) (E := E)) :
  r_err res = Some e ->
  Validate_entry {| Actions := action :: actions; entry_Resource := r res |} = None ->
  Resource_Validate Validate_resource res = Some e
  /\ Add invalid_resource Append Validate_entry (Some res) (action :: actions) rb
     = {| rb_err := rb_err rb;
          batch := (batch rb
                    ++ [{| Actions := action :: actions;
                           entry_Resource := r res |}])%list |}.
Proof.
  intros Herr Hvalid. unfold Resource_Validate, Add. by rewrite Herr, Hvalid.
Qed.

End RequestsFacts.

(** ** The policy builders and the policy set *)
Section BuilderMethodFacts.

Import policyv1.

Context {E : Type}.
Context (Validate : Policy -> option E).
Context (Validate_rule : ResourceRule.t -> option E).
Context (invalid_rule : E -> E).
Context (failed_to_add : client.Builder (E := E) -> E -> E).
Context (empty_policy_set : E).
Context (Append : option E -> E -> E).

Lemma AddResourceRules_fold rules (rp : client.ResourcePolicy (E := E)) :
  let rp' := builders.AddResourceRules Validate_rule invalid_rule Append rules rp in
  ResourcePolicy.Rules (client.p rp') =
    (ResourcePolicy.Rules (client.p rp) ++
     List.filter (builders.valid_rule Validate_rule) (builders.given rules))%list /\
  (is_Some (client.rp_err rp') <->
     is_Some (client.rp_err rp) \/
     Exists (fun r => is_Some (Validate_rule r)) (builders.given rules)) /\
  builders.unchanged_but_rules (client.p rp) (client.p rp').
Proof.
  revert rp. induction rules as [|r rules IH]; intros rp; simpl.
  - rewrite app_nil_r. split; [done|]. split.
    + split; [by left|]. intros [?|H]; [done|]. by apply Exists_nil in H.
    + by repeat split.
  - destruct r as [rr|]; simpl.
    + unfold builders.given, builders.valid_rule in *. simpl.
      destruct (Validate_rule (builders.rule rr)) as [e|] eqn:Hv; simpl.
      * specialize (IH {| client.p := client.p rp;
                          client.rp_err :=
                            Some (Append (client.rp_err rp) (invalid_rule e)) |}).
        simpl in IH. unfold builders.AddResourceRules in *.
        destruct IH as (H1 & H2 & H4).
        split; [done|]. split; [|done].
        split.
        -- intros _. right. apply Exists_cons. left. by rewrite Hv.
        -- intros _. apply H2. by left.
      * specialize (IH (builders.with_p (fun m =>
            builders.set_resource_policy m (ResourcePolicy.Scope m)
              (ResourcePolicy.ImportDerivedRoles m) (ResourcePolicy.Variables m)
              (ResourcePolicy.Schemas m)
              (ResourcePolicy.Rules m ++ [builders.rule rr])%list) rp)).
        simpl in IH. unfold builders.AddResourceRules in *.
        destruct IH as (H1 & H2 & H4).
        split; [by rewrite H1, <- app_assoc|]. split.
        { rewrite H2. split.
          - intros [?|H]; [by left|]. right. apply Exists_cons. by right.
          - intros [?|H]; [by left|]. apply Exists_cons in H.
            destruct H as [H|H]; [|by right]. rewrite Hv in H.
            by destruct H. }
        apply H4.
    + apply IH.
Qed.

(** X13. One call of [AddResourceRules] appends to the rules of the policy
    the rules it was given that pass their validation, in the order given;
    nil rules and rules that fail are left out. The accumulated error is
    non-nil afterwards exactly when it was before or some rule failed, and
    nothing else of the policy changes. *)
Theorem AddResourceRules_appends_valid rules (rp : client.ResourcePolicy (E := E)) :
  ResourcePolicy.Rules
    (client.p (builders.AddResourceRules Validate_rule invalid_rule Append rules rp)) =
    (ResourcePolicy.Rules (client.p rp) ++
     List.filter (builders.valid_rule Validate_rule) (builders.given rules))%list /\
  (is_Some (client.rp_err
              (builders.AddResourceRules Validate_rule invalid_rule Append rules rp)) <->
     is_Some (client.rp_err rp) \/
     Exists (fun r => is_Some (Validate_rule r)) (builders.given rules)) /\
  builders.unchanged_but_rules (client.p rp)
    (client.p (builders.AddResourceRules Validate_rule invalid_rule Append rules rp)).
Proof. apply AddResourceRules_fold. Qed.

Lemma ResourcePolicy_call_as_new c rp :
  builders.as_new rp ->
  (builders.sets_schema c ->
   builders.ResourcePolicy_call Validate_rule invalid_rule Append rp c = Panics) /\
  (~ builders.sets_schema c ->
   exists rp',
     builders.ResourcePolicy_call Validate_rule invalid_rule Append rp c = Returns rp' /\
     builders.as_new rp' /\
     ResourcePolicy.Resource (client.p rp') = ResourcePolicy.Resource (client.p rp) /\
     ResourcePolicy.Version (client.p rp') = ResourcePolicy.Version (client.p rp)).
Proof.
  intros [Hs [v Hv]]. split.
  - destruct c; simpl; try done; intros _.
    + unfold builders.WithPrincipalSchema. rewrite Hs. by destruct principalSchema.
    + unfold builders.WithResourceSchema. rewrite Hs. by destruct resourceSchema.
  - destruct c; simpl; intros Hn; try (by destruct Hn).
    + eexists. split; [done|]. unfold builders.as_new. simpl. rewrite Hs, Hv. by eauto.
    + eexists. split; [done|]. unfold builders.as_new. simpl. rewrite Hs, Hv. by eauto.
    + eexists. split; [done|].
      destruct (AddResourceRules_fold rules rp) as (_ & _ & H).
      destruct H as (H1 & H2 & _ & _ & H5 & H6).
      unfold builders.as_new. rewrite H1, H2, H5, H6, Hs, Hv. by eauto.
    + unfold builders.WithVariablesImports. rewrite Hv.
      eexists. split; [done|]. unfold builders.as_new. simpl. rewrite Hs. by eauto.
    + unfold builders.WithVariable. rewrite Hv.
      eexists. split; [done|]. unfold builders.as_new. simpl. rewrite Hs. by eauto.
Qed.

Lemma ResourcePolicy_calls_as_new cs : forall rp,
  builders.as_new rp ->
  (Exists builders.sets_schema cs ->
   builders.ResourcePolicy_calls Validate_rule invalid_rule Append cs rp = Panics) /\
  (~ Exists builders.sets_schema cs ->
   exists rp',
     builders.ResourcePolicy_calls Validate_rule invalid_rule Append cs rp = Returns rp' /\
     builders.as_new rp' /\
     ResourcePolicy.Resource (client.p rp') = ResourcePolicy.Resource (client.p rp) /\
     ResourcePolicy.Version (client.p rp') = ResourcePolicy.Version (client.p rp)).
Proof.
  induction cs as [|c cs IH]; intros rp Hrp.
  - split.
    + intros H. by apply Exists_nil in H.
    + intros _. exists rp. by simpl.
  - destruct (ResourcePolicy_call_as_new c rp Hrp) as [Hp Hr]. split.
    + intros H. simpl.
      destruct (builders.ResourcePolicy_call Validate_rule invalid_rule Append rp c)
        as [rp1|] eqn:Hc; [|done]. simpl.
      apply Exists_cons in H. destruct H as [H|H].
      * apply Hp in H. congruence.
      * assert (Hn : ~ builders.sets_schema c).
        { intros Hsc. apply Hp in Hsc. congruence. }
        destruct (Hr Hn) as (rp' & Heq & Has & _).
        injection Heq as <-. by apply IH.
    + intros H. simpl.
      assert (Hn : ~ builders.sets_schema c).
      { intros Hsc. apply H. apply Exists_cons. by left. }
      destruct (Hr Hn) as (rp1 & Heq & Has & Hres & Hver). rewrite Heq. simpl.
      destruct (IH rp1 Has) as [_ IHr].
      destruct IHr as (rp' & Heq' & Has' & Hres' & Hver').
      { intros Hex. apply H. apply Exists_cons. by right. }
      exists rp'. rewrite Heq'. split; [done|]. split; [done|].
      by rewrite Hres', Hver'.
Qed.

(** X14. On a builder made by [NewResourcePolicy], whatever methods are
    called on it and with whatever arguments, the chain of calls panics as
    soon as it contains [WithPrincipalSchema] or [WithResourceSchema]: no
    method allocates the [Schemas] of the policy, which both dereference.
    A chain without them never panics (so [WithVariable] and
    [WithVariablesImports] are safe), and keeps the resource and the version
    given to the constructor. *)
Theorem schema_setters_panic (resource version : string) cs :
  (Exists builders.sets_schema cs ->
   builders.ResourcePolicy_calls Validate_rule invalid_rule Append cs
     (client.NewResourcePolicy resource version) = Panics) /\
  (~ Exists builders.sets_schema cs ->
   exists rp',
     builders.ResourcePolicy_calls Validate_rule invalid_rule Append cs
       (client.NewResourcePolicy resource version) = Returns rp' /\
     ResourcePolicy.Schemas (client.p rp') = None /\
     ResourcePolicy.Resource (client.p rp') = resource /\
     ResourcePolicy.Version (client.p rp') = version).
Proof.
  assert (Hnew : builders.as_new (client.NewResourcePolicy (E := E) resource version)).
  { split; [done|]. by eexists. }
  destruct (ResourcePolicy_calls_as_new cs _ Hnew) as [Hp Hr].
  split; [done|]. intros Hn.
  destruct (Hr Hn) as (rp' & Heq & [Hs _] & Hres & Hver).
  exists rp'. by repeat split.
Qed.

(** X16. A policy set does not see the error that a builder accumulated.
    When [AddResourceRules] was given a rule that fails its validation, the
    rule is left out and the error kept in the builder, whose [Validate]
    reports it; if the policy without the rule passes [policy.Validate],
    [AddResourcePolicies] adds it to a new set all the same, and [Validate]
    of that set returns nil. *)
Theorem PolicySet_ignores_builder_error rules (rp : client.ResourcePolicy (E := E)) :
  Exists (fun r => is_Some (Validate_rule r)) (builders.given rules) ->
  Validate (fst (client.ResourcePolicy_build Validate
     (builders.AddResourceRules Validate_rule invalid_rule Append rules rp))) = None ->
  is_Some (client.ResourcePolicy_Validate Validate
     (builders.AddResourceRules Validate_rule invalid_rule Append rules rp)) /\
  builders.GetPolicies
    (builders.AddResourcePolicies Validate failed_to_add Append
       [Some (builders.AddResourceRules Validate_rule invalid_rule Append rules rp)]
       builders.NewPolicySet) =
    [fst (client.ResourcePolicy_build Validate
       (builders.AddResourceRules Validate_rule invalid_rule Append rules rp))] /\
  builders.PolicySet_Validate empty_policy_set
    (builders.AddResourcePolicies Validate failed_to_add Append
       [Some (builders.AddResourceRules Validate_rule invalid_rule Append rules rp)]
       builders.NewPolicySet) = None.
Proof.
  intros Hbad Hok.
  destruct (AddResourceRules_fold rules rp) as (_ & He & _).
  set (rp' := builders.AddResourceRules Validate_rule invalid_rule Append rules rp) in *.
  assert (Herr : is_Some (client.rp_err rp')) by (apply He; by right).
  split.
  - unfold client.ResourcePolicy_Validate. destruct Herr as [e ->]. by eexists.
  - unfold builders.AddResourcePolicies, builders.PolicySet_Validate,
      builders.GetPolicies. simpl.
    unfold builders.add. simpl. simpl in Hok. rewrite Hok. by simpl.
Qed.

End BuilderMethodFacts.

(** ** The policy set and the builders it shares messages with *)
Section SharedFacts.
Import policyv1 shared.

Context {E : Type}.
Context (Validate : Policy -> option E).
Context (failed_to_add : client.Builder (E := E) -> E -> E).
Context (empty_policy_set : E).
Context (Append : option E -> E -> E).

(** The policy that [build] of a builder returns carries the message of the
    builder. *)
Lemma build_message_of (b : client.Builder (E := E)) :
  fst (client.build Validate b)
  = {| policyv1.ApiVersion := client.apiVersion;
       PolicyType := Some (message_of b);
       JsonSchema := "" |}
  /\ snd (client.build Validate b) = Validate (fst (client.build Validate b)).
Proof. by destruct b. Qed.

Lemma build_lookup (h : heap) (l : nat) (b : client.Builder (E := E)) :
  h !! l = Some b ->
  build Validate h l
  = Returns ({| ApiVersion := client.apiVersion; message := l |},
             snd (client.build Validate b)).
Proof.
  intros Hl. unfold build, read. cbn [message]. rewrite Hl.
  destruct (build_message_of b) as [Hfst Hsnd]. by rewrite Hsnd, Hfst.
Qed.

Lemma add_all_fold (h : heap) (ls : list (option nat)) :
  Forall (fun o => match o with Some l => l < length h | None => True end) ls ->
  forall ps, exists ps',
    add_all Validate failed_to_add Append h ls ps = Returns ps'
    /\ policies ps'
       = (policies ps
          ++ map pointer
               (List.filter (built Validate)
                  (handed_over [Add ls] h)))%list
    /\ (err ps' = None
        <-> err ps = None
            /\ Forall (fun lb => built Validate lb = true) (handed_over [Add ls] h)).
Proof.
  simpl handed_over. rewrite app_nil_r.
  induction 1 as [|o ls Ho _ IH]; intros ps.
  - exists ps. simpl. rewrite app_nil_r. split; [done|]. split; [done|].
    split; [by intros ?; split|by intros [? _]].
  - destruct o as [l|]; [|apply IH].
    apply lookup_lt_is_Some in Ho as [b Hb0].
    assert (Hb : h !! l = Some b) by exact Hb0. clear Hb0.
    cbn [add_all omap list_omap]. unfold add. rewrite (build_lookup h l b Hb).
    cbn [obind fst snd]. rewrite Hb. cbn [option_map List.filter].
    destruct (snd (client.build Validate b)) as [e|] eqn:Hv; cbn [obind fst snd].
    + assert (Hbt : built Validate (l, b) = false)
        by (unfold built; cbn [snd]; by rewrite Hv).
      rewrite Hbt.
      destruct (IH {| err := Some (Append (err ps) (failed_to_add b e));
                      policies := policies ps |}) as (ps' & Hrun & Hpol & Herr).
      exists ps'. split; [done|]. split; [done|].
      rewrite Herr. split; [by intros [? _]|].
      intros [_ H]. apply Forall_cons in H as [H _]. congruence.
    + assert (Hbt : built Validate (l, b) = true)
        by (unfold built; cbn [snd]; by rewrite Hv).
      rewrite Hbt.
      destruct (IH {| err := err ps;
                      policies := (policies ps ++ [pointer (l, b)])%list |})
        as (ps' & Hrun & Hpol & Herr).
      exists ps'. split; [done|].
      split; [by rewrite Hpol; cbn [map policies]; rewrite <- app_assoc|].
      rewrite Herr. cbn [err]. split.
      * intros [? ?]. split; [done|]. by apply Forall_cons.
      * intros [? H]. apply Forall_cons in H as [_ H]. done.
Qed.

Lemma called_length (h : heap) (l : nat)
    (method : client.Builder (E := E) -> client.Builder (E := E)) :
  length (called h l method) = length h.
Proof.
  unfold called. destruct (h !! l); [|done]. apply length_insert.
Qed.

Lemma heap_after_length (ops : list (op (E := E))) :
  forall h : heap, length (heap_after ops h) = length h.
Proof.
  induction ops as [|[l method|ls] ops IH]; intros h; simpl; [done| |apply IH].
  by rewrite IH, called_length.
Qed.

Lemma handed_over_addressed (ops : list (op (E := E))) :
  forall (h : heap) lb, lb ∈ handed_over ops h -> fst lb < length h.
Proof.
  induction ops as [|[l method|ls] ops IH]; intros h lb Hin; simpl in Hin.
  - by apply elem_of_nil in Hin.
  - apply IH in Hin. by rewrite called_length in Hin.
  - apply elem_of_app in Hin as [Hin|Hin]; [|by apply IH].
    apply list_elem_of_omap in Hin as ([l|] & _ & Hl); [|done].
    destruct (h !! l) as [b|] eqn:Hb; [|done].
    injection Hl as <-. simpl. apply lookup_lt_is_Some. by eexists.
Qed.

Lemma run_fold (ops : list (op (E := E))) :
  forall (h : heap) ps,
    Forall (addressed (length h)) ops ->
    exists ps',
      run Validate failed_to_add Append ops (h, ps)
      = Returns (heap_after ops h, ps')
      /\ policies ps'
         = (policies ps
            ++ map pointer (List.filter (built Validate) (handed_over ops h)))%list
      /\ (err ps' = None
          <-> err ps = None
              /\ Forall (fun lb => built Validate lb = true) (handed_over ops h)).
Proof.
  induction ops as [|[l method|ls] ops IH]; intros h ps Hops.
  - exists ps. simpl. rewrite app_nil_r. split; [done|]. split; [done|].
    split; [by intros ?; split|by intros [? _]].
  - apply Forall_cons in Hops as [Hl Hops]. simpl in Hl.
    apply lookup_lt_is_Some in Hl as [b Hb0].
    assert (Hb : h !! l = Some b) by exact Hb0. clear Hb0.
    cbn [run step fst snd heap_after handed_over]. unfold called. rewrite Hb.
    cbn [obind]. apply IH.
    replace (length (<[l := method b]> h)) with (length h)
      by (symmetry; apply length_insert).
    done.
  - apply Forall_cons in Hops as [Hls Hops]. simpl in Hls.
    destruct (add_all_fold h ls Hls ps) as (ps1 & Hrun1 & Hpol1 & Herr1).
    simpl handed_over in Hpol1, Herr1. rewrite app_nil_r in Hpol1, Herr1.
    destruct (IH h ps1 Hops) as (ps' & Hrun & Hpol & Herr).
    exists ps'. cbn [run step fst snd heap_after handed_over].
    rewrite Hrun1. cbn [obind]. split; [done|]. split.
    + by rewrite Hpol, Hpol1, List.filter_app, map_app, <- app_assoc.
    + rewrite Herr, Herr1, Forall_app. tauto.
Qed.

(** X15. A program calls methods on its builders and hands pointers to them
    to [AddResourcePolicies], [AddPrincipalPolicies], [AddDerivedRoles] and
    [AddExportVariables] of a new policy set, in any order. Afterwards the
    set holds, in the order handed over, one policy for each non-nil builder
    whose [build] returned no error at the moment it was handed over. Each of
    these policies carries the API version of the client and points to the
    message of its builder: [GetPolicies] shows the builder as it is after
    all the method calls of the program, those that came after the builder
    was added included; a builder that was added twice appears twice, in
    the same state.
    [Validate] of the set returns nil exactly when at least one non-nil
    builder was handed over and none of them failed to build at that
    moment. *)
Theorem PolicySet_calls_policies (ops : list (op (E := E))) (h0 : heap) :
  Forall (addressed (length h0)) ops ->
  exists ps,
    run Validate failed_to_add Append ops (h0, NewPolicySet)
    = Returns (heap_after ops h0, ps)
    /\ GetPolicies (heap_after ops h0) ps
       = map (fun lb => option_map (fun b => fst (client.build Validate b))
                          (heap_after ops h0 !! fst lb))
             (List.filter (built Validate) (handed_over ops h0))
    /\ Forall (fun o => exists p, o = Some p
                          /\ policyv1.ApiVersion p = client.apiVersion)
         (GetPolicies (heap_after ops h0) ps)
    /\ (PolicySet_Validate empty_policy_set ps = None
        <-> handed_over ops h0 <> []
            /\ Forall (fun lb => built Validate lb = true) (handed_over ops h0)).
Proof.
  intros Hops.
  destruct (run_fold ops h0 NewPolicySet Hops) as (ps & Hrun & Hpol & Herr).
  simpl in Hpol, Herr. exists ps. split; [done|].
  assert (Hget : GetPolicies (heap_after ops h0) ps
                 = map (fun lb => option_map (fun b => fst (client.build Validate b))
                                    (heap_after ops h0 !! fst lb))
                       (List.filter (built Validate) (handed_over ops h0))).
  { unfold GetPolicies. rewrite Hpol, map_map. apply map_ext. intros lb.
    unfold read, pointer. cbn [message ApiVersion].
    destruct (heap_after ops h0 !! fst lb) as [b|]; [|done]. simpl.
    by destruct (build_message_of b) as [-> _]. }
  split; [done|]. split.
  - rewrite Hget. apply Forall_forall. intros o Ho.
    apply list_elem_of_fmap in Ho as (lb & -> & Hlb).
    apply list_elem_of_In, filter_In in Hlb as [Hlb _].
    apply list_elem_of_In, handed_over_addressed in Hlb.
    rewrite <- (heap_after_length ops h0) in Hlb.
    apply lookup_lt_is_Some in Hlb as [b Hb0].
    assert (Hb : heap_after ops h0 !! fst lb = Some b) by exact Hb0.
    rewrite Hb. simpl. eexists. split; [done|].
    by destruct (build_message_of b) as [-> _].
  - unfold PolicySet_Validate.
    destruct (err ps) as [e|] eqn:He.
    + split; [done|]. intros [_ H].
      assert (Some e = None) by (apply Herr; by split). done.
    + assert (Hall : Forall (fun lb => built Validate lb = true) (handed_over ops h0))
        by (by apply Herr).
      rewrite Hpol. destruct (handed_over ops h0) as [|lb lbs]; simpl.
      * split; [done|]. by intros [? _].
      * apply Forall_cons in Hall as [Hlb Hall]. rewrite Hlb. simpl.
        split; [|done]. intros _. split; [done|]. by apply Forall_cons.
Qed.

End SharedFacts.

(** ** The patterns of [Principal.schema.json] *)
Section PrincipalSchemaFacts.
Import Regex PrincipalSchema.

Lemma lang_class_inv (ranges : list (ascii * ascii)) (s : list ascii) :
  lang (Class ranges) s -> exists c, s = [c] /\ in_class c ranges = true.
Proof. intros H. inversion H; subst. by eexists. Qed.

(** What holds of every character of the pieces holds of every character
    of their repetition. *)
Lemma lang_star_Forall (P : ascii -> Prop) (r : regex) :
  (forall s, lang r s -> Forall P s) ->
  forall s, lang (Star r) s -> Forall P s.
Proof.
  intros Hr s H. remember (Star r) as r' eqn:Heq.
  induction H as [| | | | | |r0 s1 s2 H1 _ H2 IH2]; try discriminate.
  - constructor.
  - injection Heq as ->. apply Forall_app. split; [by apply Hr|by apply IH2].
Qed.

Lemma scope_tail_char_l c : in_class c scope_char = true -> scope_tail_char c = true.
Proof. unfold scope_tail_char. by intros ->. Qed.

Lemma scope_tail_char_dot c : in_class c dot = true -> scope_tail_char c = true.
Proof. unfold scope_tail_char. intros ->. by rewrite orb_true_r. Qed.

Lemma alnum_scope_char (c : ascii) :
  in_class c alnum = true -> in_class c scope_char = true.
Proof.
  destruct c as [[] [] [] [] [] [] [] []]; vm_compute; congruence.
Qed.

Lemma lang_dotted (s : list ascii) :
  lang (Cat (Class dot) (Star (Class scope_char))) s ->
  Forall (fun c => scope_tail_char c = true) s.
Proof.
  intros H. apply lang_cat_inv in H as (s1 & s2 & -> & H1 & H2).
  apply lang_class_inv in H1 as (c & -> & Hc).
  apply lang_star_class in H2. simpl. constructor.
  - by apply scope_tail_char_dot.
  - eapply Forall_impl; [exact H2|]. intros. by apply scope_tail_char_l.
Qed.

Lemma lang_scope_group (s : list ascii) :
  lang scope_group s ->
  exists c s', s = c :: s' /\ in_class c alnum = true
               /\ Forall (fun c => scope_tail_char c = true) s'.
Proof.
  unfold scope_group. intros H.
  apply lang_cat_inv in H as (s1 & s2 & -> & H1 & H2).
  apply lang_class_inv in H1 as (c & -> & Hc).
  apply lang_cat_inv in H2 as (s3 & s4 & -> & H3 & H4).
  exists c, (s3 ++ s4)%list. split; [done|]. split; [done|].
  apply Forall_app. split.
  - apply lang_star_class in H3. eapply Forall_impl; [exact H3|].
    intros. by apply scope_tail_char_l.
  - revert H4. apply lang_star_Forall. apply lang_dotted.
Qed.

(** A run of dots and characters of [scope_char] is a run of characters of
    [scope_char] followed by dotted runs. *)
Lemma lang_scope_tail (s : list ascii) :
  Forall (fun c => scope_tail_char c = true) s ->
  exists s1 s2, s = (s1 ++ s2)%list
    /\ Forall (fun c => in_class c scope_char = true) s1
    /\ lang (Star (Cat (Class dot) (Star (Class scope_char)))) s2.
Proof.
  induction 1 as [|c s Hc _ (s1 & s2 & -> & H1 & H2)].
  - exists [], []. split; [done|]. split; constructor.
  - destruct (in_class c scope_char) eqn:Hsc.
    + exists (c :: s1), s2. split; [done|]. split; [by constructor|done].
    + unfold scope_tail_char in Hc. rewrite Hsc in Hc. simpl in Hc.
      exists [], ((c :: s1) ++ s2)%list. split; [done|]. split; [constructor|].
      constructor; [|done].
      change (c :: s1) with ([c] ++ s1)%list. constructor.
      * by constructor.
      * by apply lang_star_class.
Qed.

Lemma lang_scope_pattern (s : list ascii) :
  lang scope_pattern s <-> scope_shape s = true.
Proof.
  unfold scope_pattern. split.
  - intros H. destruct s as [|c s]; [done|].
    assert (Hall : Forall (fun c => scope_tail_char c = true) (c :: s)).
    { revert H. apply lang_star_Forall. intros s0 H0.
      apply lang_scope_group in H0 as (c0 & s' & -> & Hc0 & Hs').
      constructor; [|done]. apply scope_tail_char_l. by apply alnum_scope_char. }
    apply lang_star_cons_inv in H as (s1 & s2 & -> & H1 & _).
    apply lang_scope_group in H1 as (c0 & s' & [= <- <-] & Hc0 & _).
    unfold scope_shape. rewrite Hc0. rewrite andb_true_l. apply forallb_forall.
    apply Forall_cons in Hall as [_ Hall]. rewrite Forall_forall in Hall.
    intros x Hx. apply Hall. by apply list_elem_of_In.
  - destruct s as [|c s]; [constructor|]. unfold scope_shape. intros H.
    apply andb_true_iff in H as [Hc Hs].
    assert (Hall : Forall (fun c => scope_tail_char c = true) s).
    { apply Forall_forall. intros x Hx. rewrite forallb_forall in Hs.
      apply Hs. by apply list_elem_of_In. }
    apply lang_scope_tail in Hall as (s1 & s2 & -> & H1 & H2).
    rewrite <- (app_nil_r (c :: s1 ++ s2)). constructor; [|constructor].
    unfold scope_group. change (c :: s1 ++ s2)%list with ([c] ++ (s1 ++ s2))%list.
    constructor; [by constructor|]. constructor; [|done].
    by apply lang_star_class.
Qed.

(** X17. The pattern that [Principal.schema.json] puts on the scope of a
    principal accepts exactly the empty string and the strings that begin
    with one of [0-9A-Za-z] and go on with dots, hyphens, underscores and
    characters of [0-9A-Za-z] in any order: consecutive dots and a dot at
    the end are accepted, a dot, a hyphen or an underscore at the beginning
    is not. *)
Theorem scope_pattern_shape (s : string) :
  full_match scope_pattern s = scope_shape (list_ascii_of_string s).
Proof.
  apply Bool.eq_iff_eq_true. unfold full_match.
  rewrite run_lang. apply lang_scope_pattern.
Qed.

End PrincipalSchemaFacts.

(** ** The schema of a condition *)
Section ConditionFacts.
Import Regex JSONSchema RuleSchema.

Lemma all_valid_ext_in {A} (f g : A -> option bool) (l : list A) :
  (forall x, x ∈ l -> f x = g x) -> all_valid f l = all_valid g l.
Proof.
  induction l as [|x l IH]; intros H; simpl; [done|].
  rewrite (H x) by (by left). rewrite IH; [done|].
  intros y Hy. apply H. by right.
Qed.

Lemma count_valid_ext_in {A} (f g : A -> option bool) (l : list A) :
  (forall x, x ∈ l -> f x = g x) -> count_valid f l = count_valid g l.
Proof.
  induction l as [|x l IH]; intros H; simpl; [done|].
  rewrite (H x) by (by left). rewrite IH; [done|].
  intros y Hy. apply H. by right.
Qed.

Lemma all_valid_true {A} (f : A -> option bool) (l : list A) :
  (forall x, x ∈ l -> f x = Some true) -> all_valid f l = Some true.
Proof.
  induction l as [|x l IH]; intros H; simpl; [done|].
  rewrite (H x) by (by left). rewrite IH; [done|].
  intros y Hy. apply H. by right.
Qed.

Lemma flat_map_subseteq {A} (f : A -> list string) (l : list A) (x : A) :
  x ∈ l -> f x ⊆ flat_map f l.
Proof.
  intros Hx y Hy. apply list_elem_of_In, in_flat_map.
  exists x. split; by apply list_elem_of_In.
Qed.

Lemma keyword_holds_ext (sub sub' : schema -> json -> option bool)
    (siblings : list keyword) (kw : keyword) (j : json) (names : list string) :
  keyword_refs kw ⊆ names ->
  (forall s j', refs s ⊆ names -> sub s j' = sub' s j') ->
  keyword_holds sub siblings kw j = keyword_holds sub' siblings kw j.
Proof.
  intros Hkw Hsub. destruct kw; simpl in *; try done.
  - destruct j; try done. apply all_valid_ext_in. intros m _.
    destruct (assoc m.1 props) as [s|] eqn:Hs; [|done].
    apply Hsub. etrans; [|exact Hkw].
    apply assoc_elem_of in Hs.
    apply (flat_map_subseteq (fun p : string * schema => let '(_, s) := p in refs s)
             props (m.1, s) Hs).
  - destruct j; try done. apply all_valid_ext_in. intros x _. by apply Hsub.
  - apply all_valid_ext_in. intros s Hs. apply Hsub.
    etrans; [|exact Hkw]. by apply flat_map_subseteq.
  - erewrite count_valid_ext_in; [done|]. intros s Hs. apply Hsub.
    etrans; [|exact Hkw]. by apply flat_map_subseteq.
Qed.

(** Definitions that a schema does not reach do not change its verdict. *)
Lemma validate_agree defs defs' names :
  agree defs defs' names ->
  forall fuel s j, refs s ⊆ names ->
    validate defs fuel s j = validate defs' fuel s j.
Proof.
  intros Hag. induction fuel as [|fuel IH]; intros s j Hs; [done|].
  destruct s as [name|kws].
  - rewrite !validate_Ref.
    destruct (Hag name) as [Heq Hrefs]; [apply Hs; by left|].
    rewrite <- Heq. destruct (assoc name defs) as [s'|]; [|done].
    apply IH. by apply Hrefs.
  - rewrite !validate_Schema. apply all_valid_ext_in. intros kw Hkw.
    apply keyword_holds_ext with names; [|exact IH].
    etrans; [|exact Hs]. simpl. by apply flat_map_subseteq.
Qed.

Lemma rule_definitions_agree :
  agree rule_definitions definitions
    ["cerbos.policy.v1.Match"; "cerbos.policy.v1.Match.ExprList"].
Proof.
  intros name Hname.
  repeat (apply elem_of_cons in Hname as [->|Hname]);
    [| |by apply elem_of_nil in Hname].
  - split; [done|]. intros s [= <-]. simpl.
    intros x Hx. repeat (apply elem_of_cons in Hx as [->|Hx]);
      try (by apply elem_of_nil in Hx); by (right; left).
  - split; [done|]. intros s [= <-]. simpl.
    intros x Hx. repeat (apply elem_of_cons in Hx as [->|Hx]);
      try (by apply elem_of_nil in Hx); by left.
Qed.

Lemma Match_rule_definitions fuel j :
  validate rule_definitions fuel Match_schema j
  = validate definitions fuel Match_schema j.
Proof.
  apply validate_agree with (names := ["cerbos.policy.v1.Match";
                                       "cerbos.policy.v1.Match.ExprList"]).
  - apply rule_definitions_agree.
  - simpl. intros x Hx. repeat (apply elem_of_cons in Hx as [->|Hx]);
      try (by apply elem_of_nil in Hx); by (right; left).
Qed.

Lemma validate_mono_le defs (fuel fuel' : nat) s j b :
  fuel <= fuel' -> validate defs fuel s j = Some b ->
  validate defs fuel' s j = Some b.
Proof.
  induction 1 as [|fuel' _ IH]; [done|]. intros H. by apply validate_mono, IH.
Qed.

(** Verdicts reached one by one are reached with one amount of fuel. *)
Lemma common_fuel defs s (l : list json) :
  Forall (fun v => exists fuel, validate defs fuel s v = Some true) l ->
  exists fuel, Forall (fun v => validate defs fuel s v = Some true) l.
Proof.
  induction 1 as [|v l [f Hf] _ [f' Hf']]; [by exists 0|].
  exists (f `max` f'). constructor.
  - apply validate_mono_le with f; [lia|done].
  - eapply Forall_impl; [exact Hf'|]. intros v' Hv'.
    apply validate_mono_le with f'; [lia|done].
Qed.

Lemma validate_required_in defs fuel k ms :
  validate defs (S fuel) (Schema [Type_ TObject; Required [k]]) (JObject ms)
  = Some (has_key k ms).
Proof. simpl. by destruct (has_key k ms). Qed.

Lemma Condition_shape fuel j :
  validate rule_definitions fuel Condition_schema j = Some true ->
  exists ms, j = JObject ms /\ one_of_match_script ms = true
    /\ Forall Condition_member ms.
Proof.
  destruct fuel as [|f]; [discriminate|]. unfold Condition_schema.
  rewrite validate_Schema. intros H.
  apply all_valid_cons in H as [H _]. cbn [keyword_holds] in H.
  apply all_valid_cons in H as [HA H].
  apply all_valid_cons in H as [HB _].
  destruct f as [|f]; [discriminate|]. rewrite validate_Schema in HA, HB.
  apply all_valid_cons in HA as [Htype H].
  apply all_valid_cons in H as [Hadd H].
  apply all_valid_cons in H as [Hprops _].
  injection Htype as Htype. apply has_type_object in Htype as [ms ->].
  apply all_valid_cons in HB as [HB _].
  cbn [keyword_holds] in Hprops, HB, Hadd.
  exists ms. split; [done|]. split.
  - destruct f as [|f]; [discriminate|].
    cbn [count_valid] in HB. rewrite !validate_required_in in HB.
    unfold one_of_match_script.
    destruct (has_key "match" ms), (has_key "script" ms); simpl in *; congruence.
  - apply all_valid_Forall in Hprops. rewrite Forall_forall in Hprops.
    injection Hadd as Hadd. simpl in Hadd. rewrite forallb_forall in Hadd.
    apply Forall_forall. intros [k v] Hin.
    specialize (Hprops _ Hin). specialize (Hadd _ (proj1 (list_elem_of_In _ _) Hin)).
    simpl in Hprops, Hadd. unfold Condition_member. simpl.
    destruct (String.eqb k "match") eqn:Hm.
    + apply String.eqb_eq in Hm as ->. left. split; [done|]. simpl in Hprops.
      destruct f as [|f]; [discriminate|]. rewrite validate_Ref in Hprops.
      simpl in Hprops. exists f. by rewrite <- Match_rule_definitions.
    + destruct (String.eqb k "script") eqn:Hs; [|done].
      apply String.eqb_eq in Hs as ->. right. split; [done|]. simpl in Hprops.
      destruct f as [|f]; [discriminate|]. simpl in Hprops.
      destruct v; try discriminate. by eexists.
Qed.

Lemma Condition_members_fuel (ms : list (string * json)) :
  Forall Condition_member ms ->
  exists fuel, forall m, m ∈ ms -> m.1 = "match" ->
    validate rule_definitions fuel Match_schema m.2 = Some true.
Proof.
  induction 1 as [|m ms Hm _ [F HF]].
  - exists 0. intros m Hin. by apply elem_of_nil in Hin.
  - destruct Hm as [[Hk [f Hf]]|[Hk _]].
    + exists (f `max` F). intros m' Hin Hk'.
      apply elem_of_cons in Hin as [->|Hin].
      * apply validate_mono_le with f; [lia|]. by rewrite Match_rule_definitions.
      * apply validate_mono_le with F; [lia|]. by apply HF.
    + exists F. intros m' Hin Hk'.
      apply elem_of_cons in Hin as [->|Hin]; [congruence|]. by apply HF.
Qed.

Lemma Condition_accepts (ms : list (string * json)) :
  one_of_match_script ms = true -> Forall Condition_member ms ->
  accepted_Condition (JObject ms).
Proof.
  intros Hone Hms.
  destruct (Condition_members_fuel ms Hms) as [F HF].
  rewrite Forall_forall in Hms.
  exists (S (S (S (S F)))). unfold Condition_schema.
  rewrite validate_Schema. apply all_valid_true. intros kw Hkw.
  apply list_elem_of_singleton in Hkw as ->. cbn [keyword_holds].
  apply all_valid_true. intros s Hs.
  apply elem_of_cons in Hs as [->|Hs]; [|apply list_elem_of_singleton in Hs as ->].
  - rewrite validate_Schema. apply all_valid_true. intros kw Hkw.
    repeat (apply elem_of_cons in Hkw as [->|Hkw]);
      [| | |by apply elem_of_nil in Hkw]; cbn [keyword_holds].
    + done.
    + f_equal. simpl. apply forallb_forall. intros m Hin.
      apply list_elem_of_In in Hin.
      destruct (Hms m Hin) as [[-> _]|[-> _]]; by simpl.
    + apply all_valid_true. intros m Hin.
      destruct (Hms m Hin) as [[Hk _]|[Hk [str Hstr]]].
      * rewrite Hk. simpl assoc. cbv beta iota. rewrite validate_Ref. simpl assoc.
        apply validate_mono. by apply HF.
      * rewrite Hk, Hstr. by simpl.
  - rewrite validate_Schema. cbn [all_valid keyword_holds count_valid].
    rewrite !validate_required_in. unfold one_of_match_script in Hone.
    by destruct (has_key "match" ms), (has_key "script" ms).
Qed.

(** X18. A value is accepted as a [Condition] by the schema of a resource
    rule exactly when it is an object with exactly one of the keys [match]
    and [script] set, whose every member is a [match] that is itself an
    accepted [Match] or a [script] that is a string. *)
Theorem Condition_exactly_match_or_script (j : json) :
  accepted_Condition j <->
  exists members,
    j = JObject members
    /\ one_of_match_script members = true
    /\ Forall Condition_member members.
Proof.
  split.
  - intros [fuel H]. by apply Condition_shape in H.
  - intros (ms & -> & Hone & Hms). by apply Condition_accepts.
Qed.

End ConditionFacts.

(** ** Instances *)

Lemma response_decoded : CheckResources.decoded examples.response.
Proof.
  intros r Hin. unfold examples.response in Hin. simpl in Hin.
  repeat (apply elem_of_cons in Hin as [->|Hin]);
    [| |by apply elem_of_nil in Hin];
    (eexists; split; [done|]; split; [by eexists|]); simpl.
  - apply not_elem_of_nil.
  - intros H. apply list_elem_of_singleton in H. discriminate.
Qed.

Lemma GetResource_first_match_witness :
  exists crr,
    CheckResources.GetResource examples.not_found
      (CheckResources.wrap examples.response) "XX125"
      (map CheckResources.on_resource
           [fun r => String.eqb (CheckResources.PolicyVersion r) "default"])
    = Returns (CheckResources.lookup_result examples.not_found examples.response
                 "XX125"
                 [fun r => String.eqb (CheckResources.PolicyVersion r) "default"],
               crr)
    /\ forall id' ps',
         CheckResources.GetResource examples.not_found crr id'
           (map CheckResources.on_resource ps')
         = Returns (CheckResources.lookup_result examples.not_found
                      examples.response id' ps', crr).
Proof.
  apply GetResource_first_match. apply response_decoded.
Defined.

Lemma GetResource_IsAllowed_witness :
  exists rr crr,
    CheckResources.GetResource examples.not_found
      (CheckResources.wrap examples.response) "XX125"
      (map CheckResources.on_resource
           [fun r => String.eqb (CheckResources.PolicyVersion r) "default"])
    = Returns (rr, crr)
    /\ CheckResources.IsAllowed (Some rr) "approve"
       = Returns match CheckResources.first_match
                         (CheckResources.Results examples.response) "XX125"
                         [fun r => String.eqb (CheckResources.PolicyVersion r)
                                              "default"] with
                 | Some r =>
                     is_allow (default EFFECT_UNSPECIFIED
                                 (CheckResources.Actions r !! "approve"))
                 | None => false
                 end
    /\ ResourceResult.IsAllowed
         (Some (CheckResources.forget (fun e : string => e) rr)) "approve"
       = CheckResources.IsAllowed (Some rr) "approve".
Proof.
  apply GetResource_IsAllowed. apply response_decoded.
Defined.

Lemma Output_last_witness :
  CheckResources.Output
    (None (A := CheckResources.ResourceResult (Value := string) (E := string)))
    "rule-001"
  = Returns (None, None)
  /\ exists rr' : CheckResources.ResourceResult (Value := string) (E := string),
       CheckResources.Output
         (Some (CheckResources.found_resource examples.XX125_staging)) "rule-001"
       = Returns (CheckResources.last_output
                    (CheckResources.GetOutputs
                       (CheckResources.found_resource (E := string)
                          examples.XX125_staging)) "rule-001",
                  Some rr')
       /\ forall k',
            CheckResources.Output (Some rr') k'
            = Returns (CheckResources.last_output
                         (CheckResources.GetOutputs
                            (CheckResources.found_resource (E := string)
                               examples.XX125_staging)) k',
                       Some rr').
Proof.
  apply Output_last. by split.
Defined.

Lemma Errors_nil_iff_witness :
  exists e,
    CheckResources.Errors examples.failed_validation examples.Append
      (CheckResources.wrap examples.response) = Returns e
    /\ (e = None <->
        forall r, Some r ∈ CheckResources.Results examples.response ->
                  CheckResources.ValidationErrors r = []).
Proof.
  apply Errors_nil_iff. apply response_decoded.
Defined.

Lemma WithAttributes_any_order_witness :
  (requests.Principal_attrs
     (requests.Principal_WithAttributes examples.ToStructPB examples.invalid
        examples.Append (map_to_list examples.attr) examples.sally)
   = omap (requests.converted examples.ToStructPB) examples.attr
     ∪ requests.Principal_attrs examples.sally
   /\ (is_Some (requests.p_err
                  (requests.Principal_WithAttributes examples.ToStructPB
                     examples.invalid examples.Append
                     (map_to_list examples.attr) examples.sally))
       <-> is_Some (requests.p_err examples.sally)
           \/ exists k v, examples.attr !! k = Some v
                          /\ requests.converted examples.ToStructPB v = None))
  /\ (requests.Resource_attrs
        (requests.Resource_WithAttributes examples.ToStructPB examples.invalid
           examples.Append (map_to_list examples.attr) examples.XX125)
      = omap (requests.converted examples.ToStructPB) examples.attr
        ∪ requests.Resource_attrs examples.XX125
      /\ (is_Some (requests.r_err
                     (requests.Resource_WithAttributes examples.ToStructPB
                        examples.invalid examples.Append
                        (map_to_list examples.attr) examples.XX125))
          <-> is_Some (requests.r_err examples.XX125)
              \/ exists k v, examples.attr !! k = Some v
                             /\ requests.converted examples.ToStructPB v = None)).
Proof.
  apply WithAttributes_any_order. reflexivity.
Defined.

Lemma AddResourceInstance_replaces_witness :
  requests.instances
    (requests.AddResourceInstance examples.ToStructPB examples.invalid
       examples.Append "XX125" (map_to_list examples.attr)
       examples.leave_requests)
  = <["XX125" := omap (requests.converted examples.ToStructPB) examples.attr]>
      (requests.instances examples.leave_requests)
  /\ (is_Some (requests.rs_err
                 (requests.AddResourceInstance examples.ToStructPB
                    examples.invalid examples.Append "XX125"
                    (map_to_list examples.attr) examples.leave_requests))
      <-> is_Some (requests.rs_err examples.leave_requests)
          \/ exists k v, examples.attr !! k = Some v
                         /\ requests.converted examples.ToStructPB v = None).
Proof.
  apply AddResourceInstance_replaces. reflexivity.
Defined.

Lemma Principal_error_stays_witness :
  is_Some (requests.Principal_Validate examples.accept
             (requests.Principal_calls examples.ToStructPB examples.invalid
                examples.Append
                [requests.CallWithAttr "handle" "chan";
                 requests.CallWithScope "acme.corp"]
                examples.sally)).
Proof.
  apply (proj2 (Principal_error_stays examples.ToStructPB examples.invalid
                  examples.Append examples.accept
                  [requests.CallWithAttr "handle" "chan";
                   requests.CallWithScope "acme.corp"]
                  examples.sally)).
  right. apply Exists_cons. left. reflexivity.
Defined.

Lemma Add_ignores_resource_error_witness :
  requests.Resource_Validate examples.accept
    (requests.Resource_WithAttr examples.ToStructPB examples.invalid
       examples.Append "handle" "chan" examples.XX125)
  = Some "handle: unsupported type"
  /\ requests.Add examples.invalid examples.Append examples.accept
       (Some (requests.Resource_WithAttr examples.ToStructPB examples.invalid
                examples.Append "handle" "chan" examples.XX125))
       ("approve" :: ["view"]) requests.NewResourceBatch
     = {| requests.rb_err := requests.rb_err (requests.NewResourceBatch (Value := string) (E := string));
          requests.batch :=
            (requests.batch (requests.NewResourceBatch (Value := string) (E := string))
             ++ [{| requests.Actions := "approve" :: ["view"];
                    requests.entry_Resource :=
                      requests.r
                        (requests.Resource_WithAttr examples.ToStructPB
                           examples.invalid examples.Append "handle" "chan"
                           examples.XX125) |}])%list |}.
Proof.
  apply Add_ignores_resource_error; reflexivity.
Defined.

Lemma schema_setters_panic_witness :
  builders.ResourcePolicy_calls examples.Validate_rule
    (fun e : string => e) examples.Append
    [builders.CallWithScope "acme";
     builders.CallWithPrincipalSchema
       (Some {| builders.s := Some {| policyv1.Schemas_Schema.Ref := "cerbos:///principal.json";
                                      policyv1.Schemas_Schema.IgnoreWhen := Some [] |} |})]
    (client.NewResourcePolicy "leave_request" "default") = Panics.
Proof.
  apply (proj1 (schema_setters_panic examples.Validate_rule (fun e : string => e)
                  examples.Append "leave_request" "default" _)).
  apply Exists_cons. right. apply Exists_cons. left. exact I.
Defined.

Lemma PolicySet_ignores_builder_error_witness :
  is_Some (client.ResourcePolicy_Validate examples.accept
     (builders.AddResourceRules examples.Validate_rule (fun e : string => e)
        examples.Append
        [Some (builders.NewAllowResourceRule []);
         Some (builders.NewDenyResourceRule ["delete"])]
        examples.leave_request_policy)) /\
  builders.GetPolicies
    (builders.AddResourcePolicies examples.accept
       (fun _ (e : string) => e) examples.Append
       [Some (builders.AddResourceRules examples.Validate_rule
                (fun e : string => e) examples.Append
                [Some (builders.NewAllowResourceRule []);
                 Some (builders.NewDenyResourceRule ["delete"])]
                examples.leave_request_policy)]
       builders.NewPolicySet) =
    [fst (client.ResourcePolicy_build examples.accept
       (builders.AddResourceRules examples.Validate_rule (fun e : string => e)
          examples.Append
          [Some (builders.NewAllowResourceRule []);
           Some (builders.NewDenyResourceRule ["delete"])]
          examples.leave_request_policy))] /\
  builders.PolicySet_Validate "empty policy set"
    (builders.AddResourcePolicies examples.accept
       (fun _ (e : string) => e) examples.Append
       [Some (builders.AddResourceRules examples.Validate_rule
                (fun e : string => e) examples.Append
                [Some (builders.NewAllowResourceRule []);
                 Some (builders.NewDenyResourceRule ["delete"])]
                examples.leave_request_policy)]
       builders.NewPolicySet) = None.
Proof.
  apply PolicySet_ignores_builder_error.
  - apply Exists_cons. left. by eexists.
  - reflexivity.
Defined.

Lemma PolicySet_calls_policies_witness :
  exists ps,
    shared.run examples.accept (fun _ (e : string) => e) examples.Append
      examples.add_scope_add (examples.one_builder, shared.NewPolicySet)
    = Returns (shared.heap_after examples.add_scope_add examples.one_builder, ps)
    /\ shared.GetPolicies
         (shared.heap_after examples.add_scope_add examples.one_builder) ps
       = map (fun lb => option_map (fun b => fst (client.build examples.accept b))
                          (shared.heap_after examples.add_scope_add
                             examples.one_builder !! fst lb))
             (List.filter (shared.built examples.accept)
                (shared.handed_over examples.add_scope_add examples.one_builder))
    /\ Forall (fun o => exists p, o = Some p
                          /\ policyv1.ApiVersion p = client.apiVersion)
         (shared.GetPolicies
            (shared.heap_after examples.add_scope_add examples.one_builder) ps)
    /\ (shared.PolicySet_Validate "empty policy set" ps = None
        <-> shared.handed_over examples.add_scope_add examples.one_builder <> []
            /\ Forall (fun lb => shared.built examples.accept lb = true)
                 (shared.handed_over examples.add_scope_add examples.one_builder)).
Proof.
  apply PolicySet_calls_policies.
  repeat constructor.
Defined.

(** The builder of the instance was added before and after its scope was
    set: the set shows the later scope in both of its policies. *)
Example PolicySet_shares_message :
  exists ps,
    shared.run examples.accept (fun _ (e : string) => e) examples.Append
      examples.add_scope_add (examples.one_builder, shared.NewPolicySet)
    = Returns (shared.heap_after examples.add_scope_add examples.one_builder, ps)
    /\ shared.GetPolicies
         (shared.heap_after examples.add_scope_add examples.one_builder) ps
       = [Some (fst (client.build examples.accept
                       (client.OfResourcePolicy
                          (builders.WithScope "acme" examples.leave_request_policy))));
          Some (fst (client.build examples.accept
                       (client.OfResourcePolicy
                          (builders.WithScope "acme" examples.leave_request_policy))))].
Proof. eexists. split; reflexivity. Qed.
